(** * dash0-operator: synchronization of third-party custom resources

    A shallow embedding of [internal/controller/third_party_crd_common.go]:
    the synchronization engine (precondition validation, execution of the
    prepared HTTP requests with bounded retry, aggregation of the outcome,
    status reporting) and the lifecycle of the dynamically started
    sub-controller that watches the third-party kind.  The file also holds
    the file-log offset synchronizer ([package main]), which stores the
    offset files of the collector in a config map and restores them; its
    functions are embedded in the section on the offset synchronizer.

    Go values are modelled as follows.
    - [string] is [string]; an [int] and a [time.Duration] (nanoseconds) is [Z].
    - A slice is [slice A]: Go distinguishes the nil slice from an empty one.
    - A [map[string]V] is [gmap string V].  The nil map and the empty map
      agree on [len] and on every lookup, which is all the code asks of
      them, so both are [∅].
    - An [error] is [option error], [None] being the nil error.
    - Calls that leave the process (HTTP client, Kubernetes client, logger,
      [time.Sleep]) are recorded as a chronological list of [Event]s; their
      answers come from an environment [Env] indexed by a call counter. *)

From Stdlib Require Import ZArith QArith Ascii String List Bool Lia.
From stdpp Require Import base option list gmap strings pretty.

Local Open Scope Z_scope.
Local Open Scope string_scope.
Local Open Scope list_scope.

(** ** Go data *)

Inductive slice (A : Type) : Type :=
| nilSlice
| mkSlice (elems : list A).
Arguments nilSlice {A}.
Arguments mkSlice {A} elems.

Definition elemsOf {A} (s : slice A) : list A :=
  match s with
  | nilSlice => []
  | mkSlice l => l
  end.

Definition len {A} (s : slice A) : Z := Z.of_nat (length (elemsOf s)).

Definition append {A} (s : slice A) (x : A) : slice A := mkSlice (elemsOf s ++ [x]).

Definition lenMap {V} (m : gmap string V) : Z := Z.of_nat (size m).

(** [maps.Copy(dst, src)]: every pair of [src] is written into [dst],
    overwriting what [dst] held under the same key. *)
Definition mapsCopy {V} (dst src : gmap string V) : gmap string V := src ∪ dst.

Definition dquote : string := String (Ascii.ascii_of_nat 34) EmptyString.

(** ** Errors *)

(** [GoError] stands for any error that is not a [*retryableError] (made by
    [fmt.Errorf] or handed back by a library); [RetryableError] is the
    struct [retryableError {err, retryable}]. *)
Inductive error : Type :=
| GoError (msg : string)
| RetryableError (err : error) (retryable : bool).

(** The method [Error()]: a [retryableError] answers with the message of
    the error it wraps. *)
Fixpoint Error (e : error) : string :=
  match e with
  | GoError msg => msg
  | RetryableError err _ => Error err
  end.

(** [errors.As(err, &retryErr)] with [retryErr : *retryableError]: the type
    has no [Unwrap] method, so only [err] itself is inspected. *)
Definition asRetryableError (e : error) : option (error * bool) :=
  match e with
  | RetryableError err retryable => Some (err, retryable)
  | GoError _ => None
  end.

(** ** Data model *)

Record ApiConfig := mkApiConfig {
  Endpoint : string;
  Dataset : string
}.

Inductive apiAction := upsert | delete.

Inductive SynchronizationStatus := Successful | PartiallySuccessful | Failed.

(** A cluster object, as far as the engine reads it. *)
Record ClientObject := mkClientObject {
  GetNamespace : string;
  GetName : string
}.

(** One entry of the monitoring resource's status: the outcome of the last
    synchronization of one third-party resource. *)
Record SynchronizationResult := mkSynchronizationResult {
  SynchronizationStatusOf : SynchronizationStatus;
  ItemsTotal : Z;
  SynchronizedItems : slice string;
  SynchronizationErrors : gmap string string;
  ValidationIssues : gmap string (list string)
}.

Record Dash0Monitoring := mkDash0Monitoring {
  MonitoringNamespace : string;
  MonitoringName : string;
  ResourceVersion : Z;
  SynchronizationResults : gmap string SynchronizationResult
}.

Record HttpRequest := mkHttpRequest {
  Method : string;
  URL : string
}.

Record HttpRequestWithItemName := mkHttpRequestWithItemName {
  ItemName : string;
  Request : HttpRequest
}.

(** The body of a response is read once; reading may fail. *)
Inductive ResponseBody :=
| BodyText (text : string)
| BodyUnreadable.

Record HttpResponse := mkHttpResponse {
  StatusCode : Z;
  Body : ResponseBody
}.

Record preconditionValidationResult := mkPreconditionValidationResult {
  synchronizeResource : bool;
  thirdPartyResource : option ClientObject;
  monitoringResource : option Dash0Monitoring;
  authToken : string;
  apiEndpoint : string;
  dataset : string;
  k8sNamespace : string;
  k8sName : string
}.

(** The value [&preconditionValidationResult{synchronizeResource: false}]. *)
Definition doNotSynchronize : preconditionValidationResult :=
  {| synchronizeResource := false;
     thirdPartyResource := None;
     monitoringResource := None;
     authToken := EmptyString;
     apiEndpoint := EmptyString;
     dataset := EmptyString;
     k8sNamespace := EmptyString;
     k8sName := EmptyString |}.

Record Backoff := mkBackoff {
  Steps : nat;
  Duration : Z;
  Factor : Q
}.

(** The interface [ThirdPartyResourceReconciler], restricted to the methods
    the synchronization engine calls.  [GetApiConfig], [K8sClient] and
    [HttpClient] give access to shared or remote state and are part of
    [Env] below. *)
Record ThirdPartyResourceReconciler := mkThirdPartyResourceReconciler {
  KindDisplayName : string;
  ShortName : string;
  GetAuthToken : string;
  GetHttpRetryDelay : Z;
  IsSynchronizationEnabled : Dash0Monitoring -> bool;
  MapResourceToHttpRequests :
    preconditionValidationResult -> apiAction ->
    Z * list HttpRequestWithItemName * gmap string (list string) * gmap string string;
  UpdateSynchronizationResultsInStatus :
    Dash0Monitoring -> string -> SynchronizationStatus -> Z -> slice string ->
    gmap string string -> gmap string (list string) -> Dash0Monitoring
}.

(** ** Effects *)

Inductive LogLevel := LevelInfo | LevelError.

Inductive LogMessage :=
| MsgLookupOfMonitoringResourceFailed (err : error)
| MsgNoMonitoringResource
| MsgSynchronizationDisabled
| MsgNoApiEndpoint
| MsgNoAuthToken
| MsgNothingToSynchronize
| MsgSynchronizationSummary (itemsTotal : Z) (synchronized : Z)
    (issues : gmap string (list string)) (errors : gmap string string)
| MsgExecutingRequest (actionLabel : string) (itemName : string) (url : string)
| MsgUnableToExecuteRequest (err : error)
| MsgUnexpectedStatusCode (err : error)
| MsgUnexpectedStatusCodeMightBeRetried (err : error)
| MsgFetchOfMonitoringResourceFailed (err : error)
| MsgStatusUpdateFailed (err : error)
| MsgStatusUpdated
| MsgStatusUpdateFinallyFailed (err : error).

(** The four checks of [validatePreconditions]: the lookup of the
    monitoring resource, [IsSynchronizationEnabled], the load of the API
    configuration, [GetAuthToken]. *)
Inductive PreconditionCheck :=
| CheckMonitoringResource
| CheckSynchronizationEnabled
| CheckApiConfig
| CheckAuthToken.

(** What a computation does that can be observed from outside: a log
    entry, the start of a precondition check, an HTTP request handed to the
    client, a sleep, the fetch of the monitoring resource, the call of the
    per-kind status merge with its arguments, the write of the status. *)
Inductive Event :=
| EvLog (level : LogLevel) (msg : LogMessage)
| EvCheck (check : PreconditionCheck)
| EvHttpDo (req : HttpRequestWithItemName)
| EvSleep (d : Z)
| EvGet (namespace name : string)
| EvMergeResult (qualifiedName : string) (status : SynchronizationStatus)
    (itemsTotal : Z) (synchronized : slice string)
    (errors : gmap string string) (issues : gmap string (list string))
| EvStatusUpdate (resource : Dash0Monitoring).

(** What the world answers.  The [nat] is the number of calls made so far
    to the HTTP client and to the Kubernetes client of the status reporter,
    so that an environment may answer every such call differently.  The
    API configuration and the lookup of the monitoring resource are read
    once per attempt. *)
Record Env := mkEnv {
  loadApiConfig : option ApiConfig;
  findUniqueOrMostRecentResourceInScope : string -> option Dash0Monitoring * option error;
  httpDo : nat -> HttpRequest -> error + HttpResponse;
  k8sGet : nat -> string -> string -> Dash0Monitoring + error;
  k8sStatusUpdate : nat -> Dash0Monitoring -> option error
}.

(** A computation reads the call counter and returns its value, the new
    counter and the events it produced, oldest first. *)
Definition M (A : Type) : Type := nat -> A * nat * list Event.

#[global] Instance M_ret : MRet M := λ A a n, (a, n, []).
#[global] Instance M_bind : MBind M := λ A B k m n,
  let '(a, n1, t1) := m n in
  let '(b, n2, t2) := k a n1 in
  (b, n2, t1 ++ t2).

Definition emit (e : Event) : M unit := λ n, (tt, n, [e]).
Definition remote {A} (answer : nat -> A) (e : Event) : M A := λ n, (answer n, S n, [e]).

Definition valueOf {A} (r : A * nat * list Event) : A := r.1.1.
Definition counterOf {A} (r : A * nat * list Event) : nat := r.1.2.
Definition eventsOf {A} (r : A * nat * list Event) : list Event := r.2.

Definition logInfo (msg : LogMessage) : M unit := emit (EvLog LevelInfo msg).
Definition logError (msg : LogMessage) : M unit := emit (EvLog LevelError msg).
Definition timeSleep (d : Z) : M unit := emit (EvSleep d).

Definition isHttpDo (e : Event) : bool :=
  match e with EvHttpDo _ => true | _ => false end.
Definition isStatusUpdate (e : Event) : bool :=
  match e with EvStatusUpdate _ => true | _ => false end.
Definition isGet (e : Event) : bool :=
  match e with EvGet _ _ => true | _ => false end.
Definition isSleep (e : Event) : bool :=
  match e with EvSleep _ => true | _ => false end.
Definition isMergeResult (e : Event) : bool :=
  match e with EvMergeResult _ _ _ _ _ _ => true | _ => false end.

(** The precondition checks made during a computation, oldest first. *)
Definition checksOf (t : list Event) : list PreconditionCheck :=
  omap (λ e, match e with EvCheck c => Some c | _ => None end) t.

(** The log entries written during a computation, oldest first. *)
Definition logOf (t : list Event) : list (LogLevel * LogMessage) :=
  omap (λ e, match e with EvLog level msg => Some (level, msg) | _ => None end) t.

Definition countEvents (p : Event -> bool) (t : list Event) : nat :=
  length (filter (λ e, p e = true) t).

(** ** [retry.OnError] *)

(** [wait.Backoff.Step]: the next duration is the current one times
    [Factor], cut to whole nanoseconds.  [Factor] is a [float64] in Go and
    an exact ratio here.  Go computes [time.Duration(float64(d) * Factor)]
    on [int64]; the exact ratio is what that gives wherever the product is
    exact in [float64], which holds for factor 1.5 and [0 <= d <= 2 ^ 51]
    and for one second times 1.3.  For larger durations the two can differ;
    a statement about the value of a duration is made within that range
    only. *)
Definition nextDuration (d : Z) (factor : Q) : Z :=
  Z.quot (d * Qnum factor) (Zpos (Qden factor)).

(** Modelled from the spec: [retry.OnError] and [wait.Backoff] belong to the
    Kubernetes client library and are not among the sources.  The function
    is tried up to [Steps] times; a nil result and an error that
    [retriable] rejects end the loop at once; between two tries the loop
    sleeps for the current [Duration], which then grows by [Factor]; when
    the steps are used up the last error is returned. *)
Fixpoint onErrorLoop (steps : nat) (d : Z) (factor : Q) (retriable : error -> bool)
    (fn : M (option error)) (lastErr : option error) : M (option error) :=
  match steps with
  | O => mret lastErr
  | S remaining =>
      err ← fn;
      match err with
      | None => mret None
      | Some e =>
          if retriable e then
            match remaining with
            | O => mret (Some e)
            | S _ =>
                _ ← timeSleep d;
                onErrorLoop remaining (nextDuration d factor) factor retriable fn (Some e)
            end
          else mret (Some e)
      end
  end.

Definition OnError (backoff : Backoff) (retriable : error -> bool)
    (fn : M (option error)) : M (option error) :=
  onErrorLoop (Steps backoff) (Duration backoff) (Factor backoff) retriable fn None.

(** The first [k] sleeps of a retry loop that starts with duration [d]. *)
Fixpoint backoffDurations (k : nat) (d : Z) (factor : Q) : list Z :=
  match k with
  | O => []
  | S k => d :: backoffDurations k (nextDuration d factor) factor
  end.

(** The call counter at which try number [i] of a retry loop starts when
    the first try starts at [n]. *)
Definition tryCounter (fn : M (option error)) (n i : nat) : nat :=
  Nat.iter i (λ c, counterOf (fn c)) n.

(** ** The synchronization engine *)

Definition isValidApiConfig (apiConfig : option ApiConfig) : bool :=
  match apiConfig with
  | None => false
  | Some c => negb (String.eqb (Endpoint c) EmptyString)
  end.

(** The guard [if !isValidApiConfig(apiConfig) { return ... }] followed by
    reads through the pointer: past the guard the pointer is not nil. *)
Definition validApiConfig (apiConfig : option ApiConfig) : option ApiConfig :=
  if isValidApiConfig apiConfig then apiConfig else None.

Definition http_StatusOK : Z := 200.
Definition http_StatusMultipleChoices : Z := 300.
Definition http_StatusBadRequest : Z := 400.
Definition http_StatusInternalServerError : Z := 500.

Definition second : Z := 1000000000.

Section Engine.

Variable DatasetDefault : string.
Variable env : Env.
Variable resourceReconciler : ThirdPartyResourceReconciler.

Definition HttpClient_Do (req : HttpRequestWithItemName) : M (error + HttpResponse) :=
  remote (λ n, httpDo env n (Request req)) (EvHttpDo req).

Definition K8sClient_Get (namespace name : string) : M (Dash0Monitoring + error) :=
  remote (λ n, k8sGet env n namespace name) (EvGet namespace name).

Definition K8sClient_Status_Update (resource : Dash0Monitoring) : M (option error) :=
  remote (λ n, k8sStatusUpdate env n resource) (EvStatusUpdate resource).

Definition validatePreconditions (thirdPartyResource : ClientObject)
    : M preconditionValidationResult :=
  let namespace := GetNamespace thirdPartyResource in
  let name := GetName thirdPartyResource in
  _ ← emit (EvCheck CheckMonitoringResource);
  let '(monitoringRes, err) :=
    findUniqueOrMostRecentResourceInScope env (GetNamespace thirdPartyResource) in
  match err with
  | Some e =>
      _ ← logError (MsgLookupOfMonitoringResourceFailed e);
      mret doNotSynchronize
  | None =>
      match monitoringRes with
      | None =>
          _ ← logInfo MsgNoMonitoringResource;
          mret doNotSynchronize
      | Some monitoringResource =>
          _ ← emit (EvCheck CheckSynchronizationEnabled);
          if negb (IsSynchronizationEnabled resourceReconciler monitoringResource) then
            _ ← logInfo MsgSynchronizationDisabled;
            mret doNotSynchronize
          else
            _ ← emit (EvCheck CheckApiConfig);
            match validApiConfig (loadApiConfig env) with
            | None =>
                _ ← logInfo MsgNoApiEndpoint;
                mret doNotSynchronize
            | Some apiConfig =>
                _ ← emit (EvCheck CheckAuthToken);
                let authToken := GetAuthToken resourceReconciler in
                if String.eqb authToken EmptyString then
                  _ ← logInfo MsgNoAuthToken;
                  mret doNotSynchronize
                else
                  let dataset :=
                    if String.eqb (Dataset apiConfig) EmptyString
                    then DatasetDefault
                    else Dataset apiConfig in
                  mret {| synchronizeResource := true;
                          thirdPartyResource := Some thirdPartyResource;
                          monitoringResource := Some monitoringResource;
                          authToken := authToken;
                          apiEndpoint := Endpoint apiConfig;
                          dataset := dataset;
                          k8sNamespace := namespace;
                          k8sName := name |}
            end
      end
  end.

Definition convertNon2xxStatusCodeToError (req : HttpRequestWithItemName)
    (res : HttpResponse) : error :=
  match Body res with
  | BodyUnreadable =>
      GoError ("unable to read the API response payload after receiving status code "
               +:+ pretty (StatusCode res)
               +:+ " when trying to udpate/create/delete the "
               +:+ ShortName resourceReconciler +:+ " " +:+ dquote
               +:+ ItemName req +:+ dquote +:+ " at " +:+ URL (Request req))
  | BodyText responseBody =>
      GoError ("unexpected status code " +:+ pretty (StatusCode res)
               +:+ " when updating/creating/deleting the "
               +:+ ShortName resourceReconciler +:+ " " +:+ dquote
               +:+ ItemName req +:+ dquote +:+ " at " +:+ URL (Request req)
               +:+ ", response body is " +:+ responseBody)
  end.

Definition executeSingleHttpRequest (req : HttpRequestWithItemName) : M (option error) :=
  res ← HttpClient_Do req;
  match res with
  | inl err =>
      _ ← logError (MsgUnableToExecuteRequest err);
      mret (Some (RetryableError err true))
  | inr res =>
      if (StatusCode res <? http_StatusOK)%Z
         || (http_StatusMultipleChoices <=? StatusCode res)%Z then
        let statusCodeError := convertNon2xxStatusCodeToError req res in
        if (http_StatusBadRequest <=? StatusCode res)%Z
           && (StatusCode res <? http_StatusInternalServerError)%Z then
          _ ← logError (MsgUnexpectedStatusCode statusCodeError);
          mret (Some (RetryableError statusCodeError false))
        else
          _ ← logError (MsgUnexpectedStatusCodeMightBeRetried statusCodeError);
          mret (Some (RetryableError statusCodeError true))
      else mret None
  end.

Definition isRetryable (err : error) : bool :=
  match asRetryableError err with
  | Some (_, retryable) => retryable
  | None => false
  end.

Definition httpBackoff : Backoff :=
  {| Steps := 3; Duration := GetHttpRetryDelay resourceReconciler; Factor := 3 # 2 |}.

Definition executeSingleHttpRequestWithRetry (req : HttpRequestWithItemName)
    (actionLabel : string) : M (option error) :=
  _ ← logInfo (MsgExecutingRequest actionLabel (ItemName req) (URL (Request req)));
  OnError httpBackoff isRetryable (executeSingleHttpRequest req).

(** The loop of [executeAllHttpRequests], with the two accumulators it
    updates. *)
Fixpoint executeRequestsFrom (allRequests : list HttpRequestWithItemName)
    (actionLabel : string) (successfullySynchronized : slice string)
    (httpErrors : gmap string string) : M (slice string * gmap string string) :=
  match allRequests with
  | [] => mret (successfullySynchronized, httpErrors)
  | req :: rest =>
      err ← executeSingleHttpRequestWithRetry req actionLabel;
      match err with
      | Some e =>
          executeRequestsFrom rest actionLabel successfullySynchronized
            (<[ItemName req := Error e]> httpErrors)
      | None =>
          executeRequestsFrom rest actionLabel
            (append successfullySynchronized (ItemName req)) httpErrors
      end
  end.

Definition executeAllHttpRequests (allRequests : list HttpRequestWithItemName)
    (actionLabel : string) : M (slice string * gmap string string) :=
  '(successfullySynchronized, httpErrors) ←
    executeRequestsFrom allRequests actionLabel (mkSlice []) ∅;
  let successfullySynchronized :=
    if (len successfullySynchronized =? 0)%Z then nilSlice
    else successfullySynchronized in
  mret (successfullySynchronized, httpErrors).

Definition statusBackoff : Backoff :=
  {| Steps := 3; Duration := 1 * second; Factor := 13 # 10 |}.

(** One try of the status update.  Every try starts by overwriting the
    local copy of the monitoring resource with the one read from the
    cluster, so a try does not depend on what an earlier try left in that
    copy; the key of the read is the namespace and name of the resource. *)
Definition writeSynchronizationResultOnce (monitoringResource : Dash0Monitoring)
    (qualifiedName : string) (result : SynchronizationStatus) (itemsTotal : Z)
    (succesfullySynchronized : slice string)
    (validationIssuesPerItem : gmap string (list string))
    (synchronizationErrorsPerItem : gmap string string) : M (option error) :=
  fetched ← K8sClient_Get (MonitoringNamespace monitoringResource)
                          (MonitoringName monitoringResource);
  match fetched with
  | inr err =>
      _ ← logError (MsgFetchOfMonitoringResourceFailed err);
      mret (Some err)
  | inl monitoringResource =>
      _ ← emit (EvMergeResult qualifiedName result itemsTotal succesfullySynchronized
                  synchronizationErrorsPerItem validationIssuesPerItem);
      let monitoringResource :=
        UpdateSynchronizationResultsInStatus resourceReconciler monitoringResource
          qualifiedName result itemsTotal succesfullySynchronized
          synchronizationErrorsPerItem validationIssuesPerItem in
      err ← K8sClient_Status_Update monitoringResource;
      match err with
      | Some err =>
          _ ← logError (MsgStatusUpdateFailed err);
          mret (Some err)
      | None =>
          _ ← logInfo MsgStatusUpdated;
          mret None
      end
  end.

Definition writeSynchronizationResult (monitoringResource : Dash0Monitoring)
    (thirdPartyResource : ClientObject) (itemsTotal : Z)
    (succesfullySynchronized : slice string)
    (validationIssuesPerItem : gmap string (list string))
    (synchronizationErrorsPerItem : gmap string string) : M unit :=
  let qualifiedName :=
    GetNamespace thirdPartyResource +:+ "/" +:+ GetName thirdPartyResource in
  let result :=
    if (0 <? len succesfullySynchronized)%Z
       && (lenMap validationIssuesPerItem =? 0)%Z
       && (lenMap synchronizationErrorsPerItem =? 0)%Z
    then Successful
    else if (0 <? len succesfullySynchronized)%Z then PartiallySuccessful
    else Failed in
  errAfterRetry ←
    OnError statusBackoff (λ _, true)
      (writeSynchronizationResultOnce monitoringResource qualifiedName result itemsTotal
         succesfullySynchronized validationIssuesPerItem synchronizationErrorsPerItem);
  match errAfterRetry with
  | Some err => logError (MsgStatusUpdateFinallyFailed err)
  | None => mret tt
  end.

(** A nil [synchronizationErrors] is replaced by an empty map before
    [maps.Copy]; both are [∅] here.
    [preconditionChecksResult.monitoringResource] is a pointer that
    [writeSynchronizationResult] reads through.  It is not nil when
    [synchronizeResource] is set ([validatePreconditions_sets_resource]
    below), so the last branch is never taken. *)
Definition synchronizeViaApi (thirdPartyResource : ClientObject) (action : apiAction)
    (actionLabel : string) : M unit :=
  preconditionChecksResult ← validatePreconditions thirdPartyResource;
  if negb (synchronizeResource preconditionChecksResult) then mret tt
  else
    let '(itemsTotal, httpRequests, validationIssues, synchronizationErrors) :=
      MapResourceToHttpRequests resourceReconciler preconditionChecksResult action in
    _ ← (if (Z.of_nat (length httpRequests) =? 0)%Z
            && (lenMap validationIssues =? 0)%Z
            && (lenMap synchronizationErrors =? 0)%Z
         then logInfo MsgNothingToSynchronize
         else mret tt);
    '(successfullySynchronized, httpErrors) ←
      (if (0 <? Z.of_nat (length httpRequests))%Z
       then executeAllHttpRequests httpRequests actionLabel
       else mret (nilSlice, ∅));
    let synchronizationErrors :=
      if (0 <? lenMap httpErrors)%Z
      then mapsCopy synchronizationErrors httpErrors
      else synchronizationErrors in
    _ ← logInfo (MsgSynchronizationSummary itemsTotal (len successfullySynchronized)
                   validationIssues synchronizationErrors);
    match monitoringResource preconditionChecksResult with
    | Some monitoringResource =>
        writeSynchronizationResult monitoringResource thirdPartyResource itemsTotal
          successfullySynchronized validationIssues synchronizationErrors
    | None => mret tt
    end.

Definition upsertViaApi (thirdPartyResource : ClientObject) : M unit :=
  synchronizeViaApi thirdPartyResource upsert "Creating/updating".

Definition deleteViaApi (thirdPartyResource : ClientObject) : M unit :=
  synchronizeViaApi thirdPartyResource delete "Deleting".

End Engine.

(** The item name and the result of every request of a list, when the
    requests are executed in order by [exec] and the first one starts at
    call counter [n]. *)
Fixpoint outcomesOf (exec : HttpRequestWithItemName -> M (option error))
    (requests : list HttpRequestWithItemName) (n : nat) : list (string * option error) :=
  match requests with
  | [] => []
  | req :: rest =>
      (ItemName req, valueOf (exec req n)) :: outcomesOf exec rest (counterOf (exec req n))
  end.

(** ** The lifecycle of the sub-controller *)

(** A sub-controller built by [controller.NewTypedUnmanaged] is [Created];
    it is [Running] while its goroutine is inside [resourceController.Start];
    when [Start] has returned it is [Exited] until the goroutine has cleared
    the stop function, and [Finished] afterwards. *)
Inductive ControllerState :=
| Created
| Running
| Exited (err : option error)
| Finished.

Record Controller := mkController {
  controllerState : ControllerState;
  cancelled : bool
}.

Inductive LifecycleMessage :=
| MsgCrdDoesNotExist
| MsgCrdPresentButNoApiEndpoint
| MsgWillWatch
| MsgSettingUpWatch
| MsgCannotCreateController (err : error)
| MsgCreatedController
| MsgUnableToCreateWatch (err : error)
| MsgCreatedWatch
| MsgUnableToStartController (err : error)
| MsgControllerStopped
| MsgIgnoringStop
| MsgRemovingInformer
| MsgUnableToRemoveInformer (err : error)
| MsgStoppingController.

(** The state shared by all callers for one kind: the mutex
    [ControllerStopFunctionLock] (held by at most one caller), the stop
    function registered with [SetControllerStopFunction] (named by the
    sub-controller whose context it cancels), every sub-controller built so
    far, the number of [RemoveInformer] calls made, and the log. *)
Record Lifecycle := mkLifecycle {
  lock : option nat;
  controllerStopFunction : option nat;
  controllers : list Controller;
  informersRemoved : nat;
  lifecycleLog : list (LogLevel * LifecycleMessage)
}.

Definition initialLifecycle : Lifecycle :=
  {| lock := None; controllerStopFunction := None; controllers := [];
     informersRemoved := 0; lifecycleLog := [] |}.

Definition setLock (holder : option nat) (s : Lifecycle) : Lifecycle :=
  {| lock := holder; controllerStopFunction := controllerStopFunction s;
     controllers := controllers s; informersRemoved := informersRemoved s;
     lifecycleLog := lifecycleLog s |}.

Definition SetControllerStopFunction (f : option nat) (s : Lifecycle) : Lifecycle :=
  {| lock := lock s; controllerStopFunction := f;
     controllers := controllers s; informersRemoved := informersRemoved s;
     lifecycleLog := lifecycleLog s |}.

Definition setControllers (cs : list Controller) (s : Lifecycle) : Lifecycle :=
  {| lock := lock s; controllerStopFunction := controllerStopFunction s;
     controllers := cs; informersRemoved := informersRemoved s;
     lifecycleLog := lifecycleLog s |}.

Definition RemoveInformer (s : Lifecycle) : Lifecycle :=
  {| lock := lock s; controllerStopFunction := controllerStopFunction s;
     controllers := controllers s; informersRemoved := S (informersRemoved s);
     lifecycleLog := lifecycleLog s |}.

Definition logLifecycle (level : LogLevel) (msg : LifecycleMessage) (s : Lifecycle)
    : Lifecycle :=
  {| lock := lock s; controllerStopFunction := controllerStopFunction s;
     controllers := controllers s; informersRemoved := informersRemoved s;
     lifecycleLog := lifecycleLog s ++ [(level, msg)] |}.

Definition setControllerState (c : nat) (st : ControllerState) (s : Lifecycle) : Lifecycle :=
  match controllers s !! c with
  | Some ctl => setControllers (<[c := mkController st (cancelled ctl)]> (controllers s)) s
  | None => s
  end.

Definition cancel (c : nat) (s : Lifecycle) : Lifecycle :=
  match controllers s !! c with
  | Some ctl => setControllers (<[c := mkController (controllerState ctl) true]> (controllers s)) s
  | None => s
  end.

(** Modelled from the spec: [IsWatching] is a method of the per-kind
    reconciler whose body is not among the sources.  The engine never sets a
    flag of its own; what it records is the stop function, which the spec
    requires to be non-nil exactly while a sub-controller is active. *)
Definition IsWatching (s : Lifecycle) : bool :=
  match controllerStopFunction s with
  | Some _ => true
  | None => false
  end.

(** What the surroundings answer during one call of
    [maybeStartWatchingThirdPartyResources]. *)
Record StartEnv := mkStartEnv {
  DoesCrdExist : bool;
  GetApiConfig : option ApiConfig;
  newTypedUnmanagedError : option error;
  watchError : option error
}.

(** The body of [maybeStartWatchingThirdPartyResources] between [Lock] and
    the deferred [Unlock].  The statement [go func() {...}()] puts the new
    sub-controller in state [Running]. *)
Definition maybeStartLocked (e : StartEnv) (isStartup : bool) (s : Lifecycle) : Lifecycle :=
  if IsWatching s then s
  else if negb (DoesCrdExist e) then logLifecycle LevelInfo MsgCrdDoesNotExist s
  else if negb (isValidApiConfig (GetApiConfig e)) then
    (if negb isStartup then logLifecycle LevelInfo MsgCrdPresentButNoApiEndpoint s else s)
  else
    let s := logLifecycle LevelInfo MsgWillWatch s in
    let s := logLifecycle LevelInfo MsgSettingUpWatch s in
    match newTypedUnmanagedError e with
    | Some err => logLifecycle LevelError (MsgCannotCreateController err) s
    | None =>
        let resourceController := length (controllers s) in
        let s := setControllers (controllers s ++ [mkController Created false]) s in
        let s := logLifecycle LevelInfo MsgCreatedController s in
        match watchError e with
        | Some err => logLifecycle LevelError (MsgUnableToCreateWatch err) s
        | None =>
            let s := logLifecycle LevelInfo MsgCreatedWatch s in
            let s := SetControllerStopFunction (Some resourceController) s in
            setControllerState resourceController Running s
        end
    end.

(** A call made while nobody else holds the lock.  [None]: the lock is
    held and [Lock] does not return. *)
Definition maybeStartWatchingThirdPartyResources (e : StartEnv) (caller : nat)
    (isStartup : bool) (s : Lifecycle) : option Lifecycle :=
  match lock s with
  | Some _ => None
  | None =>
      let s := setLock (Some caller) s in
      let s := maybeStartLocked e isStartup s in
      Some (setLock None s)
  end.

Definition stopLocked (removeInformerError : option error) (s : Lifecycle) : Lifecycle :=
  match controllerStopFunction s with
  | None => logLifecycle LevelInfo MsgIgnoringStop s
  | Some cancelFunc =>
      let s := logLifecycle LevelInfo MsgRemovingInformer s in
      let s := RemoveInformer s in
      let s :=
        match removeInformerError with
        | Some err => logLifecycle LevelError (MsgUnableToRemoveInformer err) s
        | None => s
        end in
      let s := logLifecycle LevelInfo MsgStoppingController s in
      let s := cancel cancelFunc s in
      SetControllerStopFunction None s
  end.

Definition stopWatchingThirdPartyResources (removeInformerError : option error)
    (caller : nat) (s : Lifecycle) : option Lifecycle :=
  match lock s with
  | Some _ => None
  | None =>
      let s := setLock (Some caller) s in
      let s := stopLocked removeInformerError s in
      Some (setLock None s)
  end.

(** What a reader of the shared state can tell apart, the log aside. *)
Definition sameLifecycleState (s1 s2 : Lifecycle) : Prop :=
  lock s1 = lock s2
  ∧ controllerStopFunction s1 = controllerStopFunction s2
  ∧ controllers s1 = controllers s2
  ∧ informersRemoved s1 = informersRemoved s2.

(** *** Concurrent callers *)

(** The statements of [maybeStartWatchingThirdPartyResources] at which a
    caller can be; [AtWatch], [AtSetStopFunction] and [AtGo] carry the
    local variable [resourceController]. *)
Inductive ProgramCounter :=
| AtLock
| AtIsWatching
| AtDoesCrdExist
| AtLoadApiConfig
| AtNewTypedUnmanaged
| AtWatch (resourceController : nat)
| AtSetStopFunction (resourceController : nat)
| AtGo (resourceController : nat)
| AtUnlock
| Returned.

Record Caller := mkCaller {
  callerIsStartup : bool;
  callerAt : ProgramCounter
}.

Record System := mkSystem {
  lifecycle : Lifecycle;
  callers : list Caller
}.

Definition initialSystem : System := {| lifecycle := initialLifecycle; callers := [] |}.

(** One statement of one caller.  [None]: the caller cannot move ([Lock]
    while the mutex is held, or the call has returned). *)
Definition advance (e : StartEnv) (caller : nat) (isStartup : bool) (pc : ProgramCounter)
    (s : Lifecycle) : option (ProgramCounter * Lifecycle) :=
  match pc with
  | AtLock =>
      match lock s with
      | None => Some (AtIsWatching, setLock (Some caller) s)
      | Some _ => None
      end
  | AtIsWatching =>
      if IsWatching s then Some (AtUnlock, s) else Some (AtDoesCrdExist, s)
  | AtDoesCrdExist =>
      if negb (DoesCrdExist e)
      then Some (AtUnlock, logLifecycle LevelInfo MsgCrdDoesNotExist s)
      else Some (AtLoadApiConfig, s)
  | AtLoadApiConfig =>
      if negb (isValidApiConfig (GetApiConfig e)) then
        Some (AtUnlock,
              if negb isStartup
              then logLifecycle LevelInfo MsgCrdPresentButNoApiEndpoint s
              else s)
      else
        Some (AtNewTypedUnmanaged,
              logLifecycle LevelInfo MsgSettingUpWatch (logLifecycle LevelInfo MsgWillWatch s))
  | AtNewTypedUnmanaged =>
      match newTypedUnmanagedError e with
      | Some err => Some (AtUnlock, logLifecycle LevelError (MsgCannotCreateController err) s)
      | None =>
          Some (AtWatch (length (controllers s)),
                logLifecycle LevelInfo MsgCreatedController
                  (setControllers (controllers s ++ [mkController Created false]) s))
      end
  | AtWatch resourceController =>
      match watchError e with
      | Some err => Some (AtUnlock, logLifecycle LevelError (MsgUnableToCreateWatch err) s)
      | None =>
          Some (AtSetStopFunction resourceController, logLifecycle LevelInfo MsgCreatedWatch s)
      end
  | AtSetStopFunction resourceController =>
      Some (AtGo resourceController, SetControllerStopFunction (Some resourceController) s)
  | AtGo resourceController =>
      Some (AtUnlock, setControllerState resourceController Running s)
  | AtUnlock => Some (Returned, setLock None s)
  | Returned => None
  end.

(** What can happen next: an event triggers a further call of
    [maybeStartWatchingThirdPartyResources]; a caller executes its next
    statement; [Start] returns in the goroutine of a running sub-controller;
    that goroutine clears the stop function and returns.  Reads and writes
    of the shared state take effect one at a time, in the order of the
    actions.  Calls of [stopWatchingThirdPartyResources] are not part of
    this system. *)
Inductive Action :=
| Call (isStartup : bool)
| Advance (caller : nat) (e : StartEnv)
| StartReturns (c : nat) (err : option error)
| GoroutineClears (c : nat).

Definition step (a : Action) (sys : System) : option System :=
  match a with
  | Call isStartup =>
      Some {| lifecycle := lifecycle sys;
              callers := callers sys ++ [mkCaller isStartup AtLock] |}
  | Advance caller e =>
      th ← callers sys !! caller;
      '(pc, s) ← advance e caller (callerIsStartup th) (callerAt th) (lifecycle sys);
      Some {| lifecycle := s;
              callers := <[caller := mkCaller (callerIsStartup th) pc]> (callers sys) |}
  | StartReturns c err =>
      ctl ← controllers (lifecycle sys) !! c;
      match controllerState ctl with
      | Running =>
          Some {| lifecycle := setControllerState c (Exited err) (lifecycle sys);
                  callers := callers sys |}
      | _ => None
      end
  | GoroutineClears c =>
      ctl ← controllers (lifecycle sys) !! c;
      match controllerState ctl with
      | Exited err =>
          let s := SetControllerStopFunction None (lifecycle sys) in
          let s :=
            match err with
            | Some err => logLifecycle LevelError (MsgUnableToStartController err) s
            | None => logLifecycle LevelInfo MsgControllerStopped s
            end in
          Some {| lifecycle := setControllerState c Finished s; callers := callers sys |}
      | _ => None
      end
  end.

Fixpoint run (actions : list Action) (sys : System) : option System :=
  match actions with
  | [] => Some sys
  | a :: rest =>
      match step a sys with
      | Some sys' => run rest sys'
      | None => None
      end
  end.

Definition isRunning (ctl : Controller) : bool :=
  match controllerState ctl with
  | Running => true
  | _ => false
  end.

Definition activeControllers (s : Lifecycle) : nat :=
  length (filter (λ ctl, isRunning ctl = true) (controllers s)).

(** A caller run alone until it has returned. *)
Fixpoint runCaller (fuel : nat) (e : StartEnv) (caller : nat) (isStartup : bool)
    (pc : ProgramCounter) (s : Lifecycle) : option Lifecycle :=
  match pc with
  | Returned => Some s
  | _ =>
      match fuel with
      | O => None
      | S fuel =>
          match advance e caller isStartup pc s with
          | Some (pc', s') => runCaller fuel e caller isStartup pc' s'
          | None => None
          end
      end
  end.

(** *** The invariant of the lifecycle *)

(** A sub-controller whose goroutine has been started and has not yet
    cleared the stop function. *)
Definition isLive (ctl : Controller) : Prop :=
  match controllerState ctl with
  | Running | Exited _ => True
  | Created | Finished => False
  end.

Definition inCriticalSection (pc : ProgramCounter) : Prop :=
  match pc with
  | AtLock | Returned => False
  | _ => True
  end.

Definition isCreated (c : nat) (s : Lifecycle) : Prop :=
  ∃ ctl, controllers s !! c = Some ctl ∧ controllerState ctl = Created.

(** What a caller knows at each statement: past the [IsWatching] guard no
    stop function is registered; the sub-controller it has built is not
    started before [go]; at [go] the registered stop function is the one of
    that sub-controller. *)
Definition callerInvariant (pc : ProgramCounter) (s : Lifecycle) : Prop :=
  match pc with
  | AtDoesCrdExist | AtLoadApiConfig | AtNewTypedUnmanaged =>
      controllerStopFunction s = None
  | AtWatch c | AtSetStopFunction c =>
      controllerStopFunction s = None ∧ isCreated c s
  | AtGo c =>
      controllerStopFunction s = Some c ∧ isCreated c s
  | AtLock | AtIsWatching | AtUnlock | Returned => True
  end.

Record LifecycleInvariant (sys : System) : Prop := mkLifecycleInvariant {
  live_is_registered :
    ∀ c ctl, controllers (lifecycle sys) !! c = Some ctl -> isLive ctl ->
             controllerStopFunction (lifecycle sys) = Some c;
  critical_section_is_locked :
    ∀ t th, callers sys !! t = Some th -> inCriticalSection (callerAt th) ->
            lock (lifecycle sys) = Some t;
  callers_invariant :
    ∀ t th, callers sys !! t = Some th -> callerInvariant (callerAt th) (lifecycle sys)
}.

(** ** Inputs used by the examples *)

Definition exampleMonitoring : Dash0Monitoring := mkDash0Monitoring "ns" "dash0" 1 ∅.

Definition exampleResource : ClientObject := mkClientObject "ns" "res".

Definition exampleMerge (m : Dash0Monitoring) (qualifiedName : string)
    (status : SynchronizationStatus) (itemsTotal : Z) (synchronized : slice string)
    (errors : gmap string string) (issues : gmap string (list string)) : Dash0Monitoring :=
  mkDash0Monitoring (MonitoringNamespace m) (MonitoringName m) (ResourceVersion m)
    (<[qualifiedName := mkSynchronizationResult status itemsTotal synchronized errors issues]>
       (SynchronizationResults m)).

(** A reconciler whose mapping step returns the given requests, validation
    issues and synchronization errors. *)
Definition exampleReconciler (requests : list HttpRequestWithItemName)
    (issues : gmap string (list string)) (errors : gmap string string)
    : ThirdPartyResourceReconciler :=
  {| KindDisplayName := "Perses dashboard";
     ShortName := "dashboard";
     GetAuthToken := "token";
     GetHttpRetryDelay := second;
     IsSynchronizationEnabled := λ _, true;
     MapResourceToHttpRequests := λ _ _, (Z.of_nat (length requests), requests, issues, errors);
     UpdateSynchronizationResultsInStatus := exampleMerge |}.

(** An environment in which the [n]-th remote call, when it is an HTTP
    request, is answered with status [codes n], and the Kubernetes client
    fails on the calls selected by [k8sFails]. *)
Definition exampleEnv (datasetOfConfig : string) (codes : nat -> Z) (k8sFails : nat -> bool)
    : Env :=
  {| loadApiConfig := Some (mkApiConfig "https://api.example" datasetOfConfig);
     findUniqueOrMostRecentResourceInScope := λ _, (Some exampleMonitoring, None);
     httpDo := λ n _, inr (mkHttpResponse (codes n) (BodyText "body"));
     k8sGet := λ n _ _, if k8sFails n then inr (GoError "conflict") else inl exampleMonitoring;
     k8sStatusUpdate := λ n _, if k8sFails n then Some (GoError "conflict") else None |}.

Definition requestFor (itemName : string) : HttpRequestWithItemName :=
  mkHttpRequestWithItemName itemName (mkHttpRequest "PUT" ("https://api.example/" +:+ itemName)).

Definition exampleStartEnv : StartEnv :=
  {| DoesCrdExist := true;
     GetApiConfig := Some (mkApiConfig "https://api.example" EmptyString);
     newTypedUnmanagedError := None;
     watchError := None |}.

(** Two events trigger a call each; the first caller starts the
    sub-controller while the second waits for the lock and then finds the
    watch in place. *)
Definition exampleSchedule : list Action :=
  [ Call false; Call true;
    Advance 0 exampleStartEnv; Advance 0 exampleStartEnv; Advance 0 exampleStartEnv;
    Advance 0 exampleStartEnv; Advance 0 exampleStartEnv; Advance 0 exampleStartEnv;
    Advance 0 exampleStartEnv; Advance 0 exampleStartEnv; Advance 0 exampleStartEnv;
    Advance 1 exampleStartEnv; Advance 1 exampleStartEnv; Advance 1 exampleStartEnv ].

Definition exampleSystem : System :=
  {| lifecycle :=
       {| lock := None;
          controllerStopFunction := Some 0%nat;
          controllers := [mkController Running false];
          informersRemoved := 0;
          lifecycleLog :=
            [ (LevelInfo, MsgWillWatch); (LevelInfo, MsgSettingUpWatch);
              (LevelInfo, MsgCreatedController); (LevelInfo, MsgCreatedWatch) ] |};
     callers := [mkCaller false Returned; mkCaller true Returned] |}.

(** ** Path segments *)

(** Modelled from the spec: [strings.ReplaceAll] belongs to the Go standard
    library.  The source calls it with the one-byte strings ["/"] and
    ["|"]; for one-byte [old] and [new] it replaces every byte equal to
    [old] by [new]. *)
Fixpoint ReplaceAll (s : string) (old new : Ascii.ascii) : string :=
  match s with
  | EmptyString => EmptyString
  | String a rest => String (if Ascii.eqb a old then new else a) (ReplaceAll rest old new)
  end.

(** [url.PathEscape] belongs to the Go standard library and is a parameter
    here. *)
Definition urlEncodePathSegment (PathEscape : string -> string) (s : string) : string :=
  PathEscape (ReplaceAll s "/"%char "|"%char).

(** Two strings of the same length that differ at most where both have a
    forward slash or a vertical bar. *)
Fixpoint differOnlyInSlashes (s1 s2 : string) : bool :=
  match s1, s2 with
  | EmptyString, EmptyString => true
  | String a rest1, String b rest2 =>
      (Ascii.eqb a b
       || ((Ascii.eqb a "/"%char || Ascii.eqb a "|"%char)
           && (Ascii.eqb b "/"%char || Ascii.eqb b "|"%char)))
      && differOnlyInSlashes rest1 rest2
  | _, _ => false
  end.

(** A string contains the byte [c]. *)
Fixpoint containsByte (c : Ascii.ascii) (s : string) : bool :=
  match s with
  | EmptyString => false
  | String a rest => Ascii.eqb a c || containsByte c rest
  end.

(** ** The offset synchronizer *)

(** The second program of the file, [package main] of the file-log offset
    synchronizer.  In mode [synch] it stores the offset files of the
    collector in a config map, as a gzipped tar archive under the name of
    the node; in mode [init] it restores them from there. *)

(** [fmt.Errorf(msg + ": %w", err)]. *)
Definition Errorf (msg : string) (err : error) : error :=
  GoError (msg +:+ ": " +:+ Error err).

Definition newline : string := String (Ascii.ascii_of_nat 10) EmptyString.

Record Settings := mkSettings {
  NodeName : string;
  ConfigMapNamespace : string;
  ConfigMapName : string;
  FileLogOffsetDirectoryPath : string
}.

(** [tar.Header], with the fields that the program reads or writes and the
    modification time; [Typeflag] is a byte. *)
Record Header := mkHeader {
  Typeflag : Z;
  Name : string;
  Size : Z;
  Mode : Z;
  ModTime : Z
}.

Definition tar_TypeReg : Z := 48.
Definition tar_TypeDir : Z := 53.

(** [os.FileMode(mode)] for [mode : int64]: the conversion to [uint32]. *)
Definition FileMode (mode : Z) : Z := mode mod 2 ^ 32.

(** [filepath.ToSlash]: on Linux, where the program runs, the separator is
    the slash already. *)
Definition ToSlash (path : string) : string := path.

(** What the program does to its surroundings, and what it reports.
    [EvPatchConfigMap] is a [Patch] call that was issued, whether the API
    server accepts it or not; the other events of the file system are
    calls that succeeded. *)
Inductive OffsetEvent :=
| EvPatchConfigMap (namespace name patchBytes : string)
| EvMkdir (name : string) (perm : Z)
| EvOpenFile (name : string) (perm : Z)
| EvWriteFile (name : string) (content : string)
| EvPrintf (msg : string)
| EvSpanStart (name : string)
| EvSpanSetElapsed (milliseconds : Z)
| EvSpanRecordError (err : error)
| EvSpanEnd
| EvUpdateCountAdd (n : Z)
| EvOffsetFileSizeRecord (size : Z)
| EvUpdateDurationRecord (elapsed : Z).

(** One call of the function that [tarFolder] hands to [filepath.Walk],
    with what the surroundings answer during the call: the error that
    [Walk] passes in, [info.IsDir()], the result of [tar.FileInfoHeader],
    and the results of writing the header and of opening, copying and
    closing the file, whose bytes are [fileContent]. *)
Record WalkEntry := mkWalkEntry {
  walkPath : string;
  walkErr : option error;
  IsDir : bool;
  FileInfoHeader : Header + error;
  writeHeaderErr : option error;
  openErr : option error;
  fileContent : string;
  copyErr : option error;
  closeErr : option error
}.

Definition setName (name : string) (h : Header) : Header :=
  {| Typeflag := Typeflag h; Name := name; Size := Size h; Mode := Mode h;
     ModTime := ModTime h |}.

(** The archive behind a [tar.Writer]: the headers written, each with the
    bytes copied after it.  When [io.Copy] fails, what it had copied is not
    recorded; every caller drops the archive in that case. *)
Definition tarFile (writer : list (Header * string)) (e : WalkEntry)
    : (bool * option error) * list (Header * string) :=
  match FileInfoHeader e with
  | inr err =>
      ((false,
        Some (Errorf ("cannot create tar header for file '" +:+ walkPath e +:+ "'") err)),
       writer)
  | inl header =>
      let header := setName (ToSlash (walkPath e)) header in
      match writeHeaderErr e with
      | Some err => ((false, Some err), writer)
      | None =>
          if IsDir e then ((false, None), writer ++ [(header, EmptyString)])
          else
            match openErr e with
            | Some err => ((false, Some err), writer ++ [(header, EmptyString)])
            | None =>
                match copyErr e with
                | Some err => ((false, Some err), writer ++ [(header, EmptyString)])
                | None =>
                    match closeErr e with
                    | Some err => ((true, Some err), writer ++ [(header, fileContent e)])
                    | None => ((true, None), writer ++ [(header, fileContent e)])
                    end
                end
            end
      end
  end.

(** Modelled from the spec: [filepath.Walk] belongs to the Go standard
    library.  It calls the function for the entries of the tree in lexical
    order and stops at the first call that returns an error, which it
    returns.  [entries] are the calls that are due. *)
Fixpoint walkAndTar (entries : list WalkEntry) (writer : list (Header * string))
    (tarredFiles : Z) : (Z * option error) * list (Header * string) :=
  match entries with
  | [] => ((tarredFiles, None), writer)
  | e :: rest =>
      match walkErr e with
      | Some err => ((tarredFiles, Some err), writer)
      | None =>
          match tarFile writer e with
          | ((_, Some err), writer) =>
              ((tarredFiles,
                Some (Errorf ("cannot add entry '" +:+ walkPath e +:+ "' to archive") err)),
               writer)
          | ((hasAddedFileToArchive, None), writer) =>
              walkAndTar rest writer
                (if hasAddedFileToArchive then tarredFiles + 1 else tarredFiles)
          end
      end
  end.

(** What the surroundings answer during one call of [doSynchOffsets]: the
    calls that [filepath.Walk] makes for a directory, the results of closing
    the tar and the gzip writer, the bytes that the two writers leave in the
    buffer for an archive, [base64.StdEncoding.EncodeToString],
    [json.Marshal] of the patch for a node name and a value, the result of
    the [Patch] call, and the time that the call takes in nanoseconds. *)
Record SynchEnv := mkSynchEnv {
  Walk : string -> list WalkEntry;
  twCloseErr : option error;
  gwCloseErr : option error;
  bufBytes : list (Header * string) -> string;
  EncodeToString : string -> string;
  jsonMarshal : string -> string -> string + error;
  patchErr : option error;
  elapsed : Z
}.

Definition tarFolder (env : SynchEnv) (filelogOffsetDirectoryPath : string)
    : (Z * option error) * list (Header * string) :=
  match walkAndTar (Walk env filelogOffsetDirectoryPath) [] 0 with
  | ((tarredFiles, Some err), writer) =>
      ((tarredFiles, Some (Errorf "an error occurred while tar-ing the offset files" err)),
       writer)
  | ((tarredFiles, None), writer) =>
      match twCloseErr env with
      | Some err => ((tarredFiles, Some (Errorf "cannot close the tar writer" err)), writer)
      | None =>
          match gwCloseErr env with
          | Some err =>
              ((tarredFiles, Some (Errorf "cannot close the gzip writer" err)), writer)
          | None => ((tarredFiles, None), writer)
          end
      end
  end.

Definition patchConfigMap (env : SynchEnv) (nodeName configMapNamespace configMapName
    newValueBase64 : string) : option error * list OffsetEvent :=
  match jsonMarshal env nodeName newValueBase64 with
  | inr err => (Some (Errorf "cannot marshal configuration map patch" err), [])
  | inl patchBytes =>
      match patchErr env with
      | Some err =>
          (Some (GoError ("cannot update '" +:+ nodeName +:+ "' field of configuration map  "
                          +:+ configMapNamespace +:+ "/" +:+ configMapName +:+ ": "
                          +:+ Error err +:+ "; merge patch sent: '" +:+ patchBytes +:+ "'")),
           [EvPatchConfigMap configMapNamespace configMapName patchBytes])
      | None => (None, [EvPatchConfigMap configMapNamespace configMapName patchBytes])
      end
  end.

(** The package variable [currentValue] is passed in and returned. *)
Definition doSynchOffsets (env : SynchEnv) (settings : Settings) (currentValue : string)
    : (bool * Z * option error) * string * list OffsetEvent :=
  match tarFolder env (FileLogOffsetDirectoryPath settings) with
  | ((tarredFiles, Some err), _) =>
      ((false, -1, Some (Errorf "cannot prepare offset files for storing" err)),
       currentValue, [])
  | ((tarredFiles, None), buf) =>
      if (tarredFiles =? 0)%Z then ((false, -1, None), currentValue, [])
      else
        let newValue := EncodeToString env (bufBytes env buf) in
        if String.eqb newValue currentValue then ((false, -1, None), currentValue, [])
        else
          match patchConfigMap env (NodeName settings) (ConfigMapNamespace settings)
                  (ConfigMapName settings) newValue with
          | (Some err, events) =>
              ((false, -1,
                Some (Errorf ("cannot store offset files in configmap "
                              +:+ ConfigMapNamespace settings +:+ "/"
                              +:+ ConfigMapName settings) err)),
               currentValue, events)
          | (None, events) =>
              ((false, Z.of_nat (String.length (bufBytes env buf)), None), newValue, events)
          end
  end.

(** The list [attributes] is filled when there is an error and read only
    when there is none; it has no effect and is left out. *)
Definition doSynchOffsetsAndMeasure (env : SynchEnv) (settings : Settings)
    (currentValue : string) : option error * string * list OffsetEvent :=
  let '((offsetUpdated, offsetUpdateSize, err), currentValue, events) :=
    doSynchOffsets env settings currentValue in
  let events :=
    [EvSpanStart "synch-offsets"] ++ events
    ++ [EvSpanSetElapsed (Z.quot (elapsed env) 1000000)] in
  let events :=
    match err with
    | Some err =>
        events ++ [EvSpanRecordError err;
                   EvPrintf ("Cannot update offset files: " +:+ Error err +:+ newline)]
    | None =>
        if offsetUpdated : bool then
          events ++ [EvUpdateCountAdd 1; EvOffsetFileSizeRecord offsetUpdateSize;
                     EvUpdateDurationRecord (elapsed env)]
        else events
    end in
  (err, currentValue, events ++ [EvSpanEnd]).

(** What wakes the goroutine of [synchOffsets]: the ticker or [SIGTERM]. *)
Inductive Signal := Tick | Sigterm.

(** The goroutine of [synchOffsets] and the function itself, which waits
    for [done], up to the return of the function: every tick synchronizes;
    the first [SIGTERM] stops the ticker, synchronizes once more and lets
    [synchOffsets] return nil.  [None]: the signals so far hold no
    [SIGTERM] and the function has not returned. *)
Fixpoint synchOffsets (signals : list (Signal * SynchEnv)) (settings : Settings)
    (currentValue : string) : option (option error) * string * list OffsetEvent :=
  match signals with
  | [] => (None, currentValue, [])
  | (Tick, env) :: rest =>
      let '(err, currentValue, events) :=
        doSynchOffsetsAndMeasure env settings currentValue in
      let events :=
        match err with
        | Some err =>
            events ++ [EvPrintf ("Cannot update offset files: " +:+ Error err +:+ newline)]
        | None => events
        end in
      let '(result, currentValue, later) := synchOffsets rest settings currentValue in
      (result, currentValue, events ++ later)
  | (Sigterm, env) :: _ =>
      let '(err, currentValue, events) :=
        doSynchOffsetsAndMeasure env settings currentValue in
      let events :=
        match err with
        | Some err =>
            events ++ [EvPrintf ("Cannot update offset files on shutdown: " +:+ Error err
                                 +:+ newline)]
        | None => events
        end in
      (Some None, currentValue, events)
  end.

(** One call of [tr.Next()] that does not return [io.EOF], with what the
    surroundings answer while the entry is restored: the two results of
    [Next], a header ([None] for nil) and an error, the bytes of the entry,
    and the results of [os.Stat], [os.Mkdir], [os.OpenFile], [io.Copy] and
    [file.Close].  A [tar.Reader] that fails returns no header together
    with the error. *)
Record RestoreStep := mkRestoreStep {
  nextHeader : option Header;
  nextErr : option error;
  entryContent : string;
  statErr : option error;
  mkdirErr : option error;
  openFileErr : option error;
  copyFileErr : option error;
  closeFileErr : option error
}.

(** [next] is [None] when [tr.Next()] returns [io.EOF].  The first case of
    the [switch] also takes every call that returns no header, whatever its
    error; the second case is left for an error that comes with a
    header. *)
Definition restoreFile (next : option RestoreStep)
    : (bool * bool * option error) * list OffsetEvent :=
  match next with
  | None => ((true, false, None), [])
  | Some step =>
      match nextHeader step, nextErr step with
      | None, _ => ((true, false, None), [])
      | Some _, Some err =>
          ((false, false, Some (Errorf "cannot read next archive header" err)), [])
      | Some nextHeader, None =>
          if (Typeflag nextHeader =? tar_TypeDir)%Z then
            match statErr step with
            | Some _ =>
                match mkdirErr step with
                | Some err =>
                    ((false, false,
                      Some (Errorf ("cannot create directory '" +:+ Name nextHeader +:+ "'")
                              err)),
                     [])
                | None =>
                    ((false, false, None),
                     [EvMkdir (Name nextHeader) 493;
                      EvPrintf ("Restored directory '" +:+ Name nextHeader +:+ "'"
                                +:+ newline)])
                end
            | None => ((false, false, None), [])
            end
          else if (Typeflag nextHeader =? tar_TypeReg)%Z then
            match openFileErr step with
            | Some err =>
                ((false, false,
                  Some (Errorf ("cannot create file '" +:+ Name nextHeader +:+ "'") err)),
                 [])
            | None =>
                match copyFileErr step with
                | Some err =>
                    ((false, false,
                      Some (Errorf ("cannot write " +:+ pretty (Size nextHeader)
                                    +:+ " bytes to file '" +:+ Name nextHeader +:+ "'") err)),
                     [EvOpenFile (Name nextHeader) (FileMode (Mode nextHeader))])
                | None =>
                    match closeFileErr step with
                    | Some err =>
                        ((false, false,
                          Some (Errorf ("cannot close file '" +:+ Name nextHeader +:+ "'")
                                  err)),
                         [EvOpenFile (Name nextHeader) (FileMode (Mode nextHeader));
                          EvWriteFile (Name nextHeader) (entryContent step)])
                    | None =>
                        ((false, true, None),
                         [EvOpenFile (Name nextHeader) (FileMode (Mode nextHeader));
                          EvWriteFile (Name nextHeader) (entryContent step);
                          EvPrintf ("Restored file '" +:+ Name nextHeader +:+ "' ("
                                    +:+ pretty (Size nextHeader) +:+ " bytes)" +:+ newline)])
                    end
                end
            end
          else
            ((false, false,
              Some (GoError ("unexpected tar type '" +:+ pretty (Typeflag nextHeader)
                             +:+ "' for entry '" +:+ Name nextHeader +:+ "' (size: "
                             +:+ pretty (Size nextHeader) +:+ ")"))),
             [])
      end
  end.

(** The loop of [initOffsets] over the archive. *)
Fixpoint restoreFiles (tr : list RestoreStep) (restoredFiles : Z)
    : (Z * option error) * list OffsetEvent :=
  match tr with
  | [] =>
      let '((archiveFullyRead, hasRestoredFile, err), events) := restoreFile None in
      match err with
      | Some err => ((restoredFiles, Some err), events)
      | None =>
          ((if hasRestoredFile : bool then restoredFiles + 1 else restoredFiles, None),
           events)
      end
  | step :: rest =>
      let '((archiveFullyRead, hasRestoredFile, err), events) :=
        restoreFile (Some step) in
      match err with
      | Some err => ((restoredFiles, Some err), events)
      | None =>
          let restoredFiles :=
            if hasRestoredFile : bool then restoredFiles + 1 else restoredFiles in
          if archiveFullyRead : bool then ((restoredFiles, None), events)
          else
            let '(result, later) := restoreFiles rest restoredFiles in
            (result, events ++ later)
      end
  end.

(** What the surroundings answer during [initOffsets]: the binary data of
    the config map or an error, and for the bytes handed to
    [gzip.NewReader] an error or the calls of [tr.Next()] that are due. *)
Record InitEnv := mkInitEnv {
  getConfigMap : gmap string string + error;
  gzipNewReader : string -> list RestoreStep + error
}.

Definition initOffsets (env : InitEnv) (settings : Settings)
    : (Z * option error) * list OffsetEvent :=
  match getConfigMap env with
  | inr err =>
      ((0, Some (Errorf ("cannot retrieve " +:+ ConfigMapNamespace settings +:+ "/"
                         +:+ ConfigMapName settings +:+ " config map") err)),
       [])
  | inl binaryData =>
      match binaryData !! NodeName settings with
      | None => ((0, None), [])
      | Some offsetBytes =>
          match gzipNewReader env offsetBytes with
          | inr err =>
              ((0, Some (Errorf ("cannot uncompress '" +:+ NodeName settings
                                 +:+ "' field of " +:+ ConfigMapNamespace settings +:+ "/"
                                 +:+ ConfigMapName settings +:+ " config map") err)),
               [])
          | inl tr => restoreFiles tr 0
          end
      end
  end.

(** *** Observations on the offset synchronizer *)

Definition isPatch (e : OffsetEvent) : bool :=
  match e with EvPatchConfigMap _ _ _ => true | _ => false end.

Definition isMetric (e : OffsetEvent) : bool :=
  match e with
  | EvUpdateCountAdd _ | EvOffsetFileSizeRecord _ | EvUpdateDurationRecord _ => true
  | _ => false
  end.

(** The files written, with their bytes, in the order of the writes. *)
Definition writtenFiles (events : list OffsetEvent) : list (string * string) :=
  omap (λ e, match e with EvWriteFile name content => Some (name, content) | _ => None end)
    events.

(** The calls of the walk function for regular files, as path and bytes. *)
Definition regularFiles (entries : list WalkEntry) : list (string * string) :=
  omap (λ e, if IsDir e then None else Some (ToSlash (walkPath e), fileContent e)) entries.

(** The conditions under which a call of [doSynchOffsets] issues a
    [Patch] call, for the archive [buf] and with the bytes [patchBytes]: the
    directory was archived without error, the archive holds a file, its
    encoding differs from [currentValue], and the patch can be marshalled. *)
Definition patchIsDue (env : SynchEnv) (settings : Settings) (currentValue : string)
    (buf : list (Header * string)) (patchBytes : string) : Prop :=
  ∃ tarredFiles,
    tarFolder env (FileLogOffsetDirectoryPath settings) = ((tarredFiles, None), buf)
    ∧ tarredFiles ≠ 0
    ∧ EncodeToString env (bufBytes env buf) ≠ currentValue
    ∧ jsonMarshal env (NodeName settings) (EncodeToString env (bufBytes env buf))
      = inl patchBytes.

(** Inputs for the examples: a directory with one offset file. *)
Definition exampleSettings : Settings :=
  mkSettings "node-1" "operator-namespace" "filelog-offsets" "/offsets".

Definition exampleWalk : list WalkEntry :=
  [ mkWalkEntry "/offsets" None true (inl (mkHeader tar_TypeDir "offsets" 0 493 0))
      None None EmptyString None None;
    mkWalkEntry "/offsets/receiver_filelog_" None false
      (inl (mkHeader tar_TypeReg "receiver_filelog_" 7 420 0))
      None None "offset1" None None ].

Definition exampleSynchEnv : SynchEnv :=
  {| Walk := λ _, exampleWalk;
     twCloseErr := None;
     gwCloseErr := None;
     bufBytes := λ buf, String.concat ";" ((λ hc, Name hc.1 +:+ "=" +:+ hc.2) <$> buf);
     EncodeToString := λ bytes, "b64:" +:+ bytes;
     jsonMarshal := λ nodeName value, inl (nodeName +:+ ":" +:+ value);
     patchErr := None;
     elapsed := 2000000 |}.

(** The entry that a successful call of [tarFile] for [e] leaves in the
    archive: the header of [tar.FileInfoHeader] under the path of the
    entry, followed by the bytes of the file, or by nothing for a
    directory. *)
Definition archivedAs (e : WalkEntry) (entry : Header * string) : Prop :=
  ∃ header,
    FileInfoHeader e = inl header
    ∧ entry = (setName (ToSlash (walkPath e)) header,
               if IsDir e then EmptyString else fileContent e).

(** The entries of an archive under a reader that are regular files, as
    name and bytes. *)
Definition regularSteps (tr : list RestoreStep) : list (string * string) :=
  omap (λ step,
          match nextHeader step with
          | Some header =>
              if (Typeflag header =? tar_TypeReg)%Z
              then Some (Name header, entryContent step) else None
          | None => None
          end) tr.

(** A reader step that hands back an archive entry as it was written, in
    surroundings in which creating directories and files does not fail. *)
Definition readsBack (entry : Header * string) (step : RestoreStep) : Prop :=
  nextHeader step = Some entry.1
  ∧ nextErr step = None
  ∧ entryContent step = entry.2
  ∧ mkdirErr step = None
  ∧ openFileErr step = None
  ∧ copyFileErr step = None
  ∧ closeFileErr step = None.

Definition isSigterm (signal : Signal * SynchEnv) : bool :=
  match signal.1 with Sigterm => true | Tick => false end.

(** The signals up to the first [SIGTERM], that one included. *)
Fixpoint untilSigterm (signals : list (Signal * SynchEnv)) : list (Signal * SynchEnv) :=
  match signals with
  | [] => []
  | signal :: rest => signal :: (if isSigterm signal then [] else untilSigterm rest)
  end.

Definition isSpanStart (e : OffsetEvent) : bool :=
  match e with EvSpanStart _ => true | _ => false end.

Definition exampleReader : list RestoreStep :=
  [ mkRestoreStep (Some (mkHeader tar_TypeDir "/offsets" 0 493 0)) None EmptyString
      (Some (GoError "stat /offsets: no such file or directory")) None None None None;
    mkRestoreStep (Some (mkHeader tar_TypeReg "/offsets/receiver_filelog_" 7 420 0)) None
      "offset1" None None None None None ].

(** The same archive with a damaged entry between the directory and the
    file: [tr.Next()] returns no header and an error there. *)
Definition exampleDamagedReader : list RestoreStep :=
  [ mkRestoreStep (Some (mkHeader tar_TypeDir "/offsets" 0 493 0)) None EmptyString
      (Some (GoError "stat /offsets: no such file or directory")) None None None None;
    mkRestoreStep None (Some (GoError "archive/tar: invalid tar header")) EmptyString
      None None None None None;
    mkRestoreStep (Some (mkHeader tar_TypeReg "/offsets/receiver_filelog_" 7 420 0)) None
      "offset1" None None None None None ].

Definition exampleInitEnv : InitEnv :=
  {| getConfigMap := inl {[ "node-1" := "bytes" ]};
     gzipNewReader := λ _, inl exampleReader |}.

(** ** Observations on the outcomes of a list of requests *)

(** The item names of the requests that returned no error, in the order
    of the requests. *)
Definition succeededNames (outcomes : list (string * option error)) : list string :=
  omap (λ o, match o.2 with None => Some o.1 | Some _ => None end) outcomes.

(** The requests that returned an error, with the error, in the order of
    the requests. *)
Definition failures (outcomes : list (string * option error)) : list (string * error) :=
  omap (λ o, match o.2 with Some e => Some (o.1, e) | None => None end) outcomes.

(** The error messages written one after the other into a map, a later
    one replacing an earlier one under the same item name. *)
Definition recordFailures (h : gmap string string) (failed : list (string * error))
    : gmap string string :=
  foldl (λ h f, <[f.1 := Error f.2]> h) h failed.

(** ** Observations on a call that starts the watch *)

(** What the surroundings must answer for a call of
    [maybeStartWatchingThirdPartyResources] that finds no watch in place to
    reach its [go] statement: the CRD exists, the API configuration is
    valid, and neither [controller.NewTypedUnmanaged] nor [Watch] fails. *)
Definition reachesGo (e : StartEnv) : Prop :=
  DoesCrdExist e = true
  ∧ isValidApiConfig (GetApiConfig e) = true
  ∧ newTypedUnmanagedError e = None
  ∧ watchError e = None.

(** The shared state after a start, a stop and a second start, before the
    goroutine of the first sub-controller has noticed the cancellation. *)
Definition exampleRestarted : Lifecycle :=
  {| lock := None;
     controllerStopFunction := Some 1%nat;
     controllers := [mkController Running true; mkController Running false];
     informersRemoved := 1;
     lifecycleLog :=
       [ (LevelInfo, MsgWillWatch); (LevelInfo, MsgSettingUpWatch);
         (LevelInfo, MsgCreatedController); (LevelInfo, MsgCreatedWatch);
         (LevelInfo, MsgRemovingInformer); (LevelInfo, MsgStoppingController);
         (LevelInfo, MsgWillWatch); (LevelInfo, MsgSettingUpWatch);
         (LevelInfo, MsgCreatedController); (LevelInfo, MsgCreatedWatch) ] |}.

(** The holder of the mutex is a caller that is between [Lock] and the
    deferred [Unlock]. *)
Definition lockHolderInside (sys : System) : Prop :=
  ∀ t, lock (lifecycle sys) = Some t ->
       ∃ th, callers sys !! t = Some th ∧ inCriticalSection (callerAt th).

(** ** Properties *)

(** *** Computations *)

Lemma valueOf_bind {A B} (m : M A) (k : A -> M B) n :
  valueOf ((m ≫= k) n) = valueOf (k (valueOf (m n)) (counterOf (m n))).
Proof.
  unfold mbind, M_bind, valueOf, counterOf.
  destruct (m n) as [[a n1] t1]; simpl.
  destruct (k a n1) as [[b n2] t2]; reflexivity.
Qed.

Lemma counterOf_bind {A B} (m : M A) (k : A -> M B) n :
  counterOf ((m ≫= k) n) = counterOf (k (valueOf (m n)) (counterOf (m n))).
Proof.
  unfold mbind, M_bind, valueOf, counterOf.
  destruct (m n) as [[a n1] t1]; simpl.
  destruct (k a n1) as [[b n2] t2]; reflexivity.
Qed.

Lemma eventsOf_bind {A B} (m : M A) (k : A -> M B) n :
  eventsOf ((m ≫= k) n)
  = eventsOf (m n) ++ eventsOf (k (valueOf (m n)) (counterOf (m n))).
Proof.
  unfold mbind, M_bind, valueOf, counterOf, eventsOf.
  destruct (m n) as [[a n1] t1]; simpl.
  destruct (k a n1) as [[b n2] t2]; reflexivity.
Qed.

Lemma run_bind {A B} (m : M A) (k : A -> M B) n a n1 t1 :
  m n = (a, n1, t1) ->
  (m ≫= k) n = (valueOf (k a n1), counterOf (k a n1), t1 ++ eventsOf (k a n1)).
Proof.
  intros H. unfold mbind, M_bind. rewrite H.
  destruct (k a n1) as [[b n2] t2]; reflexivity.
Qed.

Lemma countEvents_sleep p d : p (EvSleep d) = false -> countEvents p [EvSleep d] = 0%nat.
Proof.
  intros Hp. unfold countEvents. cbn. rewrite Hp.
  rewrite decide_False by discriminate. reflexivity.
Qed.

Lemma countEvents_app p t1 t2 :
  countEvents p (t1 ++ t2) = (countEvents p t1 + countEvents p t2)%nat.
Proof. unfold countEvents. rewrite filter_app, length_app. reflexivity. Qed.

(** Every event of a retry loop is a sleep or an event of a try. *)
Lemma onErrorLoop_events (P : Event -> Prop) retriable fn :
  (∀ d, P (EvSleep d)) ->
  (∀ n, Forall P (eventsOf (fn n))) ->
  ∀ steps d factor lastErr n,
    Forall P (eventsOf (onErrorLoop steps d factor retriable fn lastErr n)).
Proof.
  intros Hsleep Hfn. induction steps as [|remaining IH]; intros d factor lastErr n.
  - constructor.
  - simpl. rewrite eventsOf_bind. apply Forall_app. split; [apply Hfn|].
    destruct (valueOf (fn n)) as [e|]; [|constructor].
    destruct (retriable e); [|constructor].
    destruct remaining as [|remaining']; [constructor|].
    rewrite eventsOf_bind. apply Forall_app. split.
    + repeat constructor. apply Hsleep.
    + apply IH.
Qed.

(** *** Classification of the outcome *)

Lemma len_pos_nonempty {A} (s : slice A) : (0 <? len s)%Z = true ↔ elemsOf s ≠ [].
Proof.
  unfold len. destruct (elemsOf s); simpl; split; intros H; try congruence.
  - discriminate.
  - reflexivity.
Qed.

Lemma lenMap_zero_empty {V} (m : gmap string V) : (lenMap m =? 0)%Z = true ↔ m = ∅.
Proof.
  unfold lenMap. rewrite Z.eqb_eq. split; intros H.
  - apply map_size_empty_iff. lia.
  - subst m. rewrite map_size_empty. reflexivity.
Qed.

Lemma lenMap_zero_false {V} (m : gmap string V) : (lenMap m =? 0)%Z = false ↔ m ≠ ∅.
Proof.
  rewrite <- lenMap_zero_empty. destruct (lenMap m =? 0)%Z; split; congruence.
Qed.

Lemma len_pos_decide {A} `{EqDecision A} (s : slice A) :
  (0 <? len s)%Z = negb (bool_decide (elemsOf s = [])).
Proof.
  unfold len. case_bool_decide as Hd; [by rewrite Hd|].
  destruct (elemsOf s); [done|reflexivity].
Qed.

Lemma lenMap_zero_decide {V} `{EqDecision V} (m : gmap string V) :
  (lenMap m =? 0)%Z = bool_decide (m = ∅).
Proof.
  case_bool_decide; [by apply lenMap_zero_empty | by apply lenMap_zero_false].
Qed.

Lemma writeSynchronizationResultOnce_merge
    (env : Env) (r : ThirdPartyResourceReconciler) (m : Dash0Monitoring)
    (qualifiedName : string) (result : SynchronizationStatus) (itemsTotal : Z)
    (synchronized : slice string) (issues : gmap string (list string))
    (errors : gmap string string) (n : nat) :
  Forall (λ ev, ∀ q st it s e i, ev = EvMergeResult q st it s e i ->
            st = result ∧ s = synchronized ∧ e = errors ∧ i = issues ∧ it = itemsTotal)
    (eventsOf (writeSynchronizationResultOnce env r m qualifiedName result itemsTotal
                 synchronized issues errors n)).
Proof.
  unfold writeSynchronizationResultOnce.
  rewrite eventsOf_bind. apply Forall_app. split.
  { cbn. constructor; [|constructor]. intros; discriminate. }
  destruct (valueOf _) as [fetched|err].
  - rewrite eventsOf_bind. apply Forall_app. split.
    { cbn. constructor; [|constructor].
      intros ? ? ? ? ? ? Heq. inversion Heq; subst. auto. }
    rewrite eventsOf_bind. apply Forall_app. split.
    { cbn. constructor; [|constructor]. intros; discriminate. }
    destruct (valueOf _); cbn; (constructor; [|constructor]); intros; discriminate.
  - cbn. constructor; [|constructor]. intros; discriminate.
Qed.

(** The outcome handed to the status merge is the one
    [writeSynchronizationResult] was called with, and its status is computed
    from the three lengths. *)
Lemma writeSynchronizationResult_merge_event
    (env : Env) (r : ThirdPartyResourceReconciler) (m : Dash0Monitoring)
    (obj : ClientObject) (itemsTotal : Z) (synchronized : slice string)
    (issues : gmap string (list string)) (errors : gmap string string) (n : nat)
    (q : string) (st : SynchronizationStatus) (it : Z) (s : slice string)
    (e : gmap string string) (i : gmap string (list string)) :
  EvMergeResult q st it s e i
    ∈ eventsOf (writeSynchronizationResult env r m obj itemsTotal synchronized issues errors n) ->
  st = (if (0 <? len synchronized)%Z && (lenMap issues =? 0)%Z && (lenMap errors =? 0)%Z
        then Successful
        else if (0 <? len synchronized)%Z then PartiallySuccessful else Failed)
  ∧ s = synchronized ∧ e = errors ∧ i = issues ∧ it = itemsTotal.
Proof.
  intros Hin. unfold writeSynchronizationResult in Hin.
  rewrite eventsOf_bind in Hin. apply elem_of_app in Hin.
  destruct Hin as [Hin|Hin].
  - unfold OnError in Hin.
    eapply Forall_forall in Hin;
      [|apply onErrorLoop_events;
        [|intros k; apply writeSynchronizationResultOnce_merge]; intros; discriminate].
    exact (Hin q st it s e i eq_refl).
  - destruct (valueOf _); simpl in Hin.
    + apply list_elem_of_singleton in Hin. discriminate.
    + inversion Hin.
Qed.

(** C1.  Whenever [writeSynchronizationResult] hands an outcome to the
    status merge, the status is [Successful] exactly when at least one item
    was synchronized and there are neither validation issues nor
    synchronization errors, [PartiallySuccessful] exactly when at least one
    item was synchronized and there are issues or errors, and [Failed]
    exactly when no item was synchronized, whatever the two maps hold. *)
Theorem writeSynchronizationResult_status
    (env : Env) (r : ThirdPartyResourceReconciler) (m : Dash0Monitoring)
    (obj : ClientObject) (itemsTotal : Z) (synchronized : slice string)
    (issues : gmap string (list string)) (errors : gmap string string) (n : nat)
    (q : string) (st : SynchronizationStatus) (it : Z) (s : slice string)
    (e : gmap string string) (i : gmap string (list string)) :
  EvMergeResult q st it s e i
    ∈ eventsOf (writeSynchronizationResult env r m obj itemsTotal synchronized issues errors n) ->
  (st = Successful ↔ elemsOf synchronized ≠ [] ∧ issues = ∅ ∧ errors = ∅)
  ∧ (st = PartiallySuccessful ↔ elemsOf synchronized ≠ [] ∧ (issues ≠ ∅ ∨ errors ≠ ∅))
  ∧ (st = Failed ↔ elemsOf synchronized = [])
  ∧ s = synchronized ∧ e = errors ∧ i = issues ∧ it = itemsTotal.
Proof.
  intros Hin.
  apply writeSynchronizationResult_merge_event in Hin as (-> & -> & -> & -> & ->).
  rewrite len_pos_decide, !lenMap_zero_decide.
  repeat case_bool_decide; simpl; intuition congruence.
Qed.

(** *** Retry loops *)

Lemma tryCounter_succ fn n i :
  tryCounter fn n (S i) = tryCounter fn (counterOf (fn n)) i.
Proof. unfold tryCounter. rewrite Nat.iter_succ_r. reflexivity. Qed.

Lemma tryCounter_zero fn n : tryCounter fn n 0 = n.
Proof. reflexivity. Qed.

Lemma onErrorLoop_more steps d factor retriable fn lastErr :
  onErrorLoop (S (S steps)) d factor retriable fn lastErr
  = (err ← fn;
     match err with
     | None => mret None
     | Some e =>
         if retriable e then
           _ ← timeSleep d;
           onErrorLoop (S steps) (nextDuration d factor) factor retriable fn (Some e)
         else mret (Some e)
     end).
Proof. reflexivity. Qed.

(** The tries of a retry loop: there is a last one, it decides the result,
    all earlier ones failed with an error accepted for retry, and when
    steps are left over the last try succeeded or failed with an error
    rejected for retry. *)
Lemma onErrorLoop_tries (p : Event -> bool) retriable fn :
  (∀ d, p (EvSleep d) = false) ->
  (∀ n, countEvents p (eventsOf (fn n)) = 1%nat) ->
  ∀ steps d factor lastErr n,
    ∃ last,
      countEvents p (eventsOf (onErrorLoop (S steps) d factor retriable fn lastErr n)) = S last
      ∧ (last ≤ steps)%nat
      ∧ valueOf (onErrorLoop (S steps) d factor retriable fn lastErr n)
        = valueOf (fn (tryCounter fn n last))
      ∧ counterOf (onErrorLoop (S steps) d factor retriable fn lastErr n)
        = counterOf (fn (tryCounter fn n last))
      ∧ (∀ k, (k < last)%nat ->
           ∃ e, valueOf (fn (tryCounter fn n k)) = Some e ∧ retriable e = true)
      ∧ ((last < steps)%nat ->
           valueOf (fn (tryCounter fn n last)) = None
           ∨ ∃ e, valueOf (fn (tryCounter fn n last)) = Some e ∧ retriable e = false).
Proof.
  intros Hsleep Hone. induction steps as [|steps IH]; intros d factor lastErr n.
  - exists 0%nat. cbn [onErrorLoop].
    rewrite eventsOf_bind, valueOf_bind, counterOf_bind, countEvents_app, Hone.
    rewrite tryCounter_zero.
    destruct (valueOf (fn n)) as [e|] eqn:Hv; [destruct (retriable e) eqn:Hr|];
      cbn; repeat split; try lia; try congruence; intros; lia.
  - rewrite onErrorLoop_more.
    rewrite eventsOf_bind, valueOf_bind, counterOf_bind, countEvents_app, Hone.
    destruct (valueOf (fn n)) as [e|] eqn:Hv; [destruct (retriable e) eqn:Hr|].
    + destruct (IH (nextDuration d factor) factor (Some e) (counterOf (fn n)))
        as (last & Hcount & Hle & Hval & Hctr & Hearlier & Hlast).
      exists (S last).
      rewrite eventsOf_bind, valueOf_bind, counterOf_bind, countEvents_app.
      cbn [timeSleep emit valueOf counterOf eventsOf fst snd].
      rewrite !tryCounter_succ.
      rewrite (countEvents_sleep p d (Hsleep d)), Hcount.
      repeat split; try lia; try assumption.
      * intros k Hk. destruct k as [|k].
        -- exists e. rewrite tryCounter_zero. auto.
        -- rewrite tryCounter_succ. apply Hearlier. lia.
      * intros Hlt. apply Hlast. lia.
    + exists 0%nat. rewrite tryCounter_zero, Hv.
      cbn. repeat split; try lia. intros _. right. eauto.
    + exists 0%nat. rewrite tryCounter_zero, Hv.
      cbn. repeat split; try lia. intros _. left. reflexivity.
Qed.

(** *** Execution of one request *)

Lemma executeSingleHttpRequest_run env r req k :
  executeSingleHttpRequest env r req k
  = match httpDo env k (Request req) with
    | inl err =>
        (Some (RetryableError err true), S k,
         [EvHttpDo req; EvLog LevelError (MsgUnableToExecuteRequest err)])
    | inr res =>
        if (StatusCode res <? 200)%Z || (300 <=? StatusCode res)%Z then
          if (400 <=? StatusCode res)%Z && (StatusCode res <? 500)%Z then
            (Some (RetryableError (convertNon2xxStatusCodeToError r req res) false), S k,
             [EvHttpDo req;
              EvLog LevelError
                (MsgUnexpectedStatusCode (convertNon2xxStatusCodeToError r req res))])
          else
            (Some (RetryableError (convertNon2xxStatusCodeToError r req res) true), S k,
             [EvHttpDo req;
              EvLog LevelError
                (MsgUnexpectedStatusCodeMightBeRetried
                   (convertNon2xxStatusCodeToError r req res))])
        else (None, S k, [EvHttpDo req])
    end.
Proof.
  unfold executeSingleHttpRequest, HttpClient_Do, remote, mbind, M_bind.
  unfold http_StatusOK, http_StatusMultipleChoices, http_StatusBadRequest,
    http_StatusInternalServerError.
  destruct (httpDo env k (Request req)) as [err|res]; [reflexivity|].
  destruct ((StatusCode res <? 200)%Z || (300 <=? StatusCode res)%Z); [|reflexivity].
  destruct ((400 <=? StatusCode res)%Z && (StatusCode res <? 500)%Z); reflexivity.
Qed.

Lemma executeSingleHttpRequest_counter env r req k :
  counterOf (executeSingleHttpRequest env r req k) = S k.
Proof.
  rewrite executeSingleHttpRequest_run.
  destruct (httpDo env k (Request req)) as [err|res]; [reflexivity|].
  destruct (_ || _); [destruct (_ && _)|]; reflexivity.
Qed.

Lemma executeSingleHttpRequest_one_request env r req k :
  countEvents isHttpDo (eventsOf (executeSingleHttpRequest env r req k)) = 1%nat.
Proof.
  rewrite executeSingleHttpRequest_run.
  destruct (httpDo env k (Request req)) as [err|res]; [reflexivity|].
  destruct (_ || _); [destruct (_ && _)|]; reflexivity.
Qed.

Lemma executeSingleHttpRequest_error env r req k e :
  valueOf (executeSingleHttpRequest env r req k) = Some e ->
  ∃ err, e = RetryableError err (isRetryable e).
Proof.
  rewrite executeSingleHttpRequest_run.
  destruct (httpDo env k (Request req)) as [err|res].
  - intros [= <-]. eauto.
  - destruct (_ || _); [destruct (_ && _)|]; intros [= <-]; eauto.
Qed.

(** How one attempt turns the answer of the HTTP client into its result. *)
Lemma executeSingleHttpRequest_classes env r req k :
  match httpDo env k (Request req) with
  | inl err =>
      valueOf (executeSingleHttpRequest env r req k) = Some (RetryableError err true)
  | inr res =>
      ((200 ≤ StatusCode res < 300)%Z ->
         valueOf (executeSingleHttpRequest env r req k) = None)
      ∧ ((400 ≤ StatusCode res < 500)%Z ->
           valueOf (executeSingleHttpRequest env r req k)
           = Some (RetryableError (convertNon2xxStatusCodeToError r req res) false))
      ∧ ((500 ≤ StatusCode res < 600)%Z ->
           valueOf (executeSingleHttpRequest env r req k)
           = Some (RetryableError (convertNon2xxStatusCodeToError r req res) true))
  end.
Proof.
  rewrite executeSingleHttpRequest_run.
  destruct (httpDo env k (Request req)) as [err|res]; [reflexivity|].
  destruct (StatusCode res <? 200)%Z eqn:H1; destruct (300 <=? StatusCode res)%Z eqn:H2;
    destruct (400 <=? StatusCode res)%Z eqn:H3; destruct (StatusCode res <? 500)%Z eqn:H4;
    cbn; repeat split; intros; try reflexivity; lia.
Qed.

Lemma tryCounter_http env r req n k :
  tryCounter (executeSingleHttpRequest env r req) n k = (k + n)%nat.
Proof.
  revert n. induction k as [|k IH]; intros n; [reflexivity|].
  rewrite tryCounter_succ, executeSingleHttpRequest_counter, IH. lia.
Qed.

(** C3.  A prepared request is sent at least once and at most three times.
    The result is that of the last attempt; every earlier attempt failed
    with an error marked retryable, and when fewer than three attempts were
    made the last one succeeded or failed with an error not marked
    retryable.  An attempt that meets a transport
    failure or a 5xx status yields a retryable error, one that meets a 4xx
    status a non-retryable error, one that meets a 2xx status no error.  A
    4xx answer to the first attempt is returned after that one attempt, and
    so is the success of a 2xx answer. *)
Theorem executeSingleHttpRequestWithRetry_attempts
    (env : Env) (r : ThirdPartyResourceReconciler) (req : HttpRequestWithItemName)
    (actionLabel : string) (n : nat) :
  ∃ last,
    countEvents isHttpDo
      (eventsOf (executeSingleHttpRequestWithRetry env r req actionLabel n)) = S last
    ∧ (S last ≤ 3)%nat
    ∧ valueOf (executeSingleHttpRequestWithRetry env r req actionLabel n)
      = valueOf (executeSingleHttpRequest env r req (last + n)%nat)
    ∧ (∀ k, (k < last)%nat ->
         ∃ err, valueOf (executeSingleHttpRequest env r req (k + n)%nat)
                = Some (RetryableError err true))
    ∧ ((S last < 3)%nat ->
         valueOf (executeSingleHttpRequestWithRetry env r req actionLabel n) = None
         ∨ ∃ err, valueOf (executeSingleHttpRequestWithRetry env r req actionLabel n)
                  = Some (RetryableError err false))
    ∧ (∀ k,
         match httpDo env k (Request req) with
         | inl err =>
             valueOf (executeSingleHttpRequest env r req k) = Some (RetryableError err true)
         | inr res =>
             ((200 ≤ StatusCode res < 300)%Z ->
                valueOf (executeSingleHttpRequest env r req k) = None)
             ∧ ((400 ≤ StatusCode res < 500)%Z ->
                  valueOf (executeSingleHttpRequest env r req k)
                  = Some (RetryableError (convertNon2xxStatusCodeToError r req res) false))
             ∧ ((500 ≤ StatusCode res < 600)%Z ->
                  valueOf (executeSingleHttpRequest env r req k)
                  = Some (RetryableError (convertNon2xxStatusCodeToError r req res) true))
         end)
    ∧ (∀ res, httpDo env n (Request req) = inr res ->
         (400 ≤ StatusCode res < 500)%Z ->
         last = 0%nat
         ∧ valueOf (executeSingleHttpRequestWithRetry env r req actionLabel n)
           = Some (RetryableError (convertNon2xxStatusCodeToError r req res) false))
    ∧ (∀ res, httpDo env n (Request req) = inr res ->
         (200 ≤ StatusCode res < 300)%Z ->
         last = 0%nat
         ∧ valueOf (executeSingleHttpRequestWithRetry env r req actionLabel n) = None).
Proof.
  pose proof (executeSingleHttpRequest_classes env r req) as Hclass.
  destruct (onErrorLoop_tries isHttpDo isRetryable (executeSingleHttpRequest env r req)
              ltac:(reflexivity) (executeSingleHttpRequest_one_request env r req)
              2%nat (GetHttpRetryDelay r) (3 # 2) None n)
    as (last & Hcount & Hle & Hval & _ & Hearlier & Hlast).
  rewrite tryCounter_http in Hval, Hlast.
  assert (Hv : valueOf (executeSingleHttpRequestWithRetry env r req actionLabel n)
               = valueOf (executeSingleHttpRequest env r req (last + n)%nat)).
  { unfold executeSingleHttpRequestWithRetry. rewrite valueOf_bind. exact Hval. }
  assert (Hfirst : ∀ o, valueOf (executeSingleHttpRequest env r req n) = o ->
                        (∀ err, o ≠ Some (RetryableError err true)) -> last = 0%nat).
  { intros o Ho Hnot. destruct last as [|last]; [reflexivity|].
    destruct (Hearlier 0%nat ltac:(lia)) as (e & He & Hr).
    rewrite tryCounter_zero in He.
    destruct (executeSingleHttpRequest_error _ _ _ _ _ He) as (err & Herr).
    rewrite Hr in Herr. exfalso. apply (Hnot err). congruence. }
  exists last. split; [|split; [lia|split; [exact Hv|split; [|split; [|split; [exact Hclass|]]]]]].
  - unfold executeSingleHttpRequestWithRetry.
    rewrite eventsOf_bind, countEvents_app. exact Hcount.
  - intros k Hk. destruct (Hearlier k Hk) as (e & He & Hr).
    rewrite tryCounter_http in He.
    destruct (executeSingleHttpRequest_error _ _ _ _ _ He) as (err & Herr).
    rewrite Hr in Herr. exists err. rewrite He, Herr. reflexivity.
  - intros Hless. rewrite Hv.
    destruct Hlast as [Hnone|(e & He & Hr)]; [lia|left; exact Hnone|right].
    destruct (executeSingleHttpRequest_error _ _ _ _ _ He) as (err & Herr).
    rewrite Hr in Herr. exists err. rewrite He, Herr. reflexivity.
  - split.
    + intros res Hres Hcode. specialize (Hclass n). rewrite Hres in Hclass.
      destruct Hclass as (_ & H4 & _). specialize (H4 Hcode).
      assert (last = 0%nat) as -> by (eapply Hfirst; [exact H4|congruence]).
      split; [reflexivity|]. rewrite Hv. exact H4.
    + intros res Hres Hcode. specialize (Hclass n). rewrite Hres in Hclass.
      destruct Hclass as (H2 & _ & _). specialize (H2 Hcode).
      assert (last = 0%nat) as -> by (eapply Hfirst; [exact H2|congruence]).
      split; [reflexivity|]. rewrite Hv. exact H2.
Qed.

(** A 503 answer is retried until three attempts have been made and is
    then returned as the error; a 404 answer is returned after the first
    attempt. *)
Example retry_boundary_503 :
  let run := executeSingleHttpRequestWithRetry (exampleEnv EmptyString (λ _, 503) (λ _, false))
               (exampleReconciler [] ∅ ∅) (requestFor "a") "Creating/updating" 0%nat in
  countEvents isHttpDo (eventsOf run) = 3%nat
  ∧ filter (λ e, isSleep e = true) (eventsOf run) = [EvSleep 1000000000; EvSleep 1500000000]
  ∧ (isRetryable <$> valueOf run) = Some true.
Proof. vm_compute. repeat split. Qed.

Example retry_boundary_404 :
  let run := executeSingleHttpRequestWithRetry (exampleEnv EmptyString (λ _, 404) (λ _, false))
               (exampleReconciler [] ∅ ∅) (requestFor "a") "Creating/updating" 0%nat in
  countEvents isHttpDo (eventsOf run) = 1%nat
  ∧ filter (λ e, isSleep e = true) (eventsOf run) = []
  ∧ (isRetryable <$> valueOf run) = Some false.
Proof. vm_compute. repeat split. Qed.

(** The examples of the specification: two synchronized items and nothing
    else, one synchronized item and one error, no synchronized item and one
    error. *)
Example classification_examples :
  let merged synchronized errors :=
    filter (λ e, isMergeResult e = true)
      (eventsOf (writeSynchronizationResult (exampleEnv EmptyString (λ _, 200) (λ _, false))
                   (exampleReconciler [] ∅ ∅) exampleMonitoring exampleResource 2
                   synchronized ∅ errors 0%nat)) in
  merged (mkSlice ["a"; "b"]) ∅
    = [EvMergeResult "ns/res" Successful 2 (mkSlice ["a"; "b"]) ∅ ∅]
  ∧ merged (mkSlice ["a"]) {["c" := "x"]}
    = [EvMergeResult "ns/res" PartiallySuccessful 2 (mkSlice ["a"]) {["c" := "x"]} ∅]
  ∧ merged nilSlice {["c" := "x"]}
    = [EvMergeResult "ns/res" Failed 2 nilSlice {["c" := "x"]} ∅].
Proof. vm_compute. repeat split. Qed.

Lemma writeSynchronizationResult_status_witness :
  (Successful = Successful ↔
     elemsOf (mkSlice ["a"; "b"]) ≠ []
     ∧ (∅ : gmap string (list string)) = ∅ ∧ (∅ : gmap string string) = ∅).
Proof.
  apply (writeSynchronizationResult_status
           (exampleEnv EmptyString (λ _, 200) (λ _, false)) (exampleReconciler [] ∅ ∅)
           exampleMonitoring exampleResource 2 (mkSlice ["a"; "b"]) ∅ ∅ 0%nat
           "ns/res" Successful 2 (mkSlice ["a"; "b"]) ∅ ∅).
  apply list_elem_of_In. vm_compute. tauto.
Defined.

(** *** Precondition validation *)

Lemma validatePreconditions_run D env r obj n :
  validatePreconditions D env r obj n
  = match findUniqueOrMostRecentResourceInScope env (GetNamespace obj) with
    | (_, Some e) =>
        (doNotSynchronize, n,
         [EvCheck CheckMonitoringResource;
          EvLog LevelError (MsgLookupOfMonitoringResourceFailed e)])
    | (None, None) =>
        (doNotSynchronize, n,
         [EvCheck CheckMonitoringResource; EvLog LevelInfo MsgNoMonitoringResource])
    | (Some m, None) =>
        if negb (IsSynchronizationEnabled r m) then
          (doNotSynchronize, n,
           [EvCheck CheckMonitoringResource; EvCheck CheckSynchronizationEnabled;
            EvLog LevelInfo MsgSynchronizationDisabled])
        else
          match validApiConfig (loadApiConfig env) with
          | None =>
              (doNotSynchronize, n,
               [EvCheck CheckMonitoringResource; EvCheck CheckSynchronizationEnabled;
                EvCheck CheckApiConfig; EvLog LevelInfo MsgNoApiEndpoint])
          | Some cfg =>
              if String.eqb (GetAuthToken r) EmptyString then
                (doNotSynchronize, n,
                 [EvCheck CheckMonitoringResource; EvCheck CheckSynchronizationEnabled;
                  EvCheck CheckApiConfig; EvCheck CheckAuthToken;
                  EvLog LevelInfo MsgNoAuthToken])
              else
                ({| synchronizeResource := true;
                    thirdPartyResource := Some obj;
                    monitoringResource := Some m;
                    authToken := GetAuthToken r;
                    apiEndpoint := Endpoint cfg;
                    dataset := if String.eqb (Dataset cfg) EmptyString then D
                               else Dataset cfg;
                    k8sNamespace := GetNamespace obj;
                    k8sName := GetName obj |}, n,
                 [EvCheck CheckMonitoringResource; EvCheck CheckSynchronizationEnabled;
                  EvCheck CheckApiConfig; EvCheck CheckAuthToken])
          end
    end.
Proof.
  unfold validatePreconditions.
  destruct (findUniqueOrMostRecentResourceInScope env (GetNamespace obj)) as [[m|] [e|]];
    try reflexivity.
  unfold mbind, M_bind, emit. cbn.
  destruct (IsSynchronizationEnabled r m); cbn; [|reflexivity].
  destruct (validApiConfig (loadApiConfig env)) as [cfg|]; cbn; [|reflexivity].
  destruct (String.eqb (GetAuthToken r) EmptyString); reflexivity.
Qed.

Lemma validatePreconditions_sets_resource D env r obj n :
  synchronizeResource (valueOf (validatePreconditions D env r obj n)) = true ->
  ∃ m, monitoringResource (valueOf (validatePreconditions D env r obj n)) = Some m.
Proof.
  rewrite validatePreconditions_run.
  destruct (findUniqueOrMostRecentResourceInScope env (GetNamespace obj)) as [[m|] [e|]];
    try discriminate.
  destruct (negb _); [discriminate|].
  destruct (validApiConfig _); [|discriminate].
  destruct (String.eqb _ _); [discriminate|]. cbn. eauto.
Qed.

Lemma validApiConfig_Some apiConfig cfg :
  validApiConfig apiConfig = Some cfg ↔ apiConfig = Some cfg ∧ Endpoint cfg ≠ EmptyString.
Proof.
  unfold validApiConfig, isValidApiConfig. destruct apiConfig as [c|].
  - destruct (String.eqb_spec (Endpoint c) EmptyString) as [Heq|Hne]; cbn.
    + split; [discriminate|]. intros [[= ->] Hc]. contradiction.
    + split; [intros [= ->]; auto|]. intros [[= ->] _]. reflexivity.
  - split; [discriminate|]. intros [[=] _].
Qed.

Lemma validApiConfig_None apiConfig :
  validApiConfig apiConfig = None ↔ isValidApiConfig apiConfig = false.
Proof.
  unfold validApiConfig. destruct (isValidApiConfig apiConfig) eqn:Hv.
  - destruct apiConfig; [|discriminate Hv]. split; discriminate.
  - split; reflexivity.
Qed.

(** C4.  [validatePreconditions] makes its checks in the order monitoring
    resource, synchronization enabled, API configuration, auth token; it
    makes a check only when all earlier ones have passed and stops at the
    first one that fails, with one log entry and the result
    [doNotSynchronize]; it always returns a result and has no error to
    return.  When all four checks pass nothing is logged and the result
    asks to synchronize. *)
Theorem validatePreconditions_checks
    (D : string) (env : Env) (r : ThirdPartyResourceReconciler) (obj : ClientObject)
    (n : nat) :
  let found := findUniqueOrMostRecentResourceInScope env (GetNamespace obj) in
  let run := validatePreconditions D env r obj n in
  (∃ k, (1 ≤ k)%nat
        ∧ checksOf (eventsOf run)
          = take k [CheckMonitoringResource; CheckSynchronizationEnabled;
                    CheckApiConfig; CheckAuthToken])
  ∧ counterOf run = n
  ∧ (valueOf run = doNotSynchronize ∨ synchronizeResource (valueOf run) = true)
  ∧ (∀ e, found.2 = Some e ->
       valueOf run = doNotSynchronize
       ∧ checksOf (eventsOf run) = [CheckMonitoringResource]
       ∧ logOf (eventsOf run) = [(LevelError, MsgLookupOfMonitoringResourceFailed e)])
  ∧ (found = (None, None) ->
       valueOf run = doNotSynchronize
       ∧ checksOf (eventsOf run) = [CheckMonitoringResource]
       ∧ logOf (eventsOf run) = [(LevelInfo, MsgNoMonitoringResource)])
  ∧ (∀ m, found = (Some m, None) ->
       (IsSynchronizationEnabled r m = false ->
          valueOf run = doNotSynchronize
          ∧ checksOf (eventsOf run) = [CheckMonitoringResource; CheckSynchronizationEnabled]
          ∧ logOf (eventsOf run) = [(LevelInfo, MsgSynchronizationDisabled)])
       ∧ (IsSynchronizationEnabled r m = true ->
          isValidApiConfig (loadApiConfig env) = false ->
          valueOf run = doNotSynchronize
          ∧ checksOf (eventsOf run)
            = [CheckMonitoringResource; CheckSynchronizationEnabled; CheckApiConfig]
          ∧ logOf (eventsOf run) = [(LevelInfo, MsgNoApiEndpoint)])
       ∧ (IsSynchronizationEnabled r m = true ->
          isValidApiConfig (loadApiConfig env) = true ->
          GetAuthToken r = EmptyString ->
          valueOf run = doNotSynchronize
          ∧ checksOf (eventsOf run)
            = [CheckMonitoringResource; CheckSynchronizationEnabled; CheckApiConfig;
               CheckAuthToken]
          ∧ logOf (eventsOf run) = [(LevelInfo, MsgNoAuthToken)])
       ∧ (IsSynchronizationEnabled r m = true ->
          isValidApiConfig (loadApiConfig env) = true ->
          GetAuthToken r ≠ EmptyString ->
          synchronizeResource (valueOf run) = true
          ∧ monitoringResource (valueOf run) = Some m
          ∧ checksOf (eventsOf run)
            = [CheckMonitoringResource; CheckSynchronizationEnabled; CheckApiConfig;
               CheckAuthToken]
          ∧ logOf (eventsOf run) = [])).
Proof.
  cbn zeta. rewrite validatePreconditions_run.
  destruct (findUniqueOrMostRecentResourceInScope env (GetNamespace obj)) as [[m|] [e|]].
  - repeat split; try (exists 1%nat; split; [lia|reflexivity]); auto;
      try discriminate; cbn in *; congruence.
  - destruct (IsSynchronizationEnabled r m) eqn:Hen; cbn [negb].
    + destruct (validApiConfig (loadApiConfig env)) as [cfg|] eqn:Hcfg.
      * assert (Hvalid : isValidApiConfig (loadApiConfig env) = true).
        { destruct (isValidApiConfig (loadApiConfig env)) eqn:Hv; [reflexivity|].
          apply validApiConfig_None in Hv. congruence. }
        destruct (String.eqb_spec (GetAuthToken r) EmptyString) as [Htok|Htok].
        -- repeat split; try (exists 4%nat; split; [lia|reflexivity]); auto;
             try discriminate; intros; try congruence;
             match goal with H : (_, _) = (_, _) |- _ => injection H as <- end; congruence.
        -- repeat split; try (exists 4%nat; split; [lia|reflexivity]); auto;
             try discriminate; intros; try congruence;
             match goal with H : (_, _) = (_, _) |- _ => injection H as <- end;
             try congruence; reflexivity.
      * apply validApiConfig_None in Hcfg.
        repeat split; try (exists 3%nat; split; [lia|reflexivity]); auto;
          try discriminate; intros; try congruence;
          match goal with H : (_, _) = (_, _) |- _ => injection H as <- end; congruence.
    + repeat split; try (exists 2%nat; split; [lia|reflexivity]); auto;
        try discriminate; intros; try congruence;
        match goal with H : (_, _) = (_, _) |- _ => injection H as <- end; congruence.
  - repeat split; try (exists 1%nat; split; [lia|reflexivity]); auto;
      try discriminate; cbn in *; congruence.
  - repeat split; try (exists 1%nat; split; [lia|reflexivity]); auto;
      try discriminate; cbn in *; congruence.
Qed.

(** The four checks pass on the example inputs; one check after the other
    is made to fail. *)
Example validatePreconditions_examples :
  let run env r := validatePreconditions "default" env r exampleResource 0%nat in
  let ok := exampleEnv EmptyString (λ _, 200) (λ _, false) in
  let r := exampleReconciler [] ∅ ∅ in
  logOf (eventsOf (run ok r)) = []
  ∧ synchronizeResource (valueOf (run ok r)) = true
  ∧ run (mkEnv (loadApiConfig ok) (λ _, (None, Some (GoError "timeout"))) (httpDo ok)
           (k8sGet ok) (k8sStatusUpdate ok)) r
    = (doNotSynchronize, 0%nat,
       [EvCheck CheckMonitoringResource;
        EvLog LevelError (MsgLookupOfMonitoringResourceFailed (GoError "timeout"))])
  ∧ run (mkEnv None (findUniqueOrMostRecentResourceInScope ok) (httpDo ok)
           (k8sGet ok) (k8sStatusUpdate ok)) r
    = (doNotSynchronize, 0%nat,
       [EvCheck CheckMonitoringResource; EvCheck CheckSynchronizationEnabled;
        EvCheck CheckApiConfig; EvLog LevelInfo MsgNoApiEndpoint]).
Proof. vm_compute. repeat split. Qed.

(** C9.  When the four checks pass, the dataset of the result is
    [DatasetDefault] if the loaded API configuration has an empty dataset,
    and the dataset of that configuration otherwise. *)
Theorem validatePreconditions_dataset
    (D : string) (env : Env) (r : ThirdPartyResourceReconciler) (obj : ClientObject)
    (n : nat) (m : Dash0Monitoring) (cfg : ApiConfig) :
  findUniqueOrMostRecentResourceInScope env (GetNamespace obj) = (Some m, None) ->
  IsSynchronizationEnabled r m = true ->
  loadApiConfig env = Some cfg ->
  Endpoint cfg ≠ EmptyString ->
  GetAuthToken r ≠ EmptyString ->
  synchronizeResource (valueOf (validatePreconditions D env r obj n)) = true
  ∧ (Dataset cfg = EmptyString ->
       dataset (valueOf (validatePreconditions D env r obj n)) = D)
  ∧ (Dataset cfg ≠ EmptyString ->
       dataset (valueOf (validatePreconditions D env r obj n)) = Dataset cfg).
Proof.
  intros Hfound Hen Hload Hend Htok.
  rewrite validatePreconditions_run, Hfound, Hen. cbn [negb].
  assert (Hcfg : validApiConfig (loadApiConfig env) = Some cfg)
    by (apply validApiConfig_Some; auto).
  rewrite Hcfg.
  destruct (String.eqb_spec (GetAuthToken r) EmptyString) as [?|_]; [contradiction|].
  cbn. destruct (String.eqb_spec (Dataset cfg) EmptyString); repeat split; congruence.
Qed.

Lemma validatePreconditions_dataset_witness :
  dataset (valueOf (validatePreconditions "default"
                      (exampleEnv EmptyString (λ _, 200) (λ _, false))
                      (exampleReconciler [] ∅ ∅) exampleResource 0%nat)) = "default"
  ∧ dataset (valueOf (validatePreconditions "default"
                        (exampleEnv "production" (λ _, 200) (λ _, false))
                        (exampleReconciler [] ∅ ∅) exampleResource 0%nat)) = "production".
Proof.
  split.
  - apply (validatePreconditions_dataset "default"
             (exampleEnv EmptyString (λ _, 200) (λ _, false)) (exampleReconciler [] ∅ ∅)
             exampleResource 0%nat exampleMonitoring
             (mkApiConfig "https://api.example" EmptyString));
      try reflexivity; discriminate.
  - apply (validatePreconditions_dataset "default"
             (exampleEnv "production" (λ _, 200) (λ _, false)) (exampleReconciler [] ∅ ∅)
             exampleResource 0%nat exampleMonitoring
             (mkApiConfig "https://api.example" "production"));
      try reflexivity; discriminate.
Defined.

(** *** Execution of all requests *)

Lemma outcomesOf_names exec requests n :
  (outcomesOf exec requests n).*1 = ItemName <$> requests.
Proof.
  revert n. induction requests as [|req rest IH]; intros n; [reflexivity|].
  cbn. rewrite IH. reflexivity.
Qed.

Lemma executeRequestsFrom_cons env r req rest actionLabel s0 h0 n :
  valueOf (executeRequestsFrom env r (req :: rest) actionLabel s0 h0 n)
  = valueOf (executeRequestsFrom env r rest actionLabel
               (match valueOf (executeSingleHttpRequestWithRetry env r req actionLabel n) with
                | Some _ => s0
                | None => append s0 (ItemName req)
                end)
               (match valueOf (executeSingleHttpRequestWithRetry env r req actionLabel n) with
                | Some e => <[ItemName req := Error e]> h0
                | None => h0
                end)
               (counterOf (executeSingleHttpRequestWithRetry env r req actionLabel n))).
Proof.
  cbn [executeRequestsFrom]. rewrite valueOf_bind.
  destruct (valueOf (executeSingleHttpRequestWithRetry env r req actionLabel n)); reflexivity.
Qed.

Lemma executeRequestsFrom_partition env r actionLabel requests :
  ∀ s0 h0 n,
    NoDup (ItemName <$> requests) ->
    (∀ name,
       name ∈ elemsOf (valueOf (executeRequestsFrom env r requests actionLabel s0 h0 n)).1
       ↔ name ∈ elemsOf s0
         ∨ (name, None) ∈ outcomesOf
             (λ req, executeSingleHttpRequestWithRetry env r req actionLabel) requests n)
    ∧ (∀ name msg,
         (valueOf (executeRequestsFrom env r requests actionLabel s0 h0 n)).2 !! name = Some msg
         ↔ (∃ e, (name, Some e) ∈ outcomesOf
                   (λ req, executeSingleHttpRequestWithRetry env r req actionLabel) requests n
                 ∧ msg = Error e)
           ∨ (h0 !! name = Some msg
              ∧ ∀ e, (name, Some e) ∉ outcomesOf
                       (λ req, executeSingleHttpRequestWithRetry env r req actionLabel)
                       requests n)).
Proof.
  induction requests as [|req rest IH]; intros s0 h0 n Hnodup.
  - cbn. split.
    + intros name. rewrite elem_of_nil. tauto.
    + intros name msg. split.
      * intros H. right. split; [exact H|]. intros e. apply not_elem_of_nil.
      * intros [(e & H & _)|[H _]]; [by apply elem_of_nil in H|exact H].
  - rewrite fmap_cons in Hnodup. apply NoDup_cons in Hnodup as [Hfresh Hnodup].
    rewrite executeRequestsFrom_cons. cbn [outcomesOf].
    set (exec := λ req, executeSingleHttpRequestWithRetry env r req actionLabel) in *.
    assert (Hnone : ∀ o, (ItemName req, o) ∉ outcomesOf exec rest (counterOf (exec req n))).
    { intros o Hin. apply Hfresh. rewrite <- (outcomesOf_names exec rest (counterOf (exec req n))).
      apply list_elem_of_fmap. exists (ItemName req, o). split; [reflexivity|exact Hin]. }
    change (executeSingleHttpRequestWithRetry env r req actionLabel n) with (exec req n).
    destruct (valueOf (exec req n)) as [e|] eqn:Hv.
    + destruct (IH s0 (<[ItemName req := Error e]> h0) (counterOf (exec req n)) Hnodup)
        as [IH1 IH2].
      split.
      * intros name. rewrite IH1, elem_of_cons. split; [tauto|].
        intros [H|[H|H]]; [tauto|congruence|tauto].
      * intros name msg. rewrite IH2. split.
        -- intros [(e' & Hin & ->)|[Hl Hno]].
           ++ left. exists e'. split; [|reflexivity]. apply elem_of_cons. tauto.
           ++ destruct (decide (name = ItemName req)) as [->|Hne].
              ** rewrite lookup_insert_eq in Hl. injection Hl as <-.
                 left. exists e. split; [|reflexivity]. apply elem_of_cons. tauto.
              ** rewrite lookup_insert_ne in Hl by congruence.
                 right. split; [exact Hl|]. intros e' Hin.
                 apply elem_of_cons in Hin as [Heq|Hin]; [congruence|by apply (Hno e')].
        -- intros [(e' & Hin & ->)|[Hl Hno]].
           ++ apply elem_of_cons in Hin as [Heq|Hin].
              ** injection Heq as Hname He. subst name e'. right.
                 split; [apply lookup_insert_eq|]. intros e'. apply Hnone.
              ** left. eauto.
           ++ right. assert (name ≠ ItemName req) as Hne.
              { intros ->. apply (Hno e). apply elem_of_cons. tauto. }
              split; [rewrite lookup_insert_ne by congruence; exact Hl|].
              intros e' Hin. apply (Hno e'). apply elem_of_cons. tauto.
    + destruct (IH (append s0 (ItemName req)) h0 (counterOf (exec req n)) Hnodup)
        as [IH1 IH2].
      split.
      * intros name. rewrite IH1. unfold append. cbn [elemsOf].
        rewrite elem_of_app, list_elem_of_singleton, elem_of_cons. split.
        -- intros [[H | ->] | H]; tauto.
        -- intros [H|[H|H]]; [tauto| |tauto]. injection H as Hname. tauto.
      * intros name msg. rewrite IH2. split.
        -- intros [(e' & Hin & ->)|[Hl Hno]].
           ++ left. exists e'. split; [|reflexivity]. apply elem_of_cons. tauto.
           ++ right. split; [exact Hl|]. intros e' Hin.
              apply elem_of_cons in Hin as [Heq|Hin]; [congruence|by apply (Hno e')].
        -- intros [(e' & Hin & ->)|[Hl Hno]].
           ++ apply elem_of_cons in Hin as [Heq|Hin]; [congruence|]. left. eauto.
           ++ right. split; [exact Hl|]. intros e' Hin. apply (Hno e').
              apply elem_of_cons. tauto.
Qed.

Lemma executeAllHttpRequests_value env r requests actionLabel n :
  valueOf (executeAllHttpRequests env r requests actionLabel n)
  = let loop := valueOf (executeRequestsFrom env r requests actionLabel (mkSlice []) ∅ n) in
    (if (len loop.1 =? 0)%Z then nilSlice else loop.1, loop.2).
Proof.
  unfold executeAllHttpRequests. rewrite valueOf_bind.
  destruct (valueOf (executeRequestsFrom env r requests actionLabel (mkSlice []) ∅ n))
    as [s h]. reflexivity.
Qed.

Lemma outcome_unique (outcomes : list (string * option error)) name o1 o2 :
  NoDup outcomes.*1 -> (name, o1) ∈ outcomes -> (name, o2) ∈ outcomes -> o1 = o2.
Proof.
  intros Hnodup H1 H2.
  apply (elem_of_list_to_map_1 (M := gmap string)) in H1; [|exact Hnodup].
  apply (elem_of_list_to_map_1 (M := gmap string)) in H2; [|exact Hnodup].
  congruence.
Qed.

(** C10.  When the item names of the requests are pairwise distinct,
    [executeAllHttpRequests] sorts them exactly: every request has one
    outcome; a name is in the returned list of synchronized items if and
    only if its request returned no error; it is a key of the returned
    error map, with the message of the error, if and only if its request
    returned that error; no name is in both; and the list is the nil slice
    when no request succeeded, a non-empty slice otherwise. *)
Theorem executeAllHttpRequests_partition
    (env : Env) (r : ThirdPartyResourceReconciler)
    (requests : list HttpRequestWithItemName) (actionLabel : string) (n : nat) :
  NoDup (ItemName <$> requests) ->
  let result := valueOf (executeAllHttpRequests env r requests actionLabel n) in
  let outcomes :=
    outcomesOf (λ req, executeSingleHttpRequestWithRetry env r req actionLabel) requests n in
  outcomes.*1 = ItemName <$> requests
  ∧ (∀ name, name ∈ elemsOf result.1 ↔ (name, None) ∈ outcomes)
  ∧ (∀ name msg,
       result.2 !! name = Some msg ↔ ∃ e, (name, Some e) ∈ outcomes ∧ msg = Error e)
  ∧ (∀ name, name ∈ elemsOf result.1 -> result.2 !! name = None)
  ∧ ((∀ name, (name, None) ∉ outcomes) -> result.1 = nilSlice)
  ∧ (∀ name, (name, None) ∈ outcomes -> ∃ l, result.1 = mkSlice l ∧ l ≠ []).
Proof.
  intros Hnodup. cbn zeta.
  destruct (executeRequestsFrom_partition env r actionLabel requests (mkSlice []) ∅ n Hnodup)
    as [Hsucc Herr].
  rewrite executeAllHttpRequests_value. cbn zeta.
  set (outcomes :=
    outcomesOf (λ req, executeSingleHttpRequestWithRetry env r req actionLabel) requests n)
    in *.
  assert (Hnames : outcomes.*1 = ItemName <$> requests) by apply outcomesOf_names.
  destruct (valueOf (executeRequestsFrom env r requests actionLabel (mkSlice []) ∅ n))
    as [s h]. cbn [fst snd] in *.
  assert (Helems : elemsOf (if (len s =? 0)%Z then nilSlice else s) = elemsOf s).
  { unfold len. destruct (elemsOf s) eqn:Hs; cbn; [reflexivity|exact Hs]. }
  assert (Hsucc' : ∀ name,
    name ∈ elemsOf (if (len s =? 0)%Z then nilSlice else s) ↔ (name, None) ∈ outcomes).
  { intros name. rewrite Helems, Hsucc. cbn. rewrite elem_of_nil. tauto. }
  assert (Herr' : ∀ name msg,
    h !! name = Some msg ↔ ∃ e, (name, Some e) ∈ outcomes ∧ msg = Error e).
  { intros name msg. rewrite Herr, lookup_empty.
    split; [intros [H|[H _]]; [exact H|discriminate]|tauto]. }
  split; [exact Hnames|]. split; [exact Hsucc'|]. split; [exact Herr'|].
  split; [|split].
  - intros name Hin. apply Hsucc' in Hin.
    destruct (h !! name) as [msg|] eqn:Hl; [|reflexivity].
    apply Herr' in Hl as (e & He & _).
    assert (None = Some e) by (eapply outcome_unique; [|exact Hin|exact He]; by rewrite Hnames).
    discriminate.
  - intros Hnone. unfold len.
    destruct (elemsOf s) as [|name l] eqn:Hs; [reflexivity|].
    exfalso. apply (Hnone name). apply Hsucc'. rewrite Helems. apply list_elem_of_here.
  - intros name Hin. apply Hsucc' in Hin. rewrite Helems in Hin.
    unfold len.
    destruct s as [|l]; cbn in *; [by apply elem_of_nil in Hin|].
    destruct l as [|x l]; [by apply elem_of_nil in Hin|].
    cbn. exists (x :: l). split; [reflexivity|discriminate].
Qed.

Lemma executeAllHttpRequests_partition_witness :
  NoDup (ItemName <$> [requestFor "a"; requestFor "b"])
  ∧ ∀ name,
      name ∈ elemsOf (valueOf (executeAllHttpRequests
                         (exampleEnv EmptyString (λ n, if (n =? 0)%nat then 200 else 404)
                            (λ _, false))
                         (exampleReconciler [] ∅ ∅) [requestFor "a"; requestFor "b"]
                         "Creating/updating" 0%nat)).1 ->
      (valueOf (executeAllHttpRequests
                  (exampleEnv EmptyString (λ n, if (n =? 0)%nat then 200 else 404)
                     (λ _, false))
                  (exampleReconciler [] ∅ ∅) [requestFor "a"; requestFor "b"]
                  "Creating/updating" 0%nat)).2 !! name = None.
Proof.
  assert (Hnodup : NoDup (ItemName <$> [requestFor "a"; requestFor "b"])).
  { apply NoDup_cons. split; [|apply NoDup_singleton].
    intros H%list_elem_of_singleton. discriminate. }
  split; [exact Hnodup|].
  apply (executeAllHttpRequests_partition
           (exampleEnv EmptyString (λ n, if (n =? 0)%nat then 200 else 404) (λ _, false))
           (exampleReconciler [] ∅ ∅) [requestFor "a"; requestFor "b"]
           "Creating/updating" 0%nat Hnodup).
Defined.

(** One request succeeds and one is rejected; both are rejected. *)
Example executeAllHttpRequests_examples :
  valueOf (executeAllHttpRequests
             (exampleEnv EmptyString (λ n, if (n =? 0)%nat then 200 else 404) (λ _, false))
             (exampleReconciler [] ∅ ∅) [requestFor "a"; requestFor "b"]
             "Creating/updating" 0%nat)
  = (mkSlice ["a"],
     {["b" := "unexpected status code 404 when updating/creating/deleting the dashboard "
              +:+ dquote +:+ "b" +:+ dquote
              +:+ " at https://api.example/b, response body is body"]})
  ∧ (valueOf (executeAllHttpRequests
                (exampleEnv EmptyString (λ _, 404) (λ _, false))
                (exampleReconciler [] ∅ ∅) [requestFor "a"; requestFor "b"]
                "Creating/updating" 0%nat)).1
    = nilSlice.
Proof. vm_compute. split; reflexivity. Qed.

(** *** One synchronization attempt *)

(** The events of [synchronizeViaApi], stage by stage. *)
Lemma synchronizeViaApi_events D env r obj action actionLabel n :
  eventsOf (synchronizeViaApi D env r obj action actionLabel n)
  = let pre := validatePreconditions D env r obj n in
    eventsOf pre
    ++ (if negb (synchronizeResource (valueOf pre)) then []
        else
          let mapped := MapResourceToHttpRequests r (valueOf pre) action in
          let exec :=
            (if (0 <? Z.of_nat (length mapped.1.1.2))%Z
             then executeAllHttpRequests env r mapped.1.1.2 actionLabel
             else mret (nilSlice, ∅)) (counterOf pre) in
          let synchronizationErrors :=
            if (0 <? lenMap (valueOf exec).2)%Z
            then mapsCopy mapped.2 (valueOf exec).2
            else mapped.2 in
          (if (Z.of_nat (length mapped.1.1.2) =? 0)%Z && (lenMap mapped.1.2 =? 0)%Z
              && (lenMap mapped.2 =? 0)%Z
           then [EvLog LevelInfo MsgNothingToSynchronize] else [])
          ++ eventsOf exec
          ++ [EvLog LevelInfo
                (MsgSynchronizationSummary mapped.1.1.1 (len (valueOf exec).1) mapped.1.2
                   synchronizationErrors)]
          ++ match monitoringResource (valueOf pre) with
             | Some m =>
                 eventsOf (writeSynchronizationResult env r m obj mapped.1.1.1
                             (valueOf exec).1 mapped.1.2 synchronizationErrors
                             (counterOf exec))
             | None => []
             end).
Proof.
  unfold synchronizeViaApi. cbn zeta. rewrite eventsOf_bind. f_equal.
  destruct (negb (synchronizeResource (valueOf (validatePreconditions D env r obj n))));
    [reflexivity|].
  destruct (MapResourceToHttpRequests r (valueOf (validatePreconditions D env r obj n)) action)
    as [[[itemsTotal requests] issues] errors]. cbn [fst snd].
  rewrite eventsOf_bind. f_equal.
  { destruct (_ && _); reflexivity. }
  assert (Hc : ∀ b, counterOf ((if b : bool then logInfo MsgNothingToSynchronize else mret tt)
                                 (counterOf (validatePreconditions D env r obj n)))
                    = counterOf (validatePreconditions D env r obj n))
    by (intros []; reflexivity).
  rewrite Hc, eventsOf_bind. f_equal.
  set (exec := (if (0 <? Z.of_nat (length requests))%Z
                then executeAllHttpRequests env r requests actionLabel
                else mret (nilSlice, ∅)) (counterOf (validatePreconditions D env r obj n))).
  destruct (valueOf exec) as [synchronized httpErrors]. cbn [fst snd].
  rewrite eventsOf_bind. f_equal.
  destruct (monitoringResource (valueOf (validatePreconditions D env r obj n)));
    reflexivity.
Qed.

Lemma executeSingleHttpRequestWithRetry_events (P : Event -> Prop) env r req actionLabel n :
  (∀ level msg, P (EvLog level msg)) ->
  (∀ req, P (EvHttpDo req)) ->
  (∀ d, P (EvSleep d)) ->
  Forall P (eventsOf (executeSingleHttpRequestWithRetry env r req actionLabel n)).
Proof.
  intros Hlog Hdo Hsleep. unfold executeSingleHttpRequestWithRetry.
  rewrite eventsOf_bind. apply Forall_app. split.
  - cbn. constructor; [apply Hlog|constructor].
  - apply onErrorLoop_events; [exact Hsleep|].
    intros k. rewrite executeSingleHttpRequest_run.
    destruct (httpDo env k (Request req)) as [err|res].
    + cbn. repeat constructor; auto.
    + destruct (_ || _); [destruct (_ && _)|]; cbn; repeat constructor; auto.
Qed.

Lemma executeRequestsFrom_events (P : Event -> Prop) env r actionLabel requests :
  (∀ level msg, P (EvLog level msg)) ->
  (∀ req, P (EvHttpDo req)) ->
  (∀ d, P (EvSleep d)) ->
  ∀ s0 h0 n, Forall P (eventsOf (executeRequestsFrom env r requests actionLabel s0 h0 n)).
Proof.
  intros Hlog Hdo Hsleep. induction requests as [|req rest IH]; intros s0 h0 n.
  - constructor.
  - cbn [executeRequestsFrom]. rewrite eventsOf_bind. apply Forall_app. split.
    + apply executeSingleHttpRequestWithRetry_events; assumption.
    + destruct (valueOf _); apply IH.
Qed.

Lemma executeAllHttpRequests_events (P : Event -> Prop) env r requests actionLabel n :
  (∀ level msg, P (EvLog level msg)) ->
  (∀ req, P (EvHttpDo req)) ->
  (∀ d, P (EvSleep d)) ->
  Forall P (eventsOf (executeAllHttpRequests env r requests actionLabel n)).
Proof.
  intros Hlog Hdo Hsleep. unfold executeAllHttpRequests.
  rewrite eventsOf_bind. apply Forall_app. split.
  - apply executeRequestsFrom_events; assumption.
  - destruct (valueOf _) as [s h]. constructor.
Qed.

Lemma writeSynchronizationResult_events (P : Event -> Prop) env r m obj itemsTotal
    synchronized issues errors n :
  (∀ level msg, P (EvLog level msg)) ->
  (∀ d, P (EvSleep d)) ->
  (∀ namespace name, P (EvGet namespace name)) ->
  (∀ q st it s e i, P (EvMergeResult q st it s e i)) ->
  (∀ resource, P (EvStatusUpdate resource)) ->
  Forall P (eventsOf (writeSynchronizationResult env r m obj itemsTotal synchronized
                        issues errors n)).
Proof.
  intros Hlog Hsleep Hget Hmerge Hupdate. unfold writeSynchronizationResult.
  rewrite eventsOf_bind. apply Forall_app. split.
  - apply onErrorLoop_events; [exact Hsleep|].
    intros k. unfold writeSynchronizationResultOnce.
    rewrite eventsOf_bind. apply Forall_app. split.
    { cbn. constructor; [apply Hget|constructor]. }
    destruct (valueOf _) as [fetched|err].
    + rewrite eventsOf_bind. apply Forall_app. split.
      { cbn. constructor; [apply Hmerge|constructor]. }
      rewrite eventsOf_bind. apply Forall_app. split.
      { cbn. constructor; [apply Hupdate|constructor]. }
      destruct (valueOf _); cbn; (constructor; [apply Hlog|constructor]).
    + cbn. constructor; [apply Hlog|constructor].
  - destruct (valueOf _); cbn; [constructor; [apply Hlog|constructor]|constructor].
Qed.

Lemma validatePreconditions_events (P : Event -> Prop) D env r obj n :
  (∀ level msg, P (EvLog level msg)) ->
  (∀ check, P (EvCheck check)) ->
  Forall P (eventsOf (validatePreconditions D env r obj n)).
Proof.
  intros Hlog Hcheck. rewrite validatePreconditions_run.
  destruct (findUniqueOrMostRecentResourceInScope env (GetNamespace obj)) as [[m|] [e|]];
    try (cbn; repeat constructor; auto).
  destruct (negb _); [cbn; repeat constructor; auto|].
  destruct (validApiConfig _); [|cbn; repeat constructor; auto].
  destruct (String.eqb _ _); cbn; repeat constructor; auto.
Qed.

(** The keys of the map of HTTP errors are item names of requests. *)
Lemma executeRequestsFrom_error_keys env r actionLabel requests :
  ∀ s0 h0 n name,
    is_Some ((valueOf (executeRequestsFrom env r requests actionLabel s0 h0 n)).2 !! name) ->
    is_Some (h0 !! name) ∨ name ∈ ItemName <$> requests.
Proof.
  induction requests as [|req rest IH]; intros s0 h0 n name Hsome.
  - left. exact Hsome.
  - rewrite executeRequestsFrom_cons in Hsome. apply IH in Hsome.
    rewrite fmap_cons, elem_of_cons.
    destruct Hsome as [Hsome|Hin]; [|tauto].
    destruct (valueOf (executeSingleHttpRequestWithRetry env r req actionLabel n)); [|tauto].
    destruct (decide (ItemName req = name)) as [<-|Hne]; [tauto|].
    rewrite lookup_insert_ne in Hsome by exact Hne. tauto.
Qed.

Lemma executeAllHttpRequests_error_keys env r requests actionLabel n name :
  is_Some ((valueOf (executeAllHttpRequests env r requests actionLabel n)).2 !! name) ->
  name ∈ ItemName <$> requests.
Proof.
  rewrite executeAllHttpRequests_value. cbn zeta. cbn [snd]. intros Hsome.
  apply executeRequestsFrom_error_keys in Hsome as [Hsome|Hin]; [|exact Hin].
  rewrite lookup_empty in Hsome. by destruct Hsome.
Qed.

(** The outcome that [synchronizeViaApi] hands to the status merge carries
    the validation issues of the mapping step and the synchronization
    errors of the mapping step merged with the HTTP errors. *)
Lemma synchronizeViaApi_merge D env r obj action actionLabel n q st it s e i :
  EvMergeResult q st it s e i
    ∈ eventsOf (synchronizeViaApi D env r obj action actionLabel n) ->
  let pre := validatePreconditions D env r obj n in
  let mapped := MapResourceToHttpRequests r (valueOf pre) action in
  let exec :=
    (if (0 <? Z.of_nat (length mapped.1.1.2))%Z
     then executeAllHttpRequests env r mapped.1.1.2 actionLabel
     else mret (nilSlice, ∅)) (counterOf pre) in
  synchronizeResource (valueOf pre) = true
  ∧ i = mapped.1.2
  ∧ e = (if (0 <? lenMap (valueOf exec).2)%Z
         then mapsCopy mapped.2 (valueOf exec).2 else mapped.2)
  ∧ s = (valueOf exec).1
  ∧ it = mapped.1.1.1.
Proof.
  intros Hin. rewrite synchronizeViaApi_events in Hin. cbn zeta in *.
  assert (Hno : ∀ t, Forall (λ ev, isMergeResult ev = false) t ->
                     EvMergeResult q st it s e i ∈ t -> False).
  { intros t Hall Ht. rewrite Forall_forall in Hall. apply Hall in Ht. discriminate. }
  apply elem_of_app in Hin as [Hin|Hin].
  { exfalso. eapply Hno; [|exact Hin]. apply validatePreconditions_events; reflexivity. }
  destruct (synchronizeResource (valueOf (validatePreconditions D env r obj n)));
    cbn [negb] in Hin; [|by apply elem_of_nil in Hin].
  apply elem_of_app in Hin as [Hin|Hin].
  { exfalso. eapply Hno; [|exact Hin]. destruct (_ && _); repeat constructor. }
  apply elem_of_app in Hin as [Hin|Hin].
  { exfalso. eapply Hno; [|exact Hin].
    destruct (0 <? _)%Z; [|constructor].
    apply executeAllHttpRequests_events; reflexivity. }
  apply elem_of_app in Hin as [Hin|Hin].
  { exfalso. eapply Hno; [|exact Hin]. repeat constructor. }
  destruct (monitoringResource _) as [m|]; [|by apply elem_of_nil in Hin].
  apply writeSynchronizationResult_merge_event in Hin as (_ & -> & -> & -> & ->).
  repeat split; reflexivity.
Qed.

(** C7, as amended.  Suppose the mapping step returns no request for an
    item that has a validation issue or a synchronization error, and no item
    has both.  Then in the outcome of the attempt no item has both a
    validation issue and a synchronization error, and every synchronization
    error of the mapping step is still in the final map with its message. *)
Theorem synchronizeViaApi_disjoint
    (D : string) (env : Env) (r : ThirdPartyResourceReconciler) (obj : ClientObject)
    (action : apiAction) (actionLabel : string) (n : nat)
    (q : string) (st : SynchronizationStatus) (it : Z) (s : slice string)
    (e : gmap string string) (i : gmap string (list string)) :
  let mapped :=
    MapResourceToHttpRequests r (valueOf (validatePreconditions D env r obj n)) action in
  (∀ req, req ∈ mapped.1.1.2 ->
     mapped.1.2 !! ItemName req = None ∧ mapped.2 !! ItemName req = None) ->
  (∀ name, is_Some (mapped.1.2 !! name) -> mapped.2 !! name = None) ->
  EvMergeResult q st it s e i
    ∈ eventsOf (synchronizeViaApi D env r obj action actionLabel n) ->
  i = mapped.1.2
  ∧ (∀ name, is_Some (i !! name) -> e !! name = None)
  ∧ (∀ name msg, mapped.2 !! name = Some msg -> e !! name = Some msg).
Proof.
  intros mapped Hrequests Hmaps Hin.
  apply synchronizeViaApi_merge in Hin as (_ & -> & -> & _). cbn zeta. fold mapped.
  set (exec := (if (0 <? Z.of_nat (length mapped.1.1.2))%Z
                then executeAllHttpRequests env r mapped.1.1.2 actionLabel
                else mret (nilSlice, ∅))
                 (counterOf (validatePreconditions D env r obj n))).
  assert (Hkeys : ∀ name, is_Some ((valueOf exec).2 !! name) ->
                          mapped.1.2 !! name = None ∧ mapped.2 !! name = None).
  { intros name Hsome. subst exec. destruct (0 <? _)%Z.
    - apply executeAllHttpRequests_error_keys in Hsome.
      apply list_elem_of_fmap in Hsome as (req & -> & Hreq). by apply Hrequests.
    - cbn in Hsome. rewrite lookup_empty in Hsome. by destruct Hsome. }
  split; [reflexivity|]. split.
  - intros name Hissue. destruct (0 <? lenMap (valueOf exec).2)%Z; [|by apply Hmaps].
    unfold mapsCopy. apply lookup_union_None. split; [|by apply Hmaps].
    destruct ((valueOf exec).2 !! name) eqn:Hl; [|reflexivity].
    destruct (Hkeys name) as [Hnone _]; [by rewrite Hl|].
    rewrite Hnone in Hissue. by destruct Hissue.
  - intros name msg Herr. destruct (0 <? lenMap (valueOf exec).2)%Z; [|exact Herr].
    unfold mapsCopy. rewrite lookup_union_r; [exact Herr|].
    destruct ((valueOf exec).2 !! name) eqn:Hl; [|reflexivity].
    destruct (Hkeys name) as [_ Hnone]; [by rewrite Hl|]. congruence.
Qed.

(** C7, as stated, fails: a mapping step may return a request for item
    [a] together with a validation issue and a synchronization error for
    [a].  When the request is rejected, [a] has both an issue and an error
    in the outcome, and the HTTP error has replaced the mapping error. *)
Lemma synchronizeViaApi_disjoint_counterexample :
  let env := exampleEnv EmptyString (λ _, 404) (λ _, false) in
  let r := exampleReconciler [requestFor "a"] {["a" := ["invalid"]]}
             {["a" := "conversion failed"]} in
  ¬ (∀ q st it s e i,
       EvMergeResult q st it s e i
         ∈ eventsOf (synchronizeViaApi "default" env r exampleResource upsert
                       "Creating/updating" 0%nat) ->
       (∀ name, is_Some (i !! name) -> e !! name = None)
       ∧ (∀ name msg,
            (MapResourceToHttpRequests r
               (valueOf (validatePreconditions "default" env r exampleResource 0%nat))
               upsert).2 !! name = Some msg ->
            e !! name = Some msg)).
Proof.
  intros env r H.
  destruct (H "ns/res" Failed 1 nilSlice
              {["a" := "unexpected status code 404 when updating/creating/deleting the dashboard "
                       +:+ dquote +:+ "a" +:+ dquote
                       +:+ " at https://api.example/a, response body is body"]}
              {["a" := ["invalid"]]}) as [Hshared _].
  - apply list_elem_of_In. vm_compute. tauto.
  - specialize (Hshared "a" ltac:(vm_compute; eauto)). vm_compute in Hshared. discriminate.
Qed.

Lemma synchronizeViaApi_disjoint_witness :
  let env := exampleEnv EmptyString (λ _, 404) (λ _, false) in
  let r := exampleReconciler [requestFor "a"] {["b" := ["invalid"]]}
             {["c" := "conversion failed"]} in
  let e : gmap string string :=
    {["a" := "unexpected status code 404 when updating/creating/deleting the dashboard "
             +:+ dquote +:+ "a" +:+ dquote
             +:+ " at https://api.example/a, response body is body";
      "c" := "conversion failed"]} in
  let i : gmap string (list string) := {["b" := ["invalid"]]} in
  EvMergeResult "ns/res" Failed 1 nilSlice e i
    ∈ eventsOf (synchronizeViaApi "default" env r exampleResource upsert
                  "Creating/updating" 0%nat)
  ∧ (∀ name, is_Some (i !! name) -> e !! name = None)
  ∧ (∀ name msg, ({["c" := "conversion failed"]} : gmap string string) !! name = Some msg ->
       e !! name = Some msg).
Proof.
  intros env r e i.
  assert (Hin : EvMergeResult "ns/res" Failed 1 nilSlice e i
                  ∈ eventsOf (synchronizeViaApi "default" env r exampleResource upsert
                                "Creating/updating" 0%nat)).
  { apply list_elem_of_In. vm_compute. tauto. }
  split; [exact Hin|].
  refine (proj2 (synchronizeViaApi_disjoint "default" env r exampleResource upsert
                   "Creating/updating" 0%nat "ns/res" Failed 1 nilSlice e i _ _ Hin)).
  - intros req Hreq. apply list_elem_of_singleton in Hreq. subst req.
    split; reflexivity.
  - intros name [issue Hissue]. cbn in *.
    apply lookup_singleton_Some in Hissue as [<- _]. reflexivity.
Defined.

(** *** Status reporting *)

Lemma onErrorLoop_sleeps (p : Event -> bool) retriable fn :
  (∀ d, p (EvSleep d) = false) ->
  (∀ n, countEvents p (eventsOf (fn n)) = 1%nat) ->
  (∀ n, filter (λ e, isSleep e = true) (eventsOf (fn n)) = []) ->
  ∀ steps d factor lastErr n,
    filter (λ e, isSleep e = true)
      (eventsOf (onErrorLoop steps d factor retriable fn lastErr n))
    = EvSleep <$> backoffDurations
        (pred (countEvents p (eventsOf (onErrorLoop steps d factor retriable fn lastErr n))))
        d factor.
Proof.
  intros Hsleep Hone Hnosleep.
  induction steps as [|steps IH]; intros d factor lastErr n; [reflexivity|].
  destruct steps as [|steps].
  - cbn [onErrorLoop]. rewrite eventsOf_bind, countEvents_app, filter_app, Hone, Hnosleep.
    destruct (valueOf (fn n)) as [e|]; [destruct (retriable e)|]; reflexivity.
  - rewrite onErrorLoop_more.
    rewrite eventsOf_bind, countEvents_app, filter_app, Hone, Hnosleep.
    destruct (valueOf (fn n)) as [e|]; [destruct (retriable e)|]; try reflexivity.
    rewrite eventsOf_bind, countEvents_app, filter_app.
    cbn [timeSleep emit valueOf counterOf eventsOf fst snd].
    rewrite IH.
    rewrite (countEvents_sleep p d (Hsleep d)).
    destruct (onErrorLoop_tries p retriable fn Hsleep Hone steps
                (nextDuration d factor) factor (Some e) (counterOf (fn n)))
      as (last & -> & _).
    reflexivity.
Qed.


Lemma writeSynchronizationResultOnce_run env r m q result itemsTotal synchronized
    issues errors k :
  writeSynchronizationResultOnce env r m q result itemsTotal synchronized issues errors k
  = match k8sGet env k (MonitoringNamespace m) (MonitoringName m) with
    | inr err =>
        (Some err, S k,
         [EvGet (MonitoringNamespace m) (MonitoringName m);
          EvLog LevelError (MsgFetchOfMonitoringResourceFailed err)])
    | inl fetched =>
        let merged :=
          UpdateSynchronizationResultsInStatus r fetched q result itemsTotal synchronized
            errors issues in
        match k8sStatusUpdate env (S k) merged with
        | Some err =>
            (Some err, S (S k),
             [EvGet (MonitoringNamespace m) (MonitoringName m);
              EvMergeResult q result itemsTotal synchronized errors issues;
              EvStatusUpdate merged;
              EvLog LevelError (MsgStatusUpdateFailed err)])
        | None =>
            (None, S (S k),
             [EvGet (MonitoringNamespace m) (MonitoringName m);
              EvMergeResult q result itemsTotal synchronized errors issues;
              EvStatusUpdate merged;
              EvLog LevelInfo MsgStatusUpdated])
        end
    end.
Proof.
  unfold writeSynchronizationResultOnce, K8sClient_Get, K8sClient_Status_Update, remote,
    mbind, M_bind.
  destruct (k8sGet env k (MonitoringNamespace m) (MonitoringName m)) as [fetched|err];
    [|reflexivity].
  cbn. destruct (k8sStatusUpdate env (S k) _); reflexivity.
Qed.

Lemma countEvents_none p t :
  Forall (λ ev, p ev = false) t -> countEvents p t = 0%nat.
Proof.
  unfold countEvents. induction 1 as [|ev t Hev _ IH]; [reflexivity|].
  rewrite filter_cons, decide_False by congruence. exact IH.
Qed.


Lemma writeSynchronizationResultOnce_one_fetch env r m q result itemsTotal synchronized
    issues errors k :
  countEvents isGet
    (eventsOf (writeSynchronizationResultOnce env r m q result itemsTotal synchronized
                 issues errors k)) = 1%nat.
Proof.
  rewrite writeSynchronizationResultOnce_run.
  destruct (k8sGet _ _ _ _); [cbn zeta; destruct (k8sStatusUpdate _ _ _)|]; reflexivity.
Qed.

Lemma writeSynchronizationResult_no_http env r m obj itemsTotal synchronized issues errors n :
  countEvents isHttpDo
    (eventsOf (writeSynchronizationResult env r m obj itemsTotal synchronized issues
                 errors n)) = 0%nat.
Proof. apply countEvents_none. apply writeSynchronizationResult_events; reflexivity. Qed.

Lemma writeSynchronizationResult_fetches env r m obj itemsTotal synchronized issues errors n :
  (1 ≤ countEvents isGet
         (eventsOf (writeSynchronizationResult env r m obj itemsTotal synchronized issues
                      errors n)))%nat.
Proof.
  unfold writeSynchronizationResult. cbn zeta.
  rewrite eventsOf_bind, countEvents_app. unfold OnError.
  cbn [statusBackoff Steps Duration Factor].
  match goal with
  | |- context [onErrorLoop 3 ?d ?f ?rt ?fn None n] =>
      destruct (onErrorLoop_tries isGet rt fn ltac:(reflexivity)
                  ltac:(intros; apply writeSynchronizationResultOnce_one_fetch)
                  2%nat d f None n) as (last & Hcount & _)
  end.
  rewrite Hcount. lia.
Qed.


(** Every try fails: three fetches, sleeps of 1 s and 1.3 s, and the final
    failure as the last log entry. *)
Example writeSynchronizationResult_exhausted :
  writeSynchronizationResult (exampleEnv EmptyString (λ _, 200) (λ _, true))
    (exampleReconciler [] ∅ ∅) exampleMonitoring exampleResource 1 (mkSlice ["a"]) ∅ ∅ 0%nat
  = (tt, 3%nat,
     [EvGet "ns" "dash0";
      EvLog LevelError (MsgFetchOfMonitoringResourceFailed (GoError "conflict"));
      EvSleep 1000000000;
      EvGet "ns" "dash0";
      EvLog LevelError (MsgFetchOfMonitoringResourceFailed (GoError "conflict"));
      EvSleep 1300000000;
      EvGet "ns" "dash0";
      EvLog LevelError (MsgFetchOfMonitoringResourceFailed (GoError "conflict"));
      EvLog LevelError (MsgStatusUpdateFinallyFailed (GoError "conflict"))]).
Proof. vm_compute. reflexivity. Qed.

(** The write fails once on a conflict and succeeds on the second try. *)
Example writeSynchronizationResult_conflict_then_success :
  eventsOf (writeSynchronizationResult
              (exampleEnv EmptyString (λ _, 200) (λ n, (n =? 1)%nat))
              (exampleReconciler [] ∅ ∅) exampleMonitoring exampleResource 1
              (mkSlice ["a"]) ∅ ∅ 0%nat)
  = [EvGet "ns" "dash0";
     EvMergeResult "ns/res" Successful 1 (mkSlice ["a"]) ∅ ∅;
     EvStatusUpdate (exampleMerge exampleMonitoring "ns/res" Successful 1 (mkSlice ["a"]) ∅ ∅);
     EvLog LevelError (MsgStatusUpdateFailed (GoError "conflict"));
     EvSleep 1000000000;
     EvGet "ns" "dash0";
     EvMergeResult "ns/res" Successful 1 (mkSlice ["a"]) ∅ ∅;
     EvStatusUpdate (exampleMerge exampleMonitoring "ns/res" Successful 1 (mkSlice ["a"]) ∅ ∅);
     EvLog LevelInfo MsgStatusUpdated].
Proof. vm_compute. reflexivity. Qed.

(** *** Nothing to synchronize *)

(** When the checks pass and the mapping step returns neither requests nor
    issues nor errors, no HTTP request is sent, the "skipping" line is
    logged, and the attempt goes on to [writeSynchronizationResult]: the
    monitoring resource is fetched. *)
Lemma synchronizeViaApi_nothing_reaches_status D env r obj action actionLabel n itemsTotal :
  synchronizeResource (valueOf (validatePreconditions D env r obj n)) = true ->
  MapResourceToHttpRequests r (valueOf (validatePreconditions D env r obj n)) action
  = (itemsTotal, [], ∅, ∅) ->
  EvLog LevelInfo MsgNothingToSynchronize
    ∈ eventsOf (synchronizeViaApi D env r obj action actionLabel n)
  ∧ countEvents isHttpDo (eventsOf (synchronizeViaApi D env r obj action actionLabel n))
    = 0%nat
  ∧ (1 ≤ countEvents isGet (eventsOf (synchronizeViaApi D env r obj action actionLabel n)))%nat.
Proof.
  intros Hsync Hmapped.
  destruct (validatePreconditions_sets_resource D env r obj n Hsync) as (m & Hm).
  assert (Hevents :
    eventsOf (synchronizeViaApi D env r obj action actionLabel n)
    = eventsOf (validatePreconditions D env r obj n)
      ++ [EvLog LevelInfo MsgNothingToSynchronize]
      ++ []
      ++ [EvLog LevelInfo (MsgSynchronizationSummary itemsTotal 0 ∅ ∅)]
      ++ eventsOf (writeSynchronizationResult env r m obj itemsTotal nilSlice ∅ ∅
                     (counterOf (validatePreconditions D env r obj n)))).
  { rewrite synchronizeViaApi_events. cbn zeta. rewrite Hsync, Hmapped, Hm. reflexivity. }
  rewrite Hevents.
  pose proof (writeSynchronizationResult_no_http env r m obj itemsTotal nilSlice ∅ ∅
                (counterOf (validatePreconditions D env r obj n))) as Hhttp.
  pose proof (writeSynchronizationResult_fetches env r m obj itemsTotal nilSlice ∅ ∅
                (counterOf (validatePreconditions D env r obj n))) as Hgets.
  assert (Hpre : countEvents isHttpDo (eventsOf (validatePreconditions D env r obj n))
                 = 0%nat).
  { apply countEvents_none. apply validatePreconditions_events; reflexivity. }
  split; [|split].
  - apply elem_of_app. right. apply list_elem_of_here.
  - rewrite !countEvents_app, Hpre, Hhttp. reflexivity.
  - rewrite !countEvents_app. lia.
Qed.

(** C2, at a concrete input.  The mapping step returns nothing to
    synchronize.  No HTTP request is sent and the "skipping" line is logged,
    but the attempt is not skipped: the monitoring resource is fetched and
    its status is updated with the result [Failed] for the resource. *)
Theorem synchronizeViaApi_nothing_to_synchronize :
  synchronizeViaApi "default" (exampleEnv EmptyString (λ _, 200) (λ _, false))
    (exampleReconciler [] ∅ ∅) exampleResource upsert "Creating/updating" 0%nat
  = (tt, 2%nat,
     [EvCheck CheckMonitoringResource; EvCheck CheckSynchronizationEnabled;
      EvCheck CheckApiConfig; EvCheck CheckAuthToken;
      EvLog LevelInfo MsgNothingToSynchronize;
      EvLog LevelInfo (MsgSynchronizationSummary 0 0 ∅ ∅);
      EvGet "ns" "dash0";
      EvMergeResult "ns/res" Failed 0 nilSlice ∅ ∅;
      EvStatusUpdate (exampleMerge exampleMonitoring "ns/res" Failed 0 nilSlice ∅ ∅);
      EvLog LevelInfo MsgStatusUpdated]).
Proof. vm_compute. reflexivity. Qed.

(** *** Starting and stopping the watch *)

Example exampleSchedule_runs : run exampleSchedule initialSystem = Some exampleSystem.
Proof. vm_compute. reflexivity. Qed.

(** A caller that runs alone through the statements of
    [maybeStartWatchingThirdPartyResources] leaves the shared state that the
    function computes in one piece. *)
Lemma runCaller_maybeStart e caller isStartup s :
  runCaller 9 e caller isStartup AtLock s
  = maybeStartWatchingThirdPartyResources e caller isStartup s.
Proof.
  destruct s as [lk stop ctls removed lg].
  destruct e as [crd cfg newError wError].
  destruct lk as [holder|]; [reflexivity|].
  destruct stop as [c|]; [reflexivity|].
  destruct crd; [|reflexivity].
  destruct cfg as [[endpoint ds]|]; [|destruct isStartup; reflexivity].
  destruct endpoint as [|a endpoint]; [destruct isStartup; reflexivity|].
  destruct newError as [err|]; [reflexivity|].
  destruct wError as [err|]; reflexivity.
Qed.

(** C6.  Stopping while no stop function is registered changes nothing
    but the log, which gains the line that the attempt is ignored; starting
    while the watch is in place changes nothing at all.  Both calls return:
    no sub-controller is built, started or cancelled, no informer is
    removed, the stop function and the lock are as before. *)
Theorem stop_and_start_are_idempotent :
  (∀ removeInformerError caller s,
     lock s = None ->
     controllerStopFunction s = None ->
     ∃ s', stopWatchingThirdPartyResources removeInformerError caller s = Some s'
           ∧ sameLifecycleState s s'
           ∧ lifecycleLog s' = lifecycleLog s ++ [(LevelInfo, MsgIgnoringStop)])
  ∧ (∀ e caller isStartup s,
       lock s = None ->
       IsWatching s = true ->
       maybeStartWatchingThirdPartyResources e caller isStartup s = Some s).
Proof.
  split.
  - intros err caller [lk stop ctls removed lg] Hlock Hstop. cbn in *. subst lk stop.
    eexists. split; [reflexivity|]. repeat split.
  - intros e caller isStartup [lk stop ctls removed lg] Hlock Hwatching. cbn in *. subst lk.
    unfold maybeStartWatchingThirdPartyResources, maybeStartLocked. cbn.
    destruct stop; [reflexivity|discriminate].
Qed.

Lemma stop_and_start_are_idempotent_witness :
  (∃ s', stopWatchingThirdPartyResources None 7 initialLifecycle = Some s'
         ∧ sameLifecycleState initialLifecycle s'
         ∧ lifecycleLog s' = lifecycleLog initialLifecycle ++ [(LevelInfo, MsgIgnoringStop)])
  ∧ maybeStartWatchingThirdPartyResources exampleStartEnv 7 false (lifecycle exampleSystem)
    = Some (lifecycle exampleSystem).
Proof.
  split.
  - apply (proj1 stop_and_start_are_idempotent); reflexivity.
  - apply (proj2 stop_and_start_are_idempotent); reflexivity.
Defined.

(** *** At most one active sub-controller *)

Lemma callerInvariant_outside pc s : ¬ inCriticalSection pc -> callerInvariant pc s.
Proof. destruct pc; cbn; tauto. Qed.

Lemma callerInvariant_transfer pc s s' :
  controllerStopFunction s' = controllerStopFunction s ->
  (∀ c, isCreated c s -> isCreated c s') ->
  callerInvariant pc s -> callerInvariant pc s'.
Proof.
  intros Hstop Hcreated. destruct pc; cbn; rewrite ?Hstop; try tauto.
  all: intros [? ?]; split; auto.
Qed.

Lemma setControllerState_controllers c st s ctl :
  controllers s !! c = Some ctl ->
  setControllerState c st s
  = setControllers (<[c := mkController st (cancelled ctl)]> (controllers s)) s.
Proof. intros H. unfold setControllerState. rewrite H. reflexivity. Qed.

Lemma initial_invariant : LifecycleInvariant initialSystem.
Proof.
  split; cbn.
  - intros c ctl H. by rewrite lookup_nil in H.
  - intros t th H. by rewrite lookup_nil in H.
  - intros t th H. by rewrite lookup_nil in H.
Qed.

(** One statement of the lock holder, seen from the shared state. *)
Lemma advance_local e t isStartup pc s pc' s' :
  advance e t isStartup pc s = Some (pc', s') ->
  (∀ c ctl, controllers s !! c = Some ctl -> isLive ctl ->
            controllerStopFunction s = Some c) ->
  callerInvariant pc s ->
  (inCriticalSection pc -> lock s = Some t) ->
  (∀ c ctl, controllers s' !! c = Some ctl -> isLive ctl ->
            controllerStopFunction s' = Some c)
  ∧ (inCriticalSection pc' -> lock s' = Some t)
  ∧ callerInvariant pc' s'.
Proof.
  intros Hadv Hlive Hinv Hlock.
  destruct pc; cbn [advance] in Hadv.
  - (* AtLock *)
    destruct (lock s); [discriminate|]. injection Hadv as <- <-. cbn. auto.
  - (* AtIsWatching *)
    unfold IsWatching in Hadv.
    remember (controllerStopFunction s) as registered eqn:Hstop in Hadv.
    destruct registered; injection Hadv as <- <-; cbn; auto.
  - (* AtDoesCrdExist *)
    destruct (negb (DoesCrdExist e)); injection Hadv as <- <-; cbn in *; auto.
  - (* AtLoadApiConfig *)
    destruct (negb (isValidApiConfig (GetApiConfig e))); injection Hadv as <- <-;
      [destruct (negb isStartup)|]; cbn in *; auto.
  - (* AtNewTypedUnmanaged *)
    destruct (newTypedUnmanagedError e); injection Hadv as <- <-; cbn in *; [auto|].
    split; [|split; [auto|split; [assumption|]]].
    + intros c ctl Hc Hl. apply lookup_snoc_Some in Hc as [[_ Hc]|[_ <-]].
      * eapply Hlive; eauto.
      * destruct Hl.
    + exists (mkController Created false). split; [|reflexivity].
      by apply list_lookup_middle.
  - (* AtWatch *)
    destruct (watchError e); injection Hadv as <- <-; cbn in *; auto.
  - (* AtSetStopFunction *)
    injection Hadv as <- <-. cbn in *. destruct Hinv as [Hnone Hcreated].
    split; [|auto].
    intros c ctl Hc Hl. rewrite (Hlive c ctl Hc Hl) in Hnone. discriminate.
  - (* AtGo *)
    injection Hadv as <- <-. cbn in Hinv. destruct Hinv as [Hstop (ctl0 & Hctl0 & Hstate)].
    rewrite (setControllerState_controllers _ _ _ _ Hctl0). cbn.
    split; [|auto].
    intros c ctl Hc Hl.
    apply list_lookup_insert_Some in Hc as [(<- & _ & _)|(_ & Hc)]; [exact Hstop|].
    eapply Hlive; eauto.
  - (* AtUnlock *)
    injection Hadv as <- <-. cbn. tauto.
  - (* Returned *)
    discriminate.
Qed.

(** While one caller can move, every other caller is outside the critical
    section. *)
Lemma advance_others_outside e sys t th pc' s' :
  LifecycleInvariant sys ->
  callers sys !! t = Some th ->
  advance e t (callerIsStartup th) (callerAt th) (lifecycle sys) = Some (pc', s') ->
  ∀ t' th', t' ≠ t -> callers sys !! t' = Some th' -> ¬ inCriticalSection (callerAt th').
Proof.
  intros Hinv Ht Hadv t' th' Hne Ht' Hcs.
  pose proof (critical_section_is_locked sys Hinv t' th' Ht' Hcs) as Hlock'.
  destruct (callerAt th) eqn:Hpc; cbn [advance] in Hadv;
    try (rewrite Hlock' in Hadv; discriminate Hadv); try discriminate Hadv.
  all: assert (Hlock : lock (lifecycle sys) = Some t)
         by (apply (critical_section_is_locked sys Hinv t th Ht); rewrite Hpc; exact I).
  all: congruence.
Qed.

Lemma step_preserves_invariant a sys sys' :
  LifecycleInvariant sys -> step a sys = Some sys' -> LifecycleInvariant sys'.
Proof.
  intros Hinv Hstep. destruct a as [isStartup|t e|c err|c]; cbn [step] in Hstep.
  - (* a further call *)
    injection Hstep as <-. destruct Hinv as [Hlive Hlock Hcallers]. split; cbn.
    + exact Hlive.
    + intros t th Ht Hcs. apply lookup_snoc_Some in Ht as [[_ Ht]|[_ <-]]; [eauto|].
      destruct Hcs.
    + intros t th Ht. apply lookup_snoc_Some in Ht as [[_ Ht]|[_ <-]]; [eauto|].
      exact I.
  - (* a caller executes a statement *)
    destruct (callers sys !! t) as [th|] eqn:Ht; [|discriminate]. cbn in Hstep.
    destruct (advance e t (callerIsStartup th) (callerAt th) (lifecycle sys))
      as [[pc' s']|] eqn:Hadv; [|discriminate]. cbn in Hstep. injection Hstep as <-.
    pose proof (advance_others_outside e sys t th pc' s' Hinv Ht Hadv) as Hothers.
    destruct (advance_local _ _ _ _ _ _ _ Hadv
                (live_is_registered sys Hinv)
                (callers_invariant sys Hinv t th Ht)
                (critical_section_is_locked sys Hinv t th Ht))
      as (Hlive' & Hlock' & Hcaller').
    split; cbn.
    + exact Hlive'.
    + intros t' th' Ht' Hcs.
      apply list_lookup_insert_Some in Ht' as [(<- & <- & _)|(Hne & Ht')].
      * auto.
      * exfalso. eapply Hothers; eauto.
    + intros t' th' Ht'.
      apply list_lookup_insert_Some in Ht' as [(<- & <- & _)|(Hne & Ht')].
      * exact Hcaller'.
      * apply callerInvariant_outside. eapply Hothers; eauto.
  - (* Start returns *)
    destruct (controllers (lifecycle sys) !! c) as [ctl|] eqn:Hc; [|discriminate].
    cbn in Hstep. destruct (controllerState ctl) eqn:Hstate; try discriminate.
    injection Hstep as <-. destruct Hinv as [Hlive Hlock Hcallers].
    assert (Hreg : controllerStopFunction (lifecycle sys) = Some c).
    { apply (Hlive c ctl Hc). unfold isLive. rewrite Hstate. exact I. }
    rewrite (setControllerState_controllers _ _ _ _ Hc). split; cbn.
    + intros c' ctl' Hc' Hl.
      apply list_lookup_insert_Some in Hc' as [(<- & _ & _)|(_ & Hc')]; [exact Hreg|].
      eauto.
    + exact Hlock.
    + intros t th Ht. eapply callerInvariant_transfer; [| |exact (Hcallers t th Ht)].
      * reflexivity.
      * intros k (ctlk & Hk & Hcreated). exists ctlk. split; [|exact Hcreated]. cbn.
        rewrite list_lookup_insert_ne; [exact Hk|]. intros ->. congruence.
  - (* the goroutine clears the stop function *)
    destruct (controllers (lifecycle sys) !! c) as [ctl|] eqn:Hc; [|discriminate].
    cbn in Hstep. destruct (controllerState ctl) as [| |err|] eqn:Hstate; try discriminate.
    injection Hstep as <-. destruct Hinv as [Hlive Hlock Hcallers].
    assert (Hreg : controllerStopFunction (lifecycle sys) = Some c).
    { apply (Hlive c ctl Hc). unfold isLive. rewrite Hstate. exact I. }
    assert (Hc2 : controllers
                    (match err with
                     | Some err0 =>
                         logLifecycle LevelError (MsgUnableToStartController err0)
                           (SetControllerStopFunction None (lifecycle sys))
                     | None =>
                         logLifecycle LevelInfo MsgControllerStopped
                           (SetControllerStopFunction None (lifecycle sys))
                     end) !! c = Some ctl) by (destruct err; exact Hc).
    rewrite (setControllerState_controllers _ _ _ _ Hc2).
    assert (Hnotcreated : ∀ k, isCreated k (lifecycle sys) -> k ≠ c).
    { intros k (ctlk & Hk & Hcreated) ->. congruence. }
    split.
    + intros c' ctl' Hc' Hl. exfalso. destruct err; cbn in Hc'.
      all: apply list_lookup_insert_Some in Hc' as [(<- & <- & _)|(Hne & Hc')];
        [destruct Hl|].
      all: pose proof (Hlive c' ctl' Hc' Hl); congruence.
    + intros t th Ht Hcs. destruct err; cbn; eauto.
    + intros t th Ht. specialize (Hcallers t th Ht). cbn [callers] in *.
      assert (Htransfer : ∀ k, isCreated k (lifecycle sys) ->
                isCreated k (setControllers
                               (<[c := mkController Finished (cancelled ctl)]>
                                  (controllers
                                     (match err with
                                      | Some err0 =>
                                          logLifecycle LevelError
                                            (MsgUnableToStartController err0)
                                            (SetControllerStopFunction None (lifecycle sys))
                                      | None =>
                                          logLifecycle LevelInfo MsgControllerStopped
                                            (SetControllerStopFunction None (lifecycle sys))
                                      end)))
                               (match err with
                                | Some err0 =>
                                    logLifecycle LevelError
                                      (MsgUnableToStartController err0)
                                      (SetControllerStopFunction None (lifecycle sys))
                                | None =>
                                    logLifecycle LevelInfo MsgControllerStopped
                                      (SetControllerStopFunction None (lifecycle sys))
                                end))).
      { intros k Hk. pose proof (Hnotcreated k Hk) as Hne.
        destruct Hk as (ctlk & Hk & Hcreated). exists ctlk. split; [|exact Hcreated].
        destruct err; cbn; rewrite list_lookup_insert_ne by congruence; exact Hk. }
      destruct (callerAt th); cbn in *; try exact I;
        try (destruct err; reflexivity);
        try (destruct Hcallers as [Hstop Hcreated]; split;
             [destruct err; reflexivity|by apply Htransfer]).
      destruct Hcallers as [Hstop Hcreated]. exfalso.
      apply (Hnotcreated _ Hcreated). congruence.
Qed.

Lemma run_preserves_invariant actions :
  ∀ sys sys', LifecycleInvariant sys -> run actions sys = Some sys' ->
              LifecycleInvariant sys'.
Proof.
  induction actions as [|a rest IH]; intros sys sys' Hinv Hrun; cbn [run] in Hrun.
  - injection Hrun as <-. exact Hinv.
  - destruct (step a sys) as [sys1|] eqn:Hstep; [|discriminate].
    eapply IH; [|exact Hrun]. eapply step_preserves_invariant; eauto.
Qed.

Lemma filter_at_most_one {A} (P : A -> Prop) `{∀ x, Decision (P x)} (l : list A) :
  (∀ i j x y, l !! i = Some x -> l !! j = Some y -> P x -> P y -> i = j) ->
  (length (filter P l) ≤ 1)%nat.
Proof.
  induction l as [|x l IH]; intros Huniq; [cbn; lia|].
  rewrite filter_cons. destruct (decide (P x)) as [Hx|Hx].
  - assert (Hnil : filter P l = []).
    { destruct (filter P l) as [|y rest] eqn:Hf; [reflexivity|].
      assert (Hy : y ∈ filter P l) by (rewrite Hf; apply list_elem_of_here).
      apply list_elem_of_filter in Hy as [Hy Hin].
      apply list_elem_of_lookup in Hin as [j Hj].
      specialize (Huniq 0%nat (S j) x y eq_refl Hj Hx Hy). discriminate. }
    rewrite Hnil. cbn. lia.
  - apply IH. intros i j a b Hi Hj Ha Hb.
    specialize (Huniq (S i) (S j) a b Hi Hj Ha Hb). lia.
Qed.

(** As long as [stopWatchingThirdPartyResources] has not been called:
    whatever calls of [maybeStartWatchingThirdPartyResources] are triggered
    and however their statements and the goroutines of the sub-controllers
    interleave, at most one sub-controller is running at any moment, and a
    running sub-controller is the one whose stop function is registered. *)
Theorem at_most_one_active_controller (actions : list Action) (sys : System) :
  run actions initialSystem = Some sys ->
  (activeControllers (lifecycle sys) ≤ 1)%nat
  ∧ (∀ c ctl, controllers (lifecycle sys) !! c = Some ctl -> isRunning ctl = true ->
              controllerStopFunction (lifecycle sys) = Some c).
Proof.
  intros Hrun.
  pose proof (run_preserves_invariant actions _ _ initial_invariant Hrun) as Hinv.
  assert (Hreg : ∀ c ctl, controllers (lifecycle sys) !! c = Some ctl ->
                          isRunning ctl = true ->
                          controllerStopFunction (lifecycle sys) = Some c).
  { intros c ctl Hc Hr. apply (live_is_registered sys Hinv c ctl Hc).
    unfold isRunning in Hr. unfold isLive.
    destruct (controllerState ctl); try discriminate. exact I. }
  split; [|exact Hreg].
  unfold activeControllers. apply filter_at_most_one.
  intros i j x y Hi Hj Hx Hy.
  pose proof (Hreg i x Hi Hx) as H1. pose proof (Hreg j y Hj Hy) as H2. congruence.
Qed.

Lemma at_most_one_active_controller_witness :
  (activeControllers (lifecycle exampleSystem) ≤ 1)%nat
  ∧ (∀ c ctl, controllers (lifecycle exampleSystem) !! c = Some ctl ->
              isRunning ctl = true ->
              controllerStopFunction (lifecycle exampleSystem) = Some c).
Proof.
  apply (at_most_one_active_controller exampleSchedule exampleSystem).
  vm_compute. reflexivity.
Defined.

(** C5, at a concrete schedule.  A start, a stop and a second start leave
    the first sub-controller cancelled but still inside [Start], and the
    stop function of the second registered.  Two calls of
    [maybeStartWatchingThirdPartyResources] are then triggered.  The first
    takes the lock; the goroutine of the cancelled sub-controller returns
    from [Start] and clears the stop function, which it does without the
    lock and without looking whose it is (lines 342-350): it is the
    successor's.  The caller finds [IsWatching] false and builds and starts
    a third sub-controller; the second caller finds the watch in place.
    At the end two sub-controllers run with contexts that have not been
    cancelled, and the stop function of only one of them is registered, so
    the other can no longer be stopped. *)
Theorem two_active_controllers_after_restart :
  (s1 ← maybeStartWatchingThirdPartyResources exampleStartEnv 0 true initialLifecycle;
   s2 ← stopWatchingThirdPartyResources None 1 s1;
   maybeStartWatchingThirdPartyResources exampleStartEnv 2 false s2)
  = Some exampleRestarted
  ∧ ∃ sys,
      run ([Call false; Call true; Advance 0 exampleStartEnv;
            StartReturns 0 None; GoroutineClears 0]
           ++ replicate 8 (Advance 0 exampleStartEnv)
           ++ replicate 3 (Advance 1 exampleStartEnv))
        {| lifecycle := exampleRestarted; callers := [] |}
      = Some sys
      ∧ callers sys = [mkCaller false Returned; mkCaller true Returned]
      ∧ lock (lifecycle sys) = None
      ∧ controllers (lifecycle sys)
        = [mkController Finished true; mkController Running false;
           mkController Running false]
      ∧ controllerStopFunction (lifecycle sys) = Some 2%nat
      ∧ activeControllers (lifecycle sys) = 2%nat.
Proof.
  split; [reflexivity|]. eexists. split; [vm_compute; reflexivity|].
  vm_compute. repeat split.
Qed.

(** The sub-controller of the example is running; and after a
    sub-controller has failed to start and its goroutine has cleared the
    stop function, a later call starts a second one. *)
Example one_controller_is_active :
  activeControllers (lifecycle exampleSystem) = 1%nat
  ∧ (lifecycle
       <$> run (exampleSchedule
                ++ [StartReturns 0 (Some (GoError "cache not synced")); GoroutineClears 0;
                    Call false]
                ++ replicate 9 (Advance 2 exampleStartEnv)) initialSystem)
    = Some {| lock := None;
              controllerStopFunction := Some 1%nat;
              controllers := [mkController Finished false; mkController Running false];
              informersRemoved := 0;
              lifecycleLog :=
                [ (LevelInfo, MsgWillWatch); (LevelInfo, MsgSettingUpWatch);
                  (LevelInfo, MsgCreatedController); (LevelInfo, MsgCreatedWatch);
                  (LevelError, MsgUnableToStartController (GoError "cache not synced"));
                  (LevelInfo, MsgWillWatch); (LevelInfo, MsgSettingUpWatch);
                  (LevelInfo, MsgCreatedController); (LevelInfo, MsgCreatedWatch) ] |}.
Proof. vm_compute. split; reflexivity. Qed.

(** ** Further properties of the synchronization engine *)

(** *** A failed precondition ends the attempt *)

Lemma validatePreconditions_counter D env r obj n :
  counterOf (validatePreconditions D env r obj n) = n.
Proof.
  rewrite validatePreconditions_run.
  destruct (findUniqueOrMostRecentResourceInScope env (GetNamespace obj)) as [[m|] [e|]];
    try reflexivity.
  destruct (negb _); [reflexivity|].
  destruct (validApiConfig _); [|reflexivity].
  destruct (String.eqb _ _); reflexivity.
Qed.

Lemma validatePreconditions_one_log_on_failure D env r obj n :
  synchronizeResource (valueOf (validatePreconditions D env r obj n)) = false ->
  length (logOf (eventsOf (validatePreconditions D env r obj n))) = 1%nat.
Proof.
  rewrite validatePreconditions_run.
  destruct (findUniqueOrMostRecentResourceInScope env (GetNamespace obj)) as [[m|] [e|]];
    try reflexivity.
  destruct (negb _); [reflexivity|].
  destruct (validApiConfig _); [|reflexivity].
  destruct (String.eqb _ _); [reflexivity|discriminate].
Qed.

Lemma validatePreconditions_fails D env r obj n :
  (findUniqueOrMostRecentResourceInScope env (GetNamespace obj)).2 ≠ None
  ∨ (findUniqueOrMostRecentResourceInScope env (GetNamespace obj)).1 = None
  ∨ (∃ m, (findUniqueOrMostRecentResourceInScope env (GetNamespace obj)).1 = Some m
          ∧ IsSynchronizationEnabled r m = false)
  ∨ isValidApiConfig (loadApiConfig env) = false
  ∨ GetAuthToken r = EmptyString ->
  synchronizeResource (valueOf (validatePreconditions D env r obj n)) = false.
Proof.
  intros Hfail. rewrite validatePreconditions_run.
  destruct (findUniqueOrMostRecentResourceInScope env (GetNamespace obj)) as [[m|] [e|]];
    try reflexivity.
  destruct (IsSynchronizationEnabled r m) eqn:Hen; [|reflexivity]. cbn [negb].
  destruct (validApiConfig (loadApiConfig env)) as [cfg|] eqn:Hcfg; [|reflexivity].
  destruct (String.eqb_spec (GetAuthToken r) EmptyString) as [Htok|Htok]; [reflexivity|].
  exfalso. cbn in Hfail.
  destruct Hfail as [H|[H|[(m' & Hm' & Hdis)|[H|H]]]]; try congruence.
  apply validApiConfig_None in H. congruence.
Qed.

(** X1.  When a precondition fails (the lookup of the monitoring resource
    fails or finds none, synchronization is disabled, the API configuration
    is missing or has no endpoint, or the auth token is empty), the attempt
    consists of the precondition checks and their one log entry: no HTTP
    request is sent, the monitoring resource is neither fetched nor
    written, and the call counter does not move. *)
Theorem synchronizeViaApi_precondition_failure
    (D : string) (env : Env) (r : ThirdPartyResourceReconciler) (obj : ClientObject)
    (action : apiAction) (actionLabel : string) (n : nat) :
  (findUniqueOrMostRecentResourceInScope env (GetNamespace obj)).2 ≠ None
  ∨ (findUniqueOrMostRecentResourceInScope env (GetNamespace obj)).1 = None
  ∨ (∃ m, (findUniqueOrMostRecentResourceInScope env (GetNamespace obj)).1 = Some m
          ∧ IsSynchronizationEnabled r m = false)
  ∨ isValidApiConfig (loadApiConfig env) = false
  ∨ GetAuthToken r = EmptyString ->
  synchronizeViaApi D env r obj action actionLabel n
  = (tt, n, eventsOf (validatePreconditions D env r obj n))
  ∧ countEvents isHttpDo (eventsOf (synchronizeViaApi D env r obj action actionLabel n))
    = 0%nat
  ∧ countEvents isGet (eventsOf (synchronizeViaApi D env r obj action actionLabel n))
    = 0%nat
  ∧ countEvents isStatusUpdate
      (eventsOf (synchronizeViaApi D env r obj action actionLabel n)) = 0%nat
  ∧ length (logOf (eventsOf (synchronizeViaApi D env r obj action actionLabel n))) = 1%nat.
Proof.
  intros Hfail. apply (validatePreconditions_fails D env r obj n) in Hfail.
  assert (Hrun : synchronizeViaApi D env r obj action actionLabel n
                 = (tt, n, eventsOf (validatePreconditions D env r obj n))).
  { unfold synchronizeViaApi. unfold mbind at 1. unfold M_bind.
    pose proof (validatePreconditions_counter D env r obj n) as Hc.
    unfold valueOf, counterOf, eventsOf in *.
    destruct (validatePreconditions D env r obj n) as [[pre n1] t1]. cbn in *.
    rewrite Hfail. cbn. rewrite app_nil_r. congruence. }
  rewrite Hrun. cbn [eventsOf snd].
  repeat split.
  - apply countEvents_none. apply validatePreconditions_events; reflexivity.
  - apply countEvents_none. apply validatePreconditions_events; reflexivity.
  - apply countEvents_none. apply validatePreconditions_events; reflexivity.
  - by apply validatePreconditions_one_log_on_failure.
Qed.

Lemma synchronizeViaApi_precondition_failure_witness :
  countEvents isHttpDo
    (eventsOf (synchronizeViaApi "default"
                 (mkEnv None (λ _, (Some exampleMonitoring, None)) (λ _ _, inl (GoError "down"))
                    (λ _ _ _, inr (GoError "down")) (λ _ _, None))
                 (exampleReconciler [requestFor "a"] ∅ ∅) exampleResource upsert
                 "Creating/updating" 0%nat)) = 0%nat.
Proof.
  apply (synchronizeViaApi_precondition_failure "default"
           (mkEnv None (λ _, (Some exampleMonitoring, None)) (λ _ _, inl (GoError "down"))
              (λ _ _ _, inr (GoError "down")) (λ _ _, None))
           (exampleReconciler [requestFor "a"] ∅ ∅) exampleResource upsert
           "Creating/updating" 0%nat).
  right. right. right. left. reflexivity.
Defined.

(** *** All requests, without assumptions on the item names *)

Lemma succeededNames_cons name o outcomes :
  succeededNames ((name, o) :: outcomes)
  = match o with
    | None => name :: succeededNames outcomes
    | Some _ => succeededNames outcomes
    end.
Proof. destruct o; reflexivity. Qed.

Lemma failures_cons name o outcomes :
  failures ((name, o) :: outcomes)
  = match o with
    | None => failures outcomes
    | Some e => (name, e) :: failures outcomes
    end.
Proof. destruct o; reflexivity. Qed.

Lemma executeRequestsFrom_exact env r actionLabel requests :
  ∀ s0 h0 n,
    valueOf (executeRequestsFrom env r requests actionLabel s0 h0 n)
    = (match succeededNames
               (outcomesOf (λ req, executeSingleHttpRequestWithRetry env r req actionLabel)
                  requests n) with
       | [] => s0
       | names => mkSlice (elemsOf s0 ++ names)
       end,
       recordFailures h0
         (failures (outcomesOf (λ req, executeSingleHttpRequestWithRetry env r req actionLabel)
                      requests n))).
Proof.
  induction requests as [|req rest IH]; intros s0 h0 n; [reflexivity|].
  rewrite executeRequestsFrom_cons, IH. cbn [outcomesOf].
  rewrite succeededNames_cons, failures_cons.
  destruct (valueOf (executeSingleHttpRequestWithRetry env r req actionLabel n)) as [e|];
    [reflexivity|].
  f_equal. unfold append. cbn [elemsOf].
  destruct (succeededNames _) as [|name names].
  - reflexivity.
  - rewrite <- app_assoc. reflexivity.
Qed.

(** The value of [executeAllHttpRequests] in terms of the outcomes of the
    requests. *)
Lemma executeAllHttpRequests_outcomes
    (env : Env) (r : ThirdPartyResourceReconciler)
    (requests : list HttpRequestWithItemName) (actionLabel : string) (n : nat) :
  valueOf (executeAllHttpRequests env r requests actionLabel n)
  = (match succeededNames
             (outcomesOf (λ req, executeSingleHttpRequestWithRetry env r req actionLabel)
                requests n) with
     | [] => nilSlice
     | names => mkSlice names
     end,
     recordFailures ∅
       (failures (outcomesOf (λ req, executeSingleHttpRequestWithRetry env r req actionLabel)
                    requests n))).
Proof.
  rewrite executeAllHttpRequests_value, executeRequestsFrom_exact. cbn zeta. cbn [fst snd].
  destruct (succeededNames _) as [|name names]; reflexivity.
Qed.

(** X2.  [executeAllHttpRequests] returns exactly this: the names of the
    requests that returned no error, in the order of the requests and as
    often as they occur (the nil slice when there is none), and the map
    obtained by writing the message of every error under its item name, one
    request after the other, so that for a repeated name the error of the
    last failing request stays. *)
Theorem executeAllHttpRequests_exact
    (env : Env) (r : ThirdPartyResourceReconciler)
    (requests : list HttpRequestWithItemName) (actionLabel : string) (n : nat) :
  valueOf (executeAllHttpRequests env r requests actionLabel n)
  = (match succeededNames
             (outcomesOf (λ req, executeSingleHttpRequestWithRetry env r req actionLabel)
                requests n) with
     | [] => nilSlice
     | names => mkSlice names
     end,
     recordFailures ∅
       (failures (outcomesOf (λ req, executeSingleHttpRequestWithRetry env r req actionLabel)
                    requests n))).
Proof. apply executeAllHttpRequests_outcomes. Qed.

Example executeAllHttpRequests_repeated_name :
  valueOf (executeAllHttpRequests
             (exampleEnv EmptyString (λ n, if (n =? 0)%nat then 200 else 404) (λ _, false))
             (exampleReconciler [] ∅ ∅) [requestFor "a"; requestFor "a"]
             "Creating/updating" 0%nat)
  = (mkSlice ["a"],
     {["a" := "unexpected status code 404 when updating/creating/deleting the dashboard "
              +:+ dquote +:+ "a" +:+ dquote
              +:+ " at https://api.example/a, response body is body"]}).
Proof. vm_compute. reflexivity. Qed.

(** *** The requests on the wire *)

Lemma filter_all_equal {A} (P : A -> Prop) `{∀ x, Decision (P x)} (x : A) (l : list A) :
  Forall (λ e, P e -> e = x) l -> filter P l = replicate (length (filter P l)) x.
Proof.
  induction 1 as [|e l He _ IH]; [reflexivity|].
  rewrite filter_cons. destruct (decide (P e)) as [Hp|Hp]; [|exact IH].
  cbn. rewrite <- IH, (He Hp). reflexivity.
Qed.

Lemma executeSingleHttpRequestWithRetry_wire env r req actionLabel n :
  ∃ k, (1 ≤ k ≤ 3)%nat
       ∧ filter (λ e, isHttpDo e = true)
           (eventsOf (executeSingleHttpRequestWithRetry env r req actionLabel n))
         = replicate k (EvHttpDo req).
Proof.
  exists (countEvents isHttpDo
            (eventsOf (executeSingleHttpRequestWithRetry env r req actionLabel n))).
  split.
  - destruct (onErrorLoop_tries isHttpDo isRetryable (executeSingleHttpRequest env r req)
                ltac:(reflexivity) (executeSingleHttpRequest_one_request env r req)
                2%nat (GetHttpRetryDelay r) (3 # 2) None n) as (last & Hcount & Hle & _).
    assert (Hc : countEvents isHttpDo
                   (eventsOf (executeSingleHttpRequestWithRetry env r req actionLabel n))
                 = S last).
    { unfold executeSingleHttpRequestWithRetry.
      rewrite eventsOf_bind, countEvents_app. exact Hcount. }
    rewrite Hc. lia.
  - unfold countEvents. apply filter_all_equal.
    unfold executeSingleHttpRequestWithRetry. rewrite eventsOf_bind.
    apply Forall_app. split; [cbn; constructor; [discriminate|constructor]|].
    apply onErrorLoop_events; [discriminate|].
    intros k. rewrite executeSingleHttpRequest_run.
    destruct (httpDo env k (Request req)) as [err|res].
    + cbn. repeat constructor; discriminate.
    + destruct (_ || _); [destruct (_ && _)|]; cbn; repeat constructor; discriminate.
Qed.

Lemma executeRequestsFrom_wire env r actionLabel requests :
  ∀ s0 h0 n,
    ∃ counts,
      length counts = length requests
      ∧ Forall (λ k, (1 ≤ k ≤ 3)%nat) counts
      ∧ filter (λ e, isHttpDo e = true)
          (eventsOf (executeRequestsFrom env r requests actionLabel s0 h0 n))
        = concat (zip_with (λ req k, replicate k (EvHttpDo req)) requests counts).
Proof.
  induction requests as [|req rest IH]; intros s0 h0 n.
  - exists []. repeat split. constructor.
  - cbn [executeRequestsFrom]. rewrite eventsOf_bind, filter_app.
    destruct (executeSingleHttpRequestWithRetry_wire env r req actionLabel n)
      as (k & Hk & Hwire).
    rewrite Hwire.
    destruct (valueOf (executeSingleHttpRequestWithRetry env r req actionLabel n)) as [e|].
    + destruct (IH s0 (<[ItemName req := Error e]> h0)
                  (counterOf (executeSingleHttpRequestWithRetry env r req actionLabel n)))
        as (counts & Hlen & Hall & Hrest).
      exists (k :: counts). rewrite Hrest. cbn. repeat split; auto.
    + destruct (IH (append s0 (ItemName req)) h0
                  (counterOf (executeSingleHttpRequestWithRetry env r req actionLabel n)))
        as (counts & Hlen & Hall & Hrest).
      exists (k :: counts). rewrite Hrest. cbn. repeat split; auto.
Qed.

(** X3.  The HTTP requests leave in the order of the list; every request
    is sent at least once and at most three times, and all attempts for
    one request are made before the next request is touched, whatever the
    outcome of the other requests. *)
Theorem executeAllHttpRequests_wire
    (env : Env) (r : ThirdPartyResourceReconciler)
    (requests : list HttpRequestWithItemName) (actionLabel : string) (n : nat) :
  ∃ counts,
    length counts = length requests
    ∧ Forall (λ k, (1 ≤ k ≤ 3)%nat) counts
    ∧ filter (λ e, isHttpDo e = true)
        (eventsOf (executeAllHttpRequests env r requests actionLabel n))
      = concat (zip_with (λ req k, replicate k (EvHttpDo req)) requests counts).
Proof.
  destruct (executeRequestsFrom_wire env r actionLabel requests (mkSlice []) ∅ n)
    as (counts & Hlen & Hall & Hwire).
  exists counts. split; [exact Hlen|]. split; [exact Hall|].
  unfold executeAllHttpRequests. rewrite eventsOf_bind, filter_app, Hwire.
  destruct (valueOf _) as [s h]. cbn. apply app_nil_r.
Qed.

(** *** Counting the outcomes *)

Lemma outcomes_split_length (outcomes : list (string * option error)) :
  (length (succeededNames outcomes) + length (failures outcomes))%nat = length outcomes.
Proof.
  induction outcomes as [|[name o] rest IH]; [reflexivity|].
  rewrite succeededNames_cons, failures_cons. destruct o; cbn; lia.
Qed.

Lemma outcomesOf_length exec requests n :
  length (outcomesOf exec requests n) = length requests.
Proof.
  revert n. induction requests as [|req rest IH]; intros n; [reflexivity|].
  cbn. rewrite IH. reflexivity.
Qed.

Lemma recordFailures_size (outcomes : list (string * option error)) :
  ∀ h : gmap string string,
    NoDup outcomes.*1 ->
    (∀ name, name ∈ outcomes.*1 -> h !! name = None) ->
    size (recordFailures h (failures outcomes)) = (size h + length (failures outcomes))%nat.
Proof.
  induction outcomes as [|[name o] rest IH]; intros h Hnodup Hfresh.
  - cbn. lia.
  - rewrite fmap_cons in Hnodup. apply NoDup_cons in Hnodup as [Hname Hnodup].
    rewrite failures_cons. destruct o as [e|].
    + cbn [recordFailures foldl length fst snd].
      fold (recordFailures (<[name := Error e]> h) (failures rest)).
      rewrite IH; [| exact Hnodup |].
      * rewrite map_size_insert_None; [lia|]. apply Hfresh. cbn. apply list_elem_of_here.
      * intros k Hk. rewrite lookup_insert_ne.
        -- apply Hfresh. cbn. by apply list_elem_of_further.
        -- intros ->. contradiction.
    + apply IH; [exact Hnodup|]. intros k Hk. apply Hfresh. cbn.
      by apply list_elem_of_further.
Qed.

(** X4.  When the item names of the requests are pairwise distinct, every
    request is accounted for once: the number of synchronized items plus
    the number of entries of the error map is the number of requests. *)
Theorem executeAllHttpRequests_accounts_for_all
    (env : Env) (r : ThirdPartyResourceReconciler)
    (requests : list HttpRequestWithItemName) (actionLabel : string) (n : nat) :
  NoDup (ItemName <$> requests) ->
  (len (valueOf (executeAllHttpRequests env r requests actionLabel n)).1
   + lenMap (valueOf (executeAllHttpRequests env r requests actionLabel n)).2)%Z
  = Z.of_nat (length requests).
Proof.
  intros Hnodup. rewrite executeAllHttpRequests_outcomes. cbn [fst snd].
  set (outcomes := outcomesOf (λ req, executeSingleHttpRequestWithRetry env r req actionLabel)
                     requests n).
  assert (Hnames : NoDup outcomes.*1) by (subst outcomes; by rewrite outcomesOf_names).
  unfold lenMap. rewrite (recordFailures_size outcomes ∅ Hnames) by (intros; apply lookup_empty).
  rewrite map_size_empty.
  assert (Hlen : len (match succeededNames outcomes with
                      | [] => nilSlice
                      | s :: l => mkSlice (s :: l)
                      end) = Z.of_nat (length (succeededNames outcomes))).
  { destruct (succeededNames outcomes); reflexivity. }
  rewrite Hlen.
  pose proof (outcomes_split_length outcomes) as Hsplit.
  subst outcomes. rewrite outcomesOf_length in Hsplit. lia.
Qed.

Lemma executeAllHttpRequests_accounts_for_all_witness :
  (len (valueOf (executeAllHttpRequests
                   (exampleEnv EmptyString (λ n, if (n =? 0)%nat then 200 else 404)
                      (λ _, false))
                   (exampleReconciler [] ∅ ∅) [requestFor "a"; requestFor "b"]
                   "Creating/updating" 0%nat)).1
   + lenMap (valueOf (executeAllHttpRequests
                        (exampleEnv EmptyString (λ n, if (n =? 0)%nat then 200 else 404)
                           (λ _, false))
                        (exampleReconciler [] ∅ ∅) [requestFor "a"; requestFor "b"]
                        "Creating/updating" 0%nat)).2)%Z
  = 2%Z.
Proof.
  apply (executeAllHttpRequests_accounts_for_all
           (exampleEnv EmptyString (λ n, if (n =? 0)%nat then 200 else 404) (λ _, false))
           (exampleReconciler [] ∅ ∅) [requestFor "a"; requestFor "b"]
           "Creating/updating" 0%nat).
  apply NoDup_cons. split; [|apply NoDup_singleton].
  intros H%list_elem_of_singleton. discriminate.
Defined.

(** *** The status of a whole attempt *)

Lemma synchronizeViaApi_merge_is_written D env r obj action actionLabel n q st it s e i :
  EvMergeResult q st it s e i
    ∈ eventsOf (synchronizeViaApi D env r obj action actionLabel n) ->
  let pre := validatePreconditions D env r obj n in
  let mapped := MapResourceToHttpRequests r (valueOf pre) action in
  let exec :=
    (if (0 <? Z.of_nat (length mapped.1.1.2))%Z
     then executeAllHttpRequests env r mapped.1.1.2 actionLabel
     else mret (nilSlice, ∅)) (counterOf pre) in
  ∃ m,
    EvMergeResult q st it s e i
      ∈ eventsOf (writeSynchronizationResult env r m obj mapped.1.1.1 (valueOf exec).1
                    mapped.1.2
                    (if (0 <? lenMap (valueOf exec).2)%Z
                     then mapsCopy mapped.2 (valueOf exec).2 else mapped.2)
                    (counterOf exec)).
Proof.
  intros Hin. rewrite synchronizeViaApi_events in Hin. cbn zeta in *.
  assert (Hno : ∀ t, Forall (λ ev, isMergeResult ev = false) t ->
                     EvMergeResult q st it s e i ∈ t -> False).
  { intros t Hall Ht. rewrite Forall_forall in Hall. apply Hall in Ht. discriminate. }
  apply elem_of_app in Hin as [Hin|Hin].
  { exfalso. eapply Hno; [|exact Hin]. apply validatePreconditions_events; reflexivity. }
  destruct (synchronizeResource (valueOf (validatePreconditions D env r obj n)));
    cbn [negb] in Hin; [|by apply elem_of_nil in Hin].
  apply elem_of_app in Hin as [Hin|Hin].
  { exfalso. eapply Hno; [|exact Hin]. destruct (_ && _); repeat constructor. }
  apply elem_of_app in Hin as [Hin|Hin].
  { exfalso. eapply Hno; [|exact Hin].
    destruct (0 <? _)%Z; [|constructor].
    apply executeAllHttpRequests_events; reflexivity. }
  apply elem_of_app in Hin as [Hin|Hin].
  { exfalso. eapply Hno; [|exact Hin]. repeat constructor. }
  destruct (monitoringResource _) as [m|]; [|by apply elem_of_nil in Hin].
  exists m. exact Hin.
Qed.

Lemma recordFailures_non_empty failed :
  ∀ h : gmap string string, h ≠ ∅ -> recordFailures h failed ≠ ∅.
Proof.
  induction failed as [|f rest IH]; intros h Hh; [exact Hh|].
  cbn. apply IH. apply insert_non_empty.
Qed.

Lemma recordFailures_empty_iff failed :
  recordFailures ∅ failed = ∅ ↔ failed = [].
Proof.
  split; [|intros ->; reflexivity].
  destruct failed as [|f rest]; [reflexivity|].
  intros H. exfalso. revert H. cbn. apply recordFailures_non_empty, insert_non_empty.
Qed.

Lemma executed_requests_value env r requests actionLabel n :
  valueOf ((if (0 <? Z.of_nat (length requests))%Z
            then executeAllHttpRequests env r requests actionLabel
            else mret (nilSlice, ∅)) n)
  = (match succeededNames
             (outcomesOf (λ req, executeSingleHttpRequestWithRetry env r req actionLabel)
                requests n) with
     | [] => nilSlice
     | names => mkSlice names
     end,
     recordFailures ∅
       (failures (outcomesOf (λ req, executeSingleHttpRequestWithRetry env r req actionLabel)
                    requests n))).
Proof.
  destruct requests as [|req rest]; [reflexivity|].
  change (0 <? Z.of_nat (length (req :: rest)))%Z with true.
  apply executeAllHttpRequests_outcomes.
Qed.

(** X5.  The status that an attempt reports, in terms of what happened: it
    is [Successful] exactly when at least one request returned no error, no
    request returned an error, and the mapping step reported neither a
    validation issue nor a synchronization error; it is [Failed] exactly
    when no request returned without error (in particular when there was no
    request); it is [PartiallySuccessful] in the remaining cases. *)
Theorem synchronizeViaApi_status
    (D : string) (env : Env) (r : ThirdPartyResourceReconciler) (obj : ClientObject)
    (action : apiAction) (actionLabel : string) (n : nat)
    (q : string) (st : SynchronizationStatus) (it : Z) (s : slice string)
    (e : gmap string string) (i : gmap string (list string)) :
  EvMergeResult q st it s e i
    ∈ eventsOf (synchronizeViaApi D env r obj action actionLabel n) ->
  let mapped :=
    MapResourceToHttpRequests r (valueOf (validatePreconditions D env r obj n)) action in
  let outcomes :=
    outcomesOf (λ req, executeSingleHttpRequestWithRetry env r req actionLabel)
      mapped.1.1.2 (counterOf (validatePreconditions D env r obj n)) in
  (st = Successful ↔
     succeededNames outcomes ≠ [] ∧ failures outcomes = []
     ∧ mapped.1.2 = ∅ ∧ mapped.2 = ∅)
  ∧ (st = Failed ↔ succeededNames outcomes = [])
  ∧ (st = PartiallySuccessful ↔
       succeededNames outcomes ≠ []
       ∧ (failures outcomes ≠ [] ∨ mapped.1.2 ≠ ∅ ∨ mapped.2 ≠ ∅)).
Proof.
  intros Hin. apply synchronizeViaApi_merge_is_written in Hin as (m & Hin).
  cbn zeta in *.
  apply writeSynchronizationResult_merge_event in Hin as (-> & _).
  rewrite executed_requests_value. cbn [fst snd].
  set (mapped :=
    MapResourceToHttpRequests r (valueOf (validatePreconditions D env r obj n)) action).
  set (outcomes :=
    outcomesOf (λ req, executeSingleHttpRequestWithRetry env r req actionLabel)
      mapped.1.1.2 (counterOf (validatePreconditions D env r obj n))).
  assert (Hs : (0 <? len (match succeededNames outcomes with
                          | [] => nilSlice
                          | s :: l => mkSlice (s :: l)
                          end))%Z
               = negb (bool_decide (succeededNames outcomes = []))).
  { destruct (succeededNames outcomes); reflexivity. }
  assert (He : (lenMap (if (0 <? lenMap (recordFailures ∅ (failures outcomes)))%Z
                        then mapsCopy mapped.2 (recordFailures ∅ (failures outcomes))
                        else mapped.2) =? 0)%Z
               = bool_decide (failures outcomes = []) && bool_decide (mapped.2 = ∅)).
  { destruct (failures outcomes) as [|f rest] eqn:Hf.
    - assert (H0 : (0 <? lenMap (recordFailures ∅ []))%Z = false) by reflexivity.
      rewrite H0, lenMap_zero_decide.
      rewrite (bool_decide_eq_true_2 (@nil (string * error) = [])) by reflexivity.
      reflexivity.
    - assert (Hne : recordFailures ∅ (f :: rest) ≠ ∅)
        by (intros H%recordFailures_empty_iff; discriminate).
      assert (Hpos : (0 <? lenMap (recordFailures ∅ (f :: rest)))%Z = true).
      { apply lenMap_zero_false, Z.eqb_neq in Hne. apply Z.ltb_lt.
        unfold lenMap in *. lia. }
      rewrite Hpos. rewrite (bool_decide_eq_false_2 (f :: rest = [])) by discriminate.
      cbn [andb]. apply lenMap_zero_false. unfold mapsCopy.
      intros Hu. apply map_positive_l in Hu. contradiction. }
  rewrite Hs, He, lenMap_zero_decide.
  repeat case_bool_decide; cbn; intuition congruence.
Qed.

Lemma synchronizeViaApi_status_witness :
  Failed = Failed ↔
  succeededNames
    (outcomesOf (λ req, executeSingleHttpRequestWithRetry
                          (exampleEnv EmptyString (λ _, 404) (λ _, false))
                          (exampleReconciler [requestFor "a"] ∅ ∅) req "Creating/updating")
       [requestFor "a"] 0%nat) = [].
Proof.
  refine (proj1 (proj2 (synchronizeViaApi_status "default"
            (exampleEnv EmptyString (λ _, 404) (λ _, false))
            (exampleReconciler [requestFor "a"] ∅ ∅) exampleResource upsert
            "Creating/updating" 0%nat "ns/res" Failed 1 nilSlice
            {["a" := "unexpected status code 404 when updating/creating/deleting the dashboard "
                     +:+ dquote +:+ "a" +:+ dquote
                     +:+ " at https://api.example/a, response body is body"]}
            ∅ _))).
  apply list_elem_of_In. vm_compute. tauto.
Defined.

(** *** Requests first, status afterwards *)

(** X6.  Within an attempt everything that concerns the status of the
    monitoring resource comes after the last HTTP request: the events split
    into a first part without fetch, merge or write of the monitoring
    resource and a second part without HTTP request. *)
Theorem synchronizeViaApi_requests_before_status
    (D : string) (env : Env) (r : ThirdPartyResourceReconciler) (obj : ClientObject)
    (action : apiAction) (actionLabel : string) (n : nat) :
  ∃ before after,
    eventsOf (synchronizeViaApi D env r obj action actionLabel n) = before ++ after
    ∧ Forall (λ ev, isGet ev = false ∧ isMergeResult ev = false ∧ isStatusUpdate ev = false)
        before
    ∧ Forall (λ ev, isHttpDo ev = false) after.
Proof.
  rewrite synchronizeViaApi_events. cbn zeta.
  assert (Hpre : Forall (λ ev, isGet ev = false ∧ isMergeResult ev = false
                               ∧ isStatusUpdate ev = false)
                   (eventsOf (validatePreconditions D env r obj n)))
    by (apply validatePreconditions_events; intros; repeat split).
  destruct (negb (synchronizeResource (valueOf (validatePreconditions D env r obj n)))).
  { exists (eventsOf (validatePreconditions D env r obj n)), [].
    split; [reflexivity|]. split; [exact Hpre|constructor]. }
  set (mapped :=
    MapResourceToHttpRequests r (valueOf (validatePreconditions D env r obj n)) action).
  set (exec := (if (0 <? Z.of_nat (length mapped.1.1.2))%Z
                then executeAllHttpRequests env r mapped.1.1.2 actionLabel
                else mret (nilSlice, ∅))
                 (counterOf (validatePreconditions D env r obj n))).
  set (summary := EvLog LevelInfo (MsgSynchronizationSummary _ _ _ _)).
  set (written := match monitoringResource _ with Some _ => _ | None => _ end).
  exists (eventsOf (validatePreconditions D env r obj n)
          ++ (if (Z.of_nat (length mapped.1.1.2) =? 0)%Z && (lenMap mapped.1.2 =? 0)%Z
                 && (lenMap mapped.2 =? 0)%Z
              then [EvLog LevelInfo MsgNothingToSynchronize] else [])
          ++ eventsOf exec ++ [summary]), written.
  split; [by rewrite <- !app_assoc|]. split.
  - repeat (apply Forall_app; split); try exact Hpre.
    + destruct (_ && _); repeat constructor.
    + subst exec. destruct (0 <? _)%Z; [|constructor].
      apply executeAllHttpRequests_events; intros; repeat split.
    + repeat constructor.
  - subst written. destruct (monitoringResource _); [|constructor].
    apply writeSynchronizationResult_events; reflexivity.
Qed.

(** *** One attempt, all status codes *)

(** X7.  One attempt calls the HTTP client exactly once.  It returns no
    error exactly when the client answers with a status from 200 to 299.
    The error it returns otherwise is marked not retryable exactly when the
    client answers with a status from 400 to 499: a transport failure and
    every other status (1xx, 3xx, 5xx and beyond) give a retryable error. *)
Theorem executeSingleHttpRequest_result
    (env : Env) (r : ThirdPartyResourceReconciler) (req : HttpRequestWithItemName)
    (k : nat) :
  counterOf (executeSingleHttpRequest env r req k) = S k
  ∧ filter (λ e, isHttpDo e = true) (eventsOf (executeSingleHttpRequest env r req k))
    = [EvHttpDo req]
  ∧ (valueOf (executeSingleHttpRequest env r req k) = None ↔
       ∃ res, httpDo env k (Request req) = inr res ∧ (200 ≤ StatusCode res < 300)%Z)
  ∧ (∀ err, valueOf (executeSingleHttpRequest env r req k) = Some err ->
       (isRetryable err = false ↔
          ∃ res, httpDo env k (Request req) = inr res ∧ (400 ≤ StatusCode res < 500)%Z)).
Proof.
  rewrite executeSingleHttpRequest_run.
  destruct (httpDo env k (Request req)) as [err|res].
  - split; [reflexivity|]. split; [reflexivity|]. split.
    + split; [discriminate|]. intros (res & Hres & _). discriminate.
    + intros err' Herr. injection Herr as <-.
      split; [cbn; discriminate|]. intros (res & Hres & _). discriminate.
  - assert (Hres : ∀ (P : HttpResponse -> Prop),
              (∃ res', @inr error HttpResponse res = inr res' ∧ P res') ↔ P res).
    { intros P. split; [intros (res' & Heq & HP); by injection Heq as <-|].
      intros HP. exists res. by split. }
    rewrite Hres. setoid_rewrite Hres.
    destruct (StatusCode res <? 200)%Z eqn:H1; destruct (300 <=? StatusCode res)%Z eqn:H2;
      destruct (400 <=? StatusCode res)%Z eqn:H3; destruct (StatusCode res <? 500)%Z eqn:H4;
      cbn;
      repeat match goal with
             | H : (_ <? _)%Z = true |- _ => apply Z.ltb_lt in H
             | H : (_ <? _)%Z = false |- _ => apply Z.ltb_ge in H
             | H : (_ <=? _)%Z = true |- _ => apply Z.leb_le in H
             | H : (_ <=? _)%Z = false |- _ => apply Z.leb_gt in H
             end;
      (split; [reflexivity|]); (split; [reflexivity|]);
      (split; [split; intros; first [reflexivity | discriminate | lia]|]);
      intros err' Herr; try discriminate; injection Herr as <-; cbn;
      split; intros; first [reflexivity | discriminate | lia].
Qed.

(** *** Backoff between the attempts *)

(** X8.  Between two attempts for a request the engine sleeps, first for
    the retry delay of the kind and then for one and a half times that
    delay; it sleeps once less than it sends the request, so never before
    the first attempt and never after the last one.  The retry delay is
    taken to be at most [2 ^ 51] nanoseconds (about 26 days) and not
    negative: in that range [float64(d) * 1.5], which [wait.Backoff.Step]
    computes, is exact, and its conversion to [time.Duration] is the
    quotient below. *)
Theorem executeSingleHttpRequestWithRetry_backoff
    (env : Env) (r : ThirdPartyResourceReconciler) (req : HttpRequestWithItemName)
    (actionLabel : string) (n : nat)
    (Hdelay : (0 ≤ GetHttpRetryDelay r ≤ 2 ^ 51)%Z) :
  filter (λ e, isSleep e = true)
    (eventsOf (executeSingleHttpRequestWithRetry env r req actionLabel n))
  = EvSleep
      <$> take (pred (countEvents isHttpDo
                        (eventsOf (executeSingleHttpRequestWithRetry env r req actionLabel n))))
            [GetHttpRetryDelay r; Z.quot (GetHttpRetryDelay r * 3) 2].
Proof.
  assert (Hnosleep : ∀ k, filter (λ e, isSleep e = true)
                            (eventsOf (executeSingleHttpRequest env r req k)) = []).
  { intros k. rewrite executeSingleHttpRequest_run.
    destruct (httpDo env k (Request req)) as [err|res]; [reflexivity|].
    destruct (_ || _); [destruct (_ && _)|]; reflexivity. }
  pose proof (onErrorLoop_sleeps isHttpDo isRetryable (executeSingleHttpRequest env r req)
                ltac:(reflexivity) (executeSingleHttpRequest_one_request env r req) Hnosleep
                3%nat (GetHttpRetryDelay r) (3 # 2) None n) as Hsleeps.
  destruct (onErrorLoop_tries isHttpDo isRetryable (executeSingleHttpRequest env r req)
              ltac:(reflexivity) (executeSingleHttpRequest_one_request env r req)
              2%nat (GetHttpRetryDelay r) (3 # 2) None n) as (last & Hcount & Hle & _).
  unfold executeSingleHttpRequestWithRetry.
  rewrite eventsOf_bind, filter_app, countEvents_app.
  change (filter (λ e, isSleep e = true)
            (eventsOf (OnError (httpBackoff r) isRetryable (executeSingleHttpRequest env r req)
                         (counterOf (logInfo (MsgExecutingRequest actionLabel (ItemName req)
                                                (URL (Request req))) n)))))
    with (filter (λ e, isSleep e = true)
            (eventsOf (onErrorLoop 3 (GetHttpRetryDelay r) (3 # 2) isRetryable
                         (executeSingleHttpRequest env r req) None n))).
  change (countEvents isHttpDo
            (eventsOf (OnError (httpBackoff r) isRetryable (executeSingleHttpRequest env r req)
                         (counterOf (logInfo (MsgExecutingRequest actionLabel (ItemName req)
                                                (URL (Request req))) n)))))
    with (countEvents isHttpDo
            (eventsOf (onErrorLoop 3 (GetHttpRetryDelay r) (3 # 2) isRetryable
                         (executeSingleHttpRequest env r req) None n))).
  rewrite Hsleeps, Hcount. cbn [pred Nat.add].
  change (countEvents isHttpDo (eventsOf (logInfo (MsgExecutingRequest actionLabel
            (ItemName req) (URL (Request req))) n))) with 0%nat.
  cbn [Nat.add pred app filter].
  destruct last as [|[|[|last]]]; try lia; reflexivity.
Qed.

Lemma executeSingleHttpRequestWithRetry_backoff_witness :
  filter (λ e, isSleep e = true)
    (eventsOf (executeSingleHttpRequestWithRetry
                 (exampleEnv EmptyString (λ _, 503) (λ _, false)) (exampleReconciler [] ∅ ∅)
                 (requestFor "a") "Creating/updating" 0%nat))
  = EvSleep
      <$> take (pred (countEvents isHttpDo
                        (eventsOf (executeSingleHttpRequestWithRetry
                                     (exampleEnv EmptyString (λ _, 503) (λ _, false))
                                     (exampleReconciler [] ∅ ∅) (requestFor "a")
                                     "Creating/updating" 0%nat))))
            [GetHttpRetryDelay (exampleReconciler [] ∅ ∅);
             Z.quot (GetHttpRetryDelay (exampleReconciler [] ∅ ∅) * 3) 2].
Proof.
  apply (executeSingleHttpRequestWithRetry_backoff
           (exampleEnv EmptyString (λ _, 503) (λ _, false)) (exampleReconciler [] ∅ ∅)
           (requestFor "a") "Creating/updating" 0%nat).
  cbn. unfold second. lia.
Defined.

(** With status 503 for every attempt: three attempts, sleeps of one second
    and of one and a half seconds. *)
Example executeSingleHttpRequestWithRetry_backoff_503 :
  filter (λ e, isSleep e = true)
    (eventsOf (executeSingleHttpRequestWithRetry
                 (exampleEnv EmptyString (λ _, 503) (λ _, false)) (exampleReconciler [] ∅ ∅)
                 (requestFor "a") "Creating/updating" 0%nat))
  = [EvSleep 1000000000; EvSleep 1500000000].
Proof. vm_compute. reflexivity. Qed.

(** *** What is written to the status *)

(** X9.  Every resource that [writeSynchronizationResult] sends to the
    status endpoint is the merge of the outcome into a copy that the
    cluster returned for the namespace and name of the monitoring resource.
    The copy passed in is only used for its namespace and name, and the
    outcome merged is the same in every try. *)
Theorem writeSynchronizationResult_writes_fetched_copy
    (env : Env) (r : ThirdPartyResourceReconciler) (m : Dash0Monitoring) (obj : ClientObject)
    (itemsTotal : Z) (synchronized : slice string) (issues : gmap string (list string))
    (errors : gmap string string) (n : nat) (written : Dash0Monitoring)
    (Hwritten : EvStatusUpdate written
                  ∈ eventsOf (writeSynchronizationResult env r m obj itemsTotal synchronized
                                issues errors n)) :
  ∃ k fetched,
    k8sGet env k (MonitoringNamespace m) (MonitoringName m) = inl fetched
    ∧ written
      = UpdateSynchronizationResultsInStatus r fetched
          (GetNamespace obj +:+ "/" +:+ GetName obj)
          (if (0 <? len synchronized)%Z && (lenMap issues =? 0)%Z && (lenMap errors =? 0)%Z
           then Successful
           else if (0 <? len synchronized)%Z then PartiallySuccessful else Failed)
          itemsTotal synchronized errors issues.
Proof.
  revert Hwritten. unfold writeSynchronizationResult. cbn zeta.
  set (q := GetNamespace obj +:+ "/" +:+ GetName obj).
  set (status := if _ && _ && _ then Successful else _).
  rewrite eventsOf_bind. intros Hin. apply elem_of_app in Hin as [Hin|Hin].
  - pose (P := λ ev, ∀ w, ev = EvStatusUpdate w ->
                ∃ k fetched,
                  k8sGet env k (MonitoringNamespace m) (MonitoringName m) = inl fetched
                  ∧ w = UpdateSynchronizationResultsInStatus r fetched q status itemsTotal
                          synchronized errors issues).
    assert (Hall : Forall P (eventsOf (OnError statusBackoff (λ _, true)
                     (writeSynchronizationResultOnce env r m q status itemsTotal synchronized
                        issues errors) n))).
    { apply onErrorLoop_events; [intros d w; discriminate|].
      intros k. rewrite writeSynchronizationResultOnce_run.
      destruct (k8sGet env k (MonitoringNamespace m) (MonitoringName m))
        as [fetched|err] eqn:Hget.
      - cbn zeta.
        assert (Hw : P (EvStatusUpdate (UpdateSynchronizationResultsInStatus r fetched q
                          status itemsTotal synchronized errors issues))).
        { intros w Hw. injection Hw as <-. exists k, fetched. by split. }
        destruct (k8sStatusUpdate env (S k) _); cbn;
          (constructor; [intros w; discriminate|]);
          (constructor; [intros w; discriminate|]);
          (constructor; [exact Hw|]);
          (constructor; [intros w; discriminate|constructor]).
      - cbn. constructor; [intros w; discriminate|].
        constructor; [intros w; discriminate|constructor]. }
    rewrite Forall_forall in Hall. exact (Hall _ Hin written eq_refl).
  - destruct (valueOf _) as [err|]; cbn in Hin.
    + apply list_elem_of_singleton in Hin. discriminate.
    + by apply elem_of_nil in Hin.
Qed.

Lemma writeSynchronizationResult_writes_fetched_copy_witness :
  ∃ k fetched,
    k8sGet (exampleEnv EmptyString (λ _, 200) (λ n, (n =? 1)%nat)) k
      (MonitoringNamespace exampleMonitoring) (MonitoringName exampleMonitoring)
    = inl fetched
    ∧ exampleMerge exampleMonitoring "ns/res" Successful 1 (mkSlice ["a"]) ∅ ∅
      = UpdateSynchronizationResultsInStatus (exampleReconciler [] ∅ ∅) fetched
          (GetNamespace exampleResource +:+ "/" +:+ GetName exampleResource)
          (if (0 <? len (mkSlice ["a"]))%Z && (lenMap (∅ : gmap string (list string)) =? 0)%Z
              && (lenMap (∅ : gmap string string) =? 0)%Z
           then Successful
           else if (0 <? len (mkSlice ["a"]))%Z then PartiallySuccessful else Failed)
          1 (mkSlice ["a"]) ∅ ∅.
Proof.
  apply (writeSynchronizationResult_writes_fetched_copy
           (exampleEnv EmptyString (λ _, 200) (λ n, (n =? 1)%nat))
           (exampleReconciler [] ∅ ∅) exampleMonitoring exampleResource 1
           (mkSlice ["a"]) ∅ ∅ 0%nat
           (exampleMerge exampleMonitoring "ns/res" Successful 1 (mkSlice ["a"]) ∅ ∅)).
  vm_compute. apply list_elem_of_further, list_elem_of_further, list_elem_of_here.
Defined.

(** A retry loop ends with the try that decides its result; when the events
    of a failed try all satisfy [P], so do all events before that try. *)
Lemma onErrorLoop_stops (P : Event -> Prop) retriable fn :
  (∀ d, P (EvSleep d)) ->
  (∀ n, valueOf (fn n) ≠ None -> Forall P (eventsOf (fn n))) ->
  ∀ steps d factor lastErr n,
    ∃ earlier k,
      eventsOf (onErrorLoop (S steps) d factor retriable fn lastErr n)
      = earlier ++ eventsOf (fn k)
      ∧ Forall P earlier
      ∧ valueOf (onErrorLoop (S steps) d factor retriable fn lastErr n) = valueOf (fn k).
Proof.
  intros Hsleep Hfn. induction steps as [|steps IH]; intros d factor lastErr n.
  - exists [], n. cbn [onErrorLoop]. rewrite eventsOf_bind, valueOf_bind.
    destruct (valueOf (fn n)) as [e|]; [destruct (retriable e)|];
      cbn; rewrite ?app_nil_r; repeat split; constructor.
  - rewrite onErrorLoop_more. rewrite eventsOf_bind, valueOf_bind.
    destruct (valueOf (fn n)) as [e|] eqn:Hv; [destruct (retriable e)|];
      try (exists [], n; cbn; rewrite ?app_nil_r, ?Hv; repeat split; constructor).
    rewrite eventsOf_bind, valueOf_bind.
    destruct (IH (nextDuration d factor) factor (Some e)
                (counterOf (timeSleep d (counterOf (fn n))))) as (earlier & k & Heq & HP & Hval).
    exists (eventsOf (fn n) ++ [EvSleep d] ++ earlier), k. split; [|split].
    + cbn [timeSleep emit valueOf counterOf eventsOf fst snd] in *.
      rewrite Heq, <- !app_assoc. reflexivity.
    + apply Forall_app. split; [apply Hfn; rewrite Hv; discriminate|].
      apply Forall_app. split; [constructor; [apply Hsleep|constructor]|exact HP].
    + exact Hval.
Qed.

(** X10.  The status write stops at the first try that the cluster
    accepts.  Either the events end with an accepted write followed by the
    ["status updated"] log entry, which occurs nowhere before, or that
    entry occurs nowhere and the last event is the ["finally failed"]
    error log. *)
Theorem writeSynchronizationResult_stops_at_success
    (env : Env) (r : ThirdPartyResourceReconciler) (m : Dash0Monitoring) (obj : ClientObject)
    (itemsTotal : Z) (synchronized : slice string) (issues : gmap string (list string))
    (errors : gmap string string) (n : nat) :
  (∃ earlier k written,
     eventsOf (writeSynchronizationResult env r m obj itemsTotal synchronized issues errors n)
     = earlier ++ [EvStatusUpdate written; EvLog LevelInfo MsgStatusUpdated]
     ∧ k8sStatusUpdate env k written = None
     ∧ Forall (λ ev, ev ≠ EvLog LevelInfo MsgStatusUpdated) earlier)
  ∨ (Forall (λ ev, ev ≠ EvLog LevelInfo MsgStatusUpdated)
       (eventsOf (writeSynchronizationResult env r m obj itemsTotal synchronized issues
                    errors n))
     ∧ ∃ err,
         last (eventsOf (writeSynchronizationResult env r m obj itemsTotal synchronized
                           issues errors n))
         = Some (EvLog LevelError (MsgStatusUpdateFinallyFailed err))).
Proof.
  unfold writeSynchronizationResult. cbn zeta.
  set (q := GetNamespace obj +:+ "/" +:+ GetName obj).
  set (status := if _ && _ && _ then Successful else _).
  set (once := writeSynchronizationResultOnce env r m q status itemsTotal synchronized
                 issues errors).
  assert (Hfailed : ∀ k, valueOf (once k) ≠ None ->
            Forall (λ ev, ev ≠ EvLog LevelInfo MsgStatusUpdated) (eventsOf (once k))).
  { intros k. subst once. rewrite writeSynchronizationResultOnce_run.
    destruct (k8sGet env k (MonitoringNamespace m) (MonitoringName m)) as [fetched|err].
    - cbn zeta. destruct (k8sStatusUpdate env (S k) _); cbn; intros Hv; [|done].
      repeat (constructor; [discriminate|]). constructor.
    - cbn. intros _. repeat (constructor; [discriminate|]). constructor. }
  destruct (onErrorLoop_stops (λ ev, ev ≠ EvLog LevelInfo MsgStatusUpdated) (λ _, true) once
              ltac:(discriminate) Hfailed 2%nat (1 * second) (13 # 10) None n)
    as (earlier & k & Heq & Hearlier & Hval).
  rewrite eventsOf_bind.
  change (OnError statusBackoff (λ _, true) once n)
    with (onErrorLoop 3 (1 * second) (13 # 10) (λ _, true) once None n).
  rewrite Hval, Heq.
  destruct (valueOf (once k)) as [err|] eqn:Hk.
  - right. split.
    + apply Forall_app. split; [apply Forall_app; split; [exact Hearlier|]|].
      * apply Hfailed. rewrite Hk. discriminate.
      * cbn. constructor; [discriminate|constructor].
    + exists err. cbn. apply last_snoc.
  - left. revert Hk. subst once. rewrite writeSynchronizationResultOnce_run.
    destruct (k8sGet env k (MonitoringNamespace m) (MonitoringName m)) as [fetched|err];
      [|discriminate].
    cbn zeta.
    destruct (k8sStatusUpdate env (S k) _) as [err|] eqn:Hupdate; [discriminate|].
    intros _. cbn [eventsOf snd mret M_ret].
    eexists (earlier ++ [_; _]), (S k), _. split; [|split].
    + rewrite app_nil_r, <- app_assoc. reflexivity.
    + exact Hupdate.
    + apply Forall_app. split; [exact Hearlier|].
      repeat (constructor; [discriminate|]). constructor.
Qed.

(** ** Further properties of the lifecycle *)

(** A call that finds the lock free and no watch in place, and whose
    surroundings let it reach the [go] statement. *)
Lemma maybeStart_starts e caller isStartup s :
  lock s = None -> IsWatching s = false -> reachesGo e ->
  maybeStartWatchingThirdPartyResources e caller isStartup s
  = Some {| lock := None;
            controllerStopFunction := Some (length (controllers s));
            controllers := controllers s ++ [mkController Running false];
            informersRemoved := informersRemoved s;
            lifecycleLog :=
              lifecycleLog s
              ++ [ (LevelInfo, MsgWillWatch); (LevelInfo, MsgSettingUpWatch);
                   (LevelInfo, MsgCreatedController); (LevelInfo, MsgCreatedWatch) ] |}.
Proof.
  destruct s as [lk stop ctls removed lg]. destruct e as [crd cfg newError wError].
  intros Hlock Hnot (Hcrd & Hcfg & Hnew & Hwatch). cbn in *. subst lk crd newError wError.
  destruct stop as [c|]; [discriminate|].
  unfold maybeStartWatchingThirdPartyResources, maybeStartLocked. cbn.
  rewrite Hcfg. cbn. unfold setControllerState. cbn.
  rewrite lookup_app_r by lia. rewrite Nat.sub_diag. cbn.
  rewrite insert_app_r_alt by lia. rewrite Nat.sub_diag. cbn.
  unfold setLock, setControllers, SetControllerStopFunction, logLifecycle. cbn.
  rewrite <- !app_assoc. reflexivity.
Qed.

(** The same call when the surroundings stop it before the [go]
    statement. *)
Lemma maybeStart_gives_up e caller isStartup s :
  lock s = None -> IsWatching s = false -> ¬ reachesGo e ->
  ∃ s',
    maybeStartWatchingThirdPartyResources e caller isStartup s = Some s'
    ∧ lock s' = None
    ∧ controllerStopFunction s' = None
    ∧ informersRemoved s' = informersRemoved s
    ∧ (controllers s' = controllers s
       ∨ (newTypedUnmanagedError e = None
          ∧ controllers s' = controllers s ++ [mkController Created false])).
Proof.
  destruct s as [lk stop ctls removed lg]. destruct e as [crd cfg newError wError].
  unfold reachesGo. intros Hlock Hnot Hgo. cbn in *. subst lk.
  destruct stop as [c|]; [discriminate|].
  unfold maybeStartWatchingThirdPartyResources, maybeStartLocked. cbn.
  destruct crd; cbn; [|eexists; repeat split; by left].
  destruct (isValidApiConfig cfg); cbn;
    [|destruct isStartup; eexists; repeat split; by left].
  destruct newError as [err|]; [eexists; repeat split; by left|].
  destruct wError as [err|]; [eexists; repeat split; by right|].
  by destruct Hgo.
Qed.

Lemma running_count_created cs :
  length (filter (λ ctl, isRunning ctl = true) (cs ++ [mkController Created false]))
  = length (filter (λ ctl, isRunning ctl = true) cs).
Proof.
  rewrite filter_app, length_app.
  rewrite filter_cons_False by (cbn; discriminate). cbn. lia.
Qed.

Lemma running_count_running cs c :
  length (filter (λ ctl, isRunning ctl = true) (cs ++ [mkController Running c]))
  = S (length (filter (λ ctl, isRunning ctl = true) cs)).
Proof.
  rewrite filter_app, length_app.
  rewrite filter_cons_True by reflexivity. cbn. lia.
Qed.

Lemma reachesGo_or_not e : reachesGo e ∨ ¬ reachesGo e.
Proof.
  destruct e as [crd cfg newError wError]. unfold reachesGo. cbn.
  destruct crd; [|right; intros (H & _); discriminate].
  destruct (isValidApiConfig cfg); [|right; intros (_ & H & _); discriminate].
  destruct newError; [right; intros (_ & _ & H & _); discriminate|].
  destruct wError; [right; intros (_ & _ & _ & H); discriminate|].
  by left.
Qed.

Lemma maybeStart_keeps_watch e caller isStartup s :
  lock s = None -> IsWatching s = true ->
  maybeStartWatchingThirdPartyResources e caller isStartup s = Some s.
Proof.
  destruct s as [lk stop ctls removed lg]. cbn. intros -> Hwatching.
  unfold maybeStartWatchingThirdPartyResources, maybeStartLocked. cbn.
  destruct stop; [reflexivity|discriminate].
Qed.

(** X11.  A call of [maybeStartWatchingThirdPartyResources] that finds the
    lock free and no watch in place returns with the lock released and the
    watch in place exactly when the CRD exists, the API configuration is
    valid and neither the construction of the sub-controller nor its watch
    fails.  It then has built and started one sub-controller and registered
    its stop function.  Otherwise no stop function is registered and no
    sub-controller is started: the list of sub-controllers is unchanged, or
    has gained one that was built and never started (when [Watch]
    failed). *)
Theorem maybeStartWatchingThirdPartyResources_watches_iff
    (e : StartEnv) (caller : nat) (isStartup : bool) (s : Lifecycle)
    (Hlock : lock s = None) (Hnot : IsWatching s = false) :
  ∃ s',
    maybeStartWatchingThirdPartyResources e caller isStartup s = Some s'
    ∧ lock s' = None
    ∧ informersRemoved s' = informersRemoved s
    ∧ (IsWatching s' = true ↔ reachesGo e)
    ∧ (reachesGo e ->
         controllers s' = controllers s ++ [mkController Running false]
         ∧ controllerStopFunction s' = Some (length (controllers s)))
    ∧ (¬ reachesGo e ->
         controllerStopFunction s' = None
         ∧ activeControllers s' = activeControllers s
         ∧ (controllers s' = controllers s
            ∨ controllers s' = controllers s ++ [mkController Created false])).
Proof.
  destruct (reachesGo_or_not e) as [Hgo|Hgo].
  - rewrite (maybeStart_starts e caller isStartup s Hlock Hnot Hgo).
    eexists. split; [reflexivity|]. cbn. split; [reflexivity|]. split; [reflexivity|].
    split; [by split|]. split; [done|]. intros Hn. destruct (Hn Hgo).
  - destruct (maybeStart_gives_up e caller isStartup s Hlock Hnot Hgo)
      as (s' & Hs' & Hlock' & Hstop' & Hremoved' & Hctls).
    exists s'. split; [exact Hs'|]. split; [exact Hlock'|]. split; [exact Hremoved'|].
    split; [|split].
    + unfold IsWatching. rewrite Hstop'. split; [discriminate|done].
    + done.
    + intros _. split; [exact Hstop'|]. split.
      * unfold activeControllers.
        destruct Hctls as [-> | [_ ->]]; [reflexivity|apply running_count_created].
      * destruct Hctls as [-> | [_ ->]]; [by left|by right].
Qed.

Lemma maybeStartWatchingThirdPartyResources_watches_iff_witness :
  ∃ s',
    maybeStartWatchingThirdPartyResources exampleStartEnv 0 true initialLifecycle = Some s'
    ∧ lock s' = None
    ∧ informersRemoved s' = informersRemoved initialLifecycle
    ∧ (IsWatching s' = true ↔ reachesGo exampleStartEnv)
    ∧ (reachesGo exampleStartEnv ->
         controllers s' = controllers initialLifecycle ++ [mkController Running false]
         ∧ controllerStopFunction s' = Some (length (controllers initialLifecycle)))
    ∧ (¬ reachesGo exampleStartEnv ->
         controllerStopFunction s' = None
         ∧ activeControllers s' = activeControllers initialLifecycle
         ∧ (controllers s' = controllers initialLifecycle
            ∨ controllers s' = controllers initialLifecycle ++ [mkController Created false])).
Proof.
  apply (maybeStartWatchingThirdPartyResources_watches_iff exampleStartEnv 0 true
           initialLifecycle); reflexivity.
Defined.

(** X12.  A failed start leaves nothing behind that keeps a later call from
    starting the watch, and a successful one makes the later call a no-op:
    whatever the first of two calls meets, when the second can reach its
    [go] statement the two calls together start exactly one sub-controller,
    and its stop function is the registered one. *)
Theorem maybeStartWatchingThirdPartyResources_twice
    (e1 e2 : StartEnv) (caller1 caller2 : nat) (isStartup1 isStartup2 : bool)
    (s : Lifecycle)
    (Hlock : lock s = None) (Hnot : IsWatching s = false) (Hgo : reachesGo e2) :
  ∃ s1 s2 c,
    maybeStartWatchingThirdPartyResources e1 caller1 isStartup1 s = Some s1
    ∧ maybeStartWatchingThirdPartyResources e2 caller2 isStartup2 s1 = Some s2
    ∧ activeControllers s2 = S (activeControllers s)
    ∧ controllerStopFunction s2 = Some c
    ∧ controllers s2 !! c = Some (mkController Running false)
    ∧ (length (controllers s) ≤ c)%nat.
Proof.
  destruct (reachesGo_or_not e1) as [Hgo1|Hgo1].
  - rewrite (maybeStart_starts e1 caller1 isStartup1 s Hlock Hnot Hgo1).
    eexists _, _, (length (controllers s)). split; [reflexivity|].
    split; [apply maybeStart_keeps_watch; reflexivity|]. cbn.
    split; [|split; [reflexivity|split; [|lia]]].
    + unfold activeControllers. cbn [controllers]. apply running_count_running.
    + rewrite lookup_app_r by lia. by rewrite Nat.sub_diag.
  - destruct (maybeStart_gives_up e1 caller1 isStartup1 s Hlock Hnot Hgo1)
      as (s1 & Hs1 & Hlock1 & Hstop1 & _ & Hctls).
    assert (Hnot1 : IsWatching s1 = false) by (unfold IsWatching; by rewrite Hstop1).
    exists s1. rewrite Hs1, (maybeStart_starts e2 caller2 isStartup2 s1 Hlock1 Hnot1 Hgo).
    eexists _, (length (controllers s1)). split; [reflexivity|]. split; [reflexivity|].
    cbn. split; [|split; [reflexivity|split]].
    + unfold activeControllers. cbn [controllers]. rewrite running_count_running.
      destruct Hctls as [-> | [_ ->]]; [reflexivity|by rewrite running_count_created].
    + rewrite lookup_app_r by lia. by rewrite Nat.sub_diag.
    + destruct Hctls as [-> | [_ ->]]; rewrite ?length_app; cbn; lia.
Qed.

Lemma maybeStartWatchingThirdPartyResources_twice_witness :
  ∃ s1 s2 c,
    maybeStartWatchingThirdPartyResources
      (mkStartEnv true None None None) 0 true initialLifecycle = Some s1
    ∧ maybeStartWatchingThirdPartyResources exampleStartEnv 1 false s1 = Some s2
    ∧ activeControllers s2 = S (activeControllers initialLifecycle)
    ∧ controllerStopFunction s2 = Some c
    ∧ controllers s2 !! c = Some (mkController Running false)
    ∧ (length (controllers initialLifecycle) ≤ c)%nat.
Proof.
  apply (maybeStartWatchingThirdPartyResources_twice (mkStartEnv true None None None)
           exampleStartEnv 0 1 true false initialLifecycle);
    [reflexivity|reflexivity|repeat split].
Defined.

Lemma cancel_lookup c s i :
  controllers (cancel c s) !! i
  = (λ ctl, mkController (controllerState ctl)
              (if decide (i = c) then true else cancelled ctl))
    <$> controllers s !! i.
Proof.
  unfold cancel. destruct (controllers s !! c) as [ctl|] eqn:Hc.
  - cbn. destruct (decide (i = c)) as [->|Hne].
    + rewrite list_lookup_insert_eq by (by apply lookup_lt_Some in Hc).
      by rewrite Hc.
    + rewrite list_lookup_insert_ne by done. by destruct (controllers s !! i) as [[]|].
  - destruct (decide (i = c)) as [->|Hne]; [by rewrite Hc|].
    by destruct (controllers s !! i) as [[]|].
Qed.

(** X13.  A call of [stopWatchingThirdPartyResources] that finds the lock
    free and a stop function registered returns with the lock released and
    no stop function registered.  It has asked once for the informer to be
    removed and has cancelled the context of the registered sub-controller
    and of no other, also when the removal of the informer failed; the
    failure is only logged. *)
Theorem stopWatchingThirdPartyResources_cancels_registered
    (removeInformerError : option error) (caller : nat) (s : Lifecycle) (c : nat)
    (Hlock : lock s = None) (Hstop : controllerStopFunction s = Some c) :
  ∃ s',
    stopWatchingThirdPartyResources removeInformerError caller s = Some s'
    ∧ lock s' = None
    ∧ IsWatching s' = false
    ∧ informersRemoved s' = S (informersRemoved s)
    ∧ (∀ i, controllers s' !! i
            = (λ ctl, mkController (controllerState ctl)
                        (if decide (i = c) then true else cancelled ctl))
              <$> controllers s !! i)
    ∧ (∀ err, removeInformerError = Some err ->
              (LevelError, MsgUnableToRemoveInformer err) ∈ lifecycleLog s').
Proof.
  unfold stopWatchingThirdPartyResources, stopLocked. rewrite Hlock. cbn.
  rewrite Hstop. eexists. split; [reflexivity|]. cbn.
  split; [reflexivity|]. split; [reflexivity|]. split; [|split].
  - unfold cancel. destruct (controllers _ !! c); by destruct removeInformerError.
  - intros i. rewrite cancel_lookup. by destruct removeInformerError.
  - intros err ->. unfold cancel. cbn.
    destruct (controllers s !! c); cbn; rewrite !elem_of_app;
      left; right; apply list_elem_of_here.
Qed.

Lemma stopWatchingThirdPartyResources_cancels_registered_witness :
  ∃ s',
    stopWatchingThirdPartyResources (Some (GoError "no informer")) 2 exampleRestarted
    = Some s'
    ∧ lock s' = None
    ∧ IsWatching s' = false
    ∧ informersRemoved s' = S (informersRemoved exampleRestarted)
    ∧ (∀ i, controllers s' !! i
            = (λ ctl, mkController (controllerState ctl)
                        (if decide (i = 1%nat) then true else cancelled ctl))
              <$> controllers exampleRestarted !! i)
    ∧ (∀ err, Some (GoError "no informer") = Some err ->
              (LevelError, MsgUnableToRemoveInformer err) ∈ lifecycleLog s').
Proof.
  apply (stopWatchingThirdPartyResources_cancels_registered (Some (GoError "no informer")) 2
           exampleRestarted 1); reflexivity.
Defined.

(** A call that finds the lock free and the stop function of the last
    sub-controller registered, that sub-controller running. *)
Lemma stop_after_start removeInformerError caller lk cs removed lg :
  lk = None ->
  stopWatchingThirdPartyResources removeInformerError caller
    {| lock := lk; controllerStopFunction := Some (length cs);
       controllers := cs ++ [mkController Running false];
       informersRemoved := removed; lifecycleLog := lg |}
  = Some {| lock := None; controllerStopFunction := None;
            controllers := cs ++ [mkController Running true];
            informersRemoved := S removed;
            lifecycleLog :=
              lg ++ [(LevelInfo, MsgRemovingInformer)]
                 ++ match removeInformerError with
                    | Some err => [(LevelError, MsgUnableToRemoveInformer err)]
                    | None => []
                    end
                 ++ [(LevelInfo, MsgStoppingController)] |}.
Proof.
  intros ->.
  destruct removeInformerError;
    unfold stopWatchingThirdPartyResources, stopLocked, cancel; cbn;
    rewrite lookup_app_r by lia; rewrite Nat.sub_diag; cbn;
    rewrite insert_app_r_alt by lia; rewrite Nat.sub_diag; cbn;
    unfold setLock, setControllers, SetControllerStopFunction, logLifecycle; cbn;
    rewrite <- ?app_assoc; reflexivity.
Qed.

(** X14.  Start, stop, start: the stop cancels the first sub-controller
    and the second start builds and starts a fresh one.  The first one is
    then still inside [Start], with its context cancelled, and the
    registered stop function is that of the second. *)
Theorem start_stop_start
    (e1 e2 : StartEnv) (removeInformerError : option error) (caller1 caller2 caller3 : nat)
    (isStartup1 isStartup2 : bool) (s : Lifecycle)
    (Hlock : lock s = None) (Hnot : IsWatching s = false)
    (Hgo1 : reachesGo e1) (Hgo2 : reachesGo e2) :
  ∃ s1 s2 s3,
    maybeStartWatchingThirdPartyResources e1 caller1 isStartup1 s = Some s1
    ∧ stopWatchingThirdPartyResources removeInformerError caller2 s1 = Some s2
    ∧ maybeStartWatchingThirdPartyResources e2 caller3 isStartup2 s2 = Some s3
    ∧ lock s3 = None
    ∧ controllers s3
      = controllers s ++ [mkController Running true; mkController Running false]
    ∧ controllerStopFunction s3 = Some (S (length (controllers s)))
    ∧ informersRemoved s3 = S (informersRemoved s).
Proof.
  rewrite (maybeStart_starts e1 caller1 isStartup1 s Hlock Hnot Hgo1).
  eexists _, _, _. split; [reflexivity|].
  split; [apply stop_after_start; reflexivity|].
  split; [apply maybeStart_starts; [reflexivity|reflexivity|exact Hgo2]|]. cbn.
  split; [reflexivity|]. split; [by rewrite <- app_assoc|]. split; [|reflexivity].
  rewrite length_app. cbn. f_equal. lia.
Qed.

Lemma start_stop_start_witness :
  ∃ s1 s2 s3,
    maybeStartWatchingThirdPartyResources exampleStartEnv 0 true initialLifecycle = Some s1
    ∧ stopWatchingThirdPartyResources None 1 s1 = Some s2
    ∧ maybeStartWatchingThirdPartyResources exampleStartEnv 2 false s2 = Some s3
    ∧ lock s3 = None
    ∧ controllers s3
      = controllers initialLifecycle
        ++ [mkController Running true; mkController Running false]
    ∧ controllerStopFunction s3 = Some (S (length (controllers initialLifecycle)))
    ∧ informersRemoved s3 = S (informersRemoved initialLifecycle).
Proof.
  apply (start_stop_start exampleStartEnv exampleStartEnv None 0 1 2 true false
           initialLifecycle); [reflexivity|reflexivity|repeat split|repeat split].
Defined.

(** [exampleRestarted] is the state after a start, a stop and a start. *)
Example exampleRestarted_is_reached :
  (s1 ← maybeStartWatchingThirdPartyResources exampleStartEnv 0 true initialLifecycle;
   s2 ← stopWatchingThirdPartyResources None 1 s1;
   maybeStartWatchingThirdPartyResources exampleStartEnv 2 false s2)
  = Some exampleRestarted.
Proof. reflexivity. Qed.

(** The goroutine of a running sub-controller from the return of [Start]
    to its own return. *)
Lemma goroutine_exit s cs c err ctl :
  controllers s !! c = Some ctl ->
  controllerState ctl = Running ->
  run [StartReturns c err; GoroutineClears c] {| lifecycle := s; callers := cs |}
  = Some {| lifecycle :=
              {| lock := lock s;
                 controllerStopFunction := None;
                 controllers := <[c := mkController Finished (cancelled ctl)]> (controllers s);
                 informersRemoved := informersRemoved s;
                 lifecycleLog :=
                   lifecycleLog s
                   ++ [match err with
                       | Some err => (LevelError, MsgUnableToStartController err)
                       | None => (LevelInfo, MsgControllerStopped)
                       end] |};
            callers := cs |}.
Proof.
  intros Hc Hrunning. pose proof (lookup_lt_Some _ _ _ Hc) as Hlt.
  cbn [run step lifecycle callers]. rewrite Hc. cbn [mbind option_bind]. rewrite Hrunning.
  rewrite (setControllerState_controllers c (Exited err) s ctl Hc).
  cbn [lifecycle controllers setControllers callers].
  rewrite list_lookup_insert_eq by exact Hlt.
  cbn [mbind option_bind controllerState].
  unfold setControllerState. destruct err as [err|]; cbn;
    rewrite list_lookup_insert_eq by exact Hlt; cbn;
    rewrite list_insert_insert_eq; reflexivity.
Qed.

(** X15.  With stop calls the handle of a restarted watch can be lost.
    Let a cancelled sub-controller still be inside [Start] while the stop
    function of its successor is registered (the state after a start, a
    stop and a start).  When the goroutine of the cancelled one returns
    from [Start] it clears the registered stop function, which is the
    successor's: [IsWatching] is false although the successor runs, and
    the next call of [maybeStartWatchingThirdPartyResources] starts a
    further sub-controller beside it.  Two sub-controllers then run with
    contexts that have not been cancelled. *)
Theorem late_goroutine_unregisters_successor
    (s : Lifecycle) (cs : list Caller) (c c' : nat) (err : option error)
    (e : StartEnv) (caller : nat) (isStartup : bool)
    (Hlock : lock s = None)
    (Hold : controllers s !! c = Some (mkController Running true))
    (Hnew : controllers s !! c' = Some (mkController Running false))
    (Hstop : controllerStopFunction s = Some c')
    (Hgo : reachesGo e) :
  ∃ sys s',
    run [StartReturns c err; GoroutineClears c] {| lifecycle := s; callers := cs |}
    = Some sys
    ∧ IsWatching (lifecycle sys) = false
    ∧ controllers (lifecycle sys) !! c' = Some (mkController Running false)
    ∧ maybeStartWatchingThirdPartyResources e caller isStartup (lifecycle sys) = Some s'
    ∧ controllers s' !! c' = Some (mkController Running false)
    ∧ controllers s' !! length (controllers s) = Some (mkController Running false)
    ∧ c' ≠ length (controllers s).
Proof.
  assert (Hne : c ≠ c') by (intros ->; rewrite Hold in Hnew; discriminate).
  pose proof (lookup_lt_Some _ _ _ Hnew) as Hlt.
  rewrite (goroutine_exit s cs c err _ Hold eq_refl).
  eexists _, _. split; [reflexivity|]. cbn [lifecycle].
  split; [reflexivity|]. split.
  { cbn. by rewrite list_lookup_insert_ne. }
  split; [apply maybeStart_starts; [exact Hlock|reflexivity|exact Hgo]|].
  cbn. split; [|split; [|lia]].
  - rewrite lookup_app_l by (by rewrite length_insert).
    by rewrite list_lookup_insert_ne.
  - rewrite lookup_app_r by (rewrite length_insert; lia).
    by rewrite length_insert, Nat.sub_diag.
Qed.

Lemma late_goroutine_unregisters_successor_witness :
  ∃ sys s',
    run [StartReturns 0 None; GoroutineClears 0]
      {| lifecycle := exampleRestarted; callers := [] |}
    = Some sys
    ∧ IsWatching (lifecycle sys) = false
    ∧ controllers (lifecycle sys) !! 1%nat = Some (mkController Running false)
    ∧ maybeStartWatchingThirdPartyResources exampleStartEnv 3 false (lifecycle sys) = Some s'
    ∧ controllers s' !! 1%nat = Some (mkController Running false)
    ∧ controllers s' !! length (controllers exampleRestarted)
      = Some (mkController Running false)
    ∧ 1%nat ≠ length (controllers exampleRestarted).
Proof.
  apply (late_goroutine_unregisters_successor exampleRestarted [] 0 1 None exampleStartEnv
           3 false); [reflexivity|reflexivity|reflexivity|reflexivity|repeat split].
Defined.

(** *** The mutex *)

Lemma setControllerState_lock c st s : lock (setControllerState c st s) = lock s.
Proof. unfold setControllerState. by destruct (controllers s !! c). Qed.

(** A statement takes the lock, releases it, or is inside the critical
    section and leaves the lock alone. *)
Lemma advance_lock e t isStartup pc s pc' s' :
  advance e t isStartup pc s = Some (pc', s') ->
  (pc = AtLock ∧ lock s = None ∧ lock s' = Some t ∧ pc' = AtIsWatching)
  ∨ (pc = AtUnlock ∧ lock s' = None)
  ∨ (inCriticalSection pc ∧ inCriticalSection pc' ∧ lock s' = lock s).
Proof.
  intros Hadv. destruct pc; cbn [advance] in Hadv.
  - destruct (lock s) eqn:Hlock; [discriminate|]. injection Hadv as <- <-.
    left. by repeat split.
  - destruct (IsWatching s); injection Hadv as <- <-; right; right; by repeat split.
  - destruct (negb (DoesCrdExist e)); injection Hadv as <- <-; right; right;
      by repeat split.
  - destruct (negb (isValidApiConfig (GetApiConfig e))); injection Hadv as <- <-;
      right; right; repeat split; by destruct (negb isStartup).
  - destruct (newTypedUnmanagedError e); injection Hadv as <- <-; right; right;
      by repeat split.
  - destruct (watchError e); injection Hadv as <- <-; right; right; by repeat split.
  - injection Hadv as <- <-. right; right. by repeat split.
  - injection Hadv as <- <-. right; right. repeat split. apply setControllerState_lock.
  - injection Hadv as <- <-. right; left. by split.
  - discriminate.
Qed.

(** Inside the critical section no statement blocks. *)
Lemma advance_inside e t isStartup pc s :
  inCriticalSection pc -> is_Some (advance e t isStartup pc s).
Proof.
  intros Hcs. destruct pc; cbn [advance]; try done.
  - by destruct (IsWatching s).
  - by destruct (negb (DoesCrdExist e)).
  - by destruct (negb (isValidApiConfig (GetApiConfig e))).
  - by destruct (newTypedUnmanagedError e).
  - by destruct (watchError e).
Qed.

Lemma step_preserves_holder a sys sys' :
  LifecycleInvariant sys -> lockHolderInside sys -> step a sys = Some sys' ->
  lockHolderInside sys'.
Proof.
  intros Hinv Hholder Hstep. destruct a as [isStartup|t e|c err|c]; cbn [step] in Hstep.
  - injection Hstep as <-. intros t Hlock. cbn in *.
    destruct (Hholder t Hlock) as (th & Hth & Hcs). exists th. split; [|exact Hcs].
    by apply lookup_app_l_Some.
  - destruct (callers sys !! t) as [th|] eqn:Ht; [|discriminate]. cbn in Hstep.
    destruct (advance e t (callerIsStartup th) (callerAt th) (lifecycle sys))
      as [[pc s]|] eqn:Hadv; [|discriminate].
    injection Hstep as <-. intros t' Hlock'. cbn in *.
    pose proof (lookup_lt_Some _ _ _ Ht) as Hlt.
    destruct (advance_lock _ _ _ _ _ _ _ Hadv)
      as [(_ & _ & Hs & ->) | [(_ & Hs) | (Hcs & Hcs' & Hs)]].
    + rewrite Hs in Hlock'. injection Hlock' as <-.
      eexists. split; [by apply list_lookup_insert_eq|exact I].
    + rewrite Hs in Hlock'. discriminate.
    + rewrite Hs, (critical_section_is_locked sys Hinv t th Ht Hcs) in Hlock'.
      injection Hlock' as <-.
      eexists. split; [by apply list_lookup_insert_eq|exact Hcs'].
  - destruct (controllers (lifecycle sys) !! c) as [ctl|]; [|discriminate]. cbn in Hstep.
    destruct (controllerState ctl); try discriminate. injection Hstep as <-.
    intros t Hlock. cbn in *. rewrite setControllerState_lock in Hlock. by apply Hholder.
  - destruct (controllers (lifecycle sys) !! c) as [ctl|]; [|discriminate]. cbn in Hstep.
    destruct (controllerState ctl) as [| |err|]; try discriminate. injection Hstep as <-.
    intros t Hlock. cbn in *. rewrite setControllerState_lock in Hlock.
    apply Hholder. by destruct err.
Qed.

Lemma run_preserves_holder actions :
  ∀ sys sys', LifecycleInvariant sys -> lockHolderInside sys ->
              run actions sys = Some sys' -> lockHolderInside sys'.
Proof.
  induction actions as [|a rest IH]; intros sys sys' Hinv Hholder Hrun; cbn [run] in Hrun.
  - by injection Hrun as <-.
  - destruct (step a sys) as [sys1|] eqn:Hstep; [|discriminate].
    eapply IH; [| |exact Hrun].
    + eapply step_preserves_invariant; eauto.
    + eapply step_preserves_holder; eauto.
Qed.

(** X16.  However calls of [maybeStartWatchingThirdPartyResources] and the
    goroutines of the sub-controllers interleave, at most one caller is
    between [Lock] and the deferred [Unlock]. *)
Theorem critical_section_is_exclusive
    (actions : list Action) (sys : System) (t1 t2 : nat) (th1 th2 : Caller)
    (Hrun : run actions initialSystem = Some sys)
    (H1 : callers sys !! t1 = Some th1) (Hcs1 : inCriticalSection (callerAt th1))
    (H2 : callers sys !! t2 = Some th2) (Hcs2 : inCriticalSection (callerAt th2)) :
  t1 = t2.
Proof.
  pose proof (run_preserves_invariant actions _ _ initial_invariant Hrun) as Hinv.
  pose proof (critical_section_is_locked sys Hinv t1 th1 H1 Hcs1) as Hl1.
  pose proof (critical_section_is_locked sys Hinv t2 th2 H2 Hcs2) as Hl2.
  congruence.
Qed.

Lemma critical_section_is_exclusive_witness : 0%nat = 0%nat.
Proof.
  apply (critical_section_is_exclusive
           [Call false; Call true; Advance 0 exampleStartEnv; Advance 0 exampleStartEnv]
           {| lifecycle := setLock (Some 0%nat) initialLifecycle;
              callers := [mkCaller false AtDoesCrdExist; mkCaller true AtLock] |}
           0 0 (mkCaller false AtDoesCrdExist) (mkCaller false AtDoesCrdExist));
    first [reflexivity | exact I].
Defined.

(** X17.  No call is stuck while it holds the lock: whenever the mutex is
    held, its holder is a caller between [Lock] and [Unlock], and whatever
    the surroundings answer, the next statement of that caller can be
    executed. *)
Theorem lock_holder_can_move
    (actions : list Action) (sys : System) (t : nat)
    (Hrun : run actions initialSystem = Some sys)
    (Hlock : lock (lifecycle sys) = Some t) :
  ∃ th,
    callers sys !! t = Some th
    ∧ inCriticalSection (callerAt th)
    ∧ ∀ e, is_Some (step (Advance t e) sys).
Proof.
  pose proof (run_preserves_invariant actions _ _ initial_invariant Hrun) as Hinv.
  assert (Hholder : lockHolderInside sys).
  { apply (run_preserves_holder actions initialSystem sys initial_invariant); [|exact Hrun].
    intros t' Ht'. discriminate. }
  destruct (Hholder t Hlock) as (th & Hth & Hcs).
  exists th. split; [exact Hth|]. split; [exact Hcs|].
  intros e. cbn [step]. rewrite Hth. cbn.
  destruct (advance_inside e t (callerIsStartup th) (callerAt th) (lifecycle sys) Hcs)
    as [[pc s] Hadv].
  rewrite Hadv. by eexists.
Qed.

Lemma lock_holder_can_move_witness :
  ∃ th,
    callers {| lifecycle := setLock (Some 0%nat) initialLifecycle;
               callers := [mkCaller false AtDoesCrdExist; mkCaller true AtLock] |} !! 0%nat
    = Some th
    ∧ inCriticalSection (callerAt th)
    ∧ ∀ e, is_Some (step (Advance 0 e)
                      {| lifecycle := setLock (Some 0%nat) initialLifecycle;
                         callers := [mkCaller false AtDoesCrdExist;
                                     mkCaller true AtLock] |}).
Proof.
  apply (lock_holder_can_move
           [Call false; Call true; Advance 0 exampleStartEnv; Advance 0 exampleStartEnv]);
    reflexivity.
Defined.

(** ** Path segments *)

Lemma ReplaceAll_slash_eq s1 :
  ∀ s2, ReplaceAll s1 "/"%char "|"%char = ReplaceAll s2 "/"%char "|"%char
        ↔ differOnlyInSlashes s1 s2 = true.
Proof.
  induction s1 as [|a rest1 IH]; intros [|b rest2]; cbn [ReplaceAll differOnlyInSlashes];
    try (split; discriminate); [done|].
  rewrite andb_true_iff, <- IH. split.
  - intros Heq. injection Heq as Hhead Hrest. split; [|exact Hrest].
    destruct (Ascii.eqb_spec a "/"%char) as [->|Ha];
      destruct (Ascii.eqb_spec b "/"%char) as [->|Hb]; cbn.
    + reflexivity.
    + subst b. reflexivity.
    + subst a. reflexivity.
    + subst b. rewrite Ascii.eqb_refl. reflexivity.
  - intros [Hhead Hrest]. rewrite Hrest. f_equal.
    destruct (Ascii.eqb_spec a b) as [->|Hab]; [reflexivity|]. cbn in Hhead.
    destruct (Ascii.eqb_spec a "/"%char) as [->|Ha];
      destruct (Ascii.eqb_spec b "/"%char) as [->|Hb]; cbn in Hhead; try done.
    + destruct (Ascii.eqb_spec b "|"%char) as [->|Hb']; [reflexivity|discriminate].
    + destruct (Ascii.eqb_spec a "|"%char) as [->|Ha']; [reflexivity|discriminate].
    + destruct (Ascii.eqb_spec a "|"%char) as [->|Ha']; [|discriminate].
      destruct (Ascii.eqb_spec b "|"%char) as [->|Hb']; [done|discriminate].
Qed.

(** X18.  [urlEncodePathSegment] never passes a forward slash on to
    [url.PathEscape], and it does not tell forward slashes from vertical
    bars: when the escape function maps different strings to different
    strings, two names are encoded alike exactly when they have the same
    length and differ at most where both have a forward slash or a vertical
    bar. *)
Theorem urlEncodePathSegment_collisions
    (PathEscape : string -> string)
    (Hinj : ∀ a b, PathEscape a = PathEscape b -> a = b) (s1 s2 : string) :
  containsByte "/"%char (ReplaceAll s1 "/"%char "|"%char) = false
  ∧ (urlEncodePathSegment PathEscape s1 = urlEncodePathSegment PathEscape s2
     ↔ differOnlyInSlashes s1 s2 = true).
Proof.
  split.
  - induction s1 as [|a rest IH]; [reflexivity|]. cbn [ReplaceAll containsByte].
    rewrite IH, orb_false_r.
    destruct (Ascii.eqb_spec a "/"%char) as [->|Ha]; [reflexivity|].
    by apply Ascii.eqb_neq.
  - unfold urlEncodePathSegment. rewrite <- ReplaceAll_slash_eq. split.
    + apply Hinj.
    + by intros ->.
Qed.

Lemma urlEncodePathSegment_collisions_witness :
  containsByte "/"%char (ReplaceAll "ns/dashboard" "/"%char "|"%char) = false
  ∧ (urlEncodePathSegment (λ s, s) "ns/dashboard" = urlEncodePathSegment (λ s, s) "ns|dashboard"
     ↔ differOnlyInSlashes "ns/dashboard" "ns|dashboard" = true).
Proof.
  apply (urlEncodePathSegment_collisions (λ s, s)). intros a b H. exact H.
Defined.

(** ** The offset synchronizer *)

Lemma patchIsDue_unique env settings currentValue buf1 pb1 buf2 pb2 :
  patchIsDue env settings currentValue buf1 pb1 ->
  patchIsDue env settings currentValue buf2 pb2 ->
  buf1 = buf2 ∧ pb1 = pb2.
Proof.
  intros (n1 & Htar1 & _ & _ & Hpb1) (n2 & Htar2 & _ & _ & Hpb2).
  rewrite Htar1 in Htar2. injection Htar2 as _ <-.
  rewrite Hpb1 in Hpb2. by injection Hpb2 as <-.
Qed.

(** The three ways in which [doSynchOffsets] ends: the patch was sent and
    accepted, it was sent and refused, or no patch was due. *)
Lemma doSynchOffsets_cases env settings currentValue :
  (∃ buf patchBytes,
     patchIsDue env settings currentValue buf patchBytes
     ∧ patchErr env = None
     ∧ doSynchOffsets env settings currentValue
       = ((false, Z.of_nat (String.length (bufBytes env buf)), None),
          EncodeToString env (bufBytes env buf),
          [EvPatchConfigMap (ConfigMapNamespace settings) (ConfigMapName settings)
             patchBytes]))
  ∨ (∃ buf patchBytes err,
       patchIsDue env settings currentValue buf patchBytes
       ∧ patchErr env ≠ None
       ∧ doSynchOffsets env settings currentValue
         = ((false, -1, Some err), currentValue,
            [EvPatchConfigMap (ConfigMapNamespace settings) (ConfigMapName settings)
               patchBytes]))
  ∨ ((∀ buf patchBytes, ¬ patchIsDue env settings currentValue buf patchBytes)
     ∧ ∃ err, doSynchOffsets env settings currentValue
              = ((false, -1, err), currentValue, [])).
Proof.
  unfold doSynchOffsets.
  destruct (tarFolder env (FileLogOffsetDirectoryPath settings))
    as [[tarredFiles [err|]] buf] eqn:Htar.
  { right; right. split; [|by eexists]. intros buf' pb (n & Heq & _).
    rewrite Htar in Heq. discriminate. }
  destruct (Z.eqb_spec tarredFiles 0) as [->|Hfiles].
  { right; right. split; [|by eexists]. intros buf' pb (n & Heq & Hn & _).
    rewrite Htar in Heq. injection Heq as <- _. done. }
  destruct (String.eqb_spec (EncodeToString env (bufBytes env buf)) currentValue)
    as [Hsame|Hnew].
  { right; right. split; [|by eexists]. intros buf' pb (n & Heq & _ & Hne & _).
    rewrite Htar in Heq. injection Heq as _ <-. done. }
  unfold patchConfigMap.
  destruct (jsonMarshal env (NodeName settings) (EncodeToString env (bufBytes env buf)))
    as [patchBytes|err] eqn:Hjson.
  2: { right; right. split; [|by eexists]. intros buf' pb (n & Heq & _ & _ & Hpb).
       rewrite Htar in Heq. injection Heq as _ <-. rewrite Hjson in Hpb. discriminate. }
  assert (Hdue : patchIsDue env settings currentValue buf patchBytes)
    by (exists tarredFiles; by repeat split).
  destruct (patchErr env) as [err|] eqn:Hpatch.
  - right; left. eexists buf, patchBytes, _. split; [exact Hdue|]. by split.
  - left. exists buf, patchBytes. split; [exact Hdue|]. by split.
Qed.

(** X19.  [doSynchOffsets] issues at most one [Patch] call, and it issues
    one exactly when the directory was archived without error, the archive
    holds at least one file, its encoding differs from the value stored
    last, and the patch can be marshalled.  The call goes to the config map
    of the settings with the marshalled patch.  When the API server accepts
    it, the new value is remembered and the size of the archive reported
    without error; when the server refuses it, the call did go out, and the
    function returns an error, keeps the remembered value and reports size
    -1.  When no patch is due nothing is sent and the remembered value is
    kept.  The flag [IsOffsetUpdated] is false in every case, also after a
    successful update. *)
Theorem doSynchOffsets_outcome (env : SynchEnv) (settings : Settings) (currentValue : string) :
  ∃ size err currentValue' events,
    doSynchOffsets env settings currentValue = ((false, size, err), currentValue', events)
    ∧ (∀ buf patchBytes,
         patchIsDue env settings currentValue buf patchBytes ->
         events = [EvPatchConfigMap (ConfigMapNamespace settings) (ConfigMapName settings)
                     patchBytes]
         ∧ (patchErr env = None ->
              err = None
              ∧ currentValue' = EncodeToString env (bufBytes env buf)
              ∧ size = Z.of_nat (String.length (bufBytes env buf)))
         ∧ (patchErr env ≠ None ->
              err ≠ None ∧ currentValue' = currentValue ∧ size = -1))
    ∧ ((∀ buf patchBytes, ¬ patchIsDue env settings currentValue buf patchBytes) ->
         events = [] ∧ currentValue' = currentValue ∧ size = -1).
Proof.
  destruct (doSynchOffsets_cases env settings currentValue)
    as [(buf & pb & Hdue & Hpatch & ->) | [(buf & pb & err & Hdue & Hpatch & ->)
                                         | (Hnot & err & ->)]];
    eexists _, _, _, _; (split; [reflexivity|]); split.
  - intros buf' pb' Hdue'.
    destruct (patchIsDue_unique _ _ _ _ _ _ _ Hdue Hdue') as [<- <-].
    split; [done|]. split; [done|]. intros Hne. done.
  - intros Hnot. destruct (Hnot _ _ Hdue).
  - intros buf' pb' Hdue'.
    destruct (patchIsDue_unique _ _ _ _ _ _ _ Hdue Hdue') as [<- <-].
    split; [done|]. split; [intros Hnone; done|]. intros _. by repeat split.
  - intros Hnot. destruct (Hnot _ _ Hdue).
  - intros buf' pb' Hdue'. destruct (Hnot _ _ Hdue').
  - done.
Qed.

(** The example directory is stored. *)
Example doSynchOffsets_example :
  doSynchOffsets exampleSynchEnv exampleSettings EmptyString
  = ((false, 44, None), "b64:/offsets=;/offsets/receiver_filelog_=offset1",
     [EvPatchConfigMap "operator-namespace" "filelog-offsets"
        "node-1:b64:/offsets=;/offsets/receiver_filelog_=offset1"]).
Proof. reflexivity. Qed.

(** The same directory when the API server refuses the patch: the call
    goes out, the remembered value stays. *)
Example doSynchOffsets_refused :
  doSynchOffsets
    (mkSynchEnv (λ _, exampleWalk) None None (bufBytes exampleSynchEnv)
       (EncodeToString exampleSynchEnv) (jsonMarshal exampleSynchEnv)
       (Some (GoError "forbidden")) 0)
    exampleSettings "stored"
  = ((false, -1,
      Some (GoError ("cannot store offset files in configmap "
                     +:+ "operator-namespace/filelog-offsets: "
                     +:+ "cannot update 'node-1' field of configuration map  "
                     +:+ "operator-namespace/filelog-offsets: forbidden; "
                     +:+ "merge patch sent: "
                     +:+ "'node-1:b64:/offsets=;/offsets/receiver_filelog_=offset1'"))),
     "stored",
     [EvPatchConfigMap "operator-namespace" "filelog-offsets"
        "node-1:b64:/offsets=;/offsets/receiver_filelog_=offset1"]).
Proof. reflexivity. Qed.

(** X20.  After a call of [doSynchOffsets] that returns no error, a further
    call that finds the directory as it was sends nothing and changes
    nothing: unchanged offsets are stored once. *)
Theorem doSynchOffsets_settles
    (env : SynchEnv) (settings : Settings) (currentValue currentValue' : string)
    (offsetUpdated : bool) (size : Z) (events : list OffsetEvent)
    (Hfirst : doSynchOffsets env settings currentValue
              = ((offsetUpdated, size, None), currentValue', events)) :
  doSynchOffsets env settings currentValue' = ((false, -1, None), currentValue', []).
Proof.
  revert Hfirst. unfold doSynchOffsets.
  destruct (tarFolder env (FileLogOffsetDirectoryPath settings))
    as [[tarredFiles [err|]] buf]; [discriminate|].
  destruct (tarredFiles =? 0)%Z; [by intros [= _ _ <- _]|].
  destruct (String.eqb_spec (EncodeToString env (bufBytes env buf)) currentValue)
    as [Hsame|Hnew].
  - intros [= _ _ <- _]. by rewrite Hsame, String.eqb_refl.
  - destruct (patchConfigMap env _ _ _ _) as [[err|] patches]; [discriminate|].
    intros [= _ _ <- _]. by rewrite String.eqb_refl.
Qed.

Lemma doSynchOffsets_settles_witness :
  doSynchOffsets exampleSynchEnv exampleSettings
    "b64:/offsets=;/offsets/receiver_filelog_=offset1"
  = ((false, -1, None), "b64:/offsets=;/offsets/receiver_filelog_=offset1", []).
Proof.
  apply (doSynchOffsets_settles exampleSynchEnv exampleSettings EmptyString
           "b64:/offsets=;/offsets/receiver_filelog_=offset1" false 44
           [EvPatchConfigMap "operator-namespace" "filelog-offsets"
              "node-1:b64:/offsets=;/offsets/receiver_filelog_=offset1"]).
  reflexivity.
Defined.

(** X21.  [doSynchOffsetsAndMeasure] never records a metric: neither the
    update counter nor the size of the offset file nor the duration of the
    update, whatever the outcome of [doSynchOffsets], whose error, remembered
    value and patch it passes on between the start and the end of the
    span. *)
Theorem doSynchOffsetsAndMeasure_never_measures
    (env : SynchEnv) (settings : Settings) (currentValue : string) :
  ∃ offsetUpdated size err currentValue' patches events,
    doSynchOffsets env settings currentValue
    = ((offsetUpdated, size, err), currentValue', patches)
    ∧ doSynchOffsetsAndMeasure env settings currentValue = (err, currentValue', events)
    ∧ Forall (λ e, isMetric e = false) events
    ∧ filter (λ e, isPatch e = true) events = patches
    ∧ head events = Some (EvSpanStart "synch-offsets")
    ∧ last events = Some EvSpanEnd.
Proof.
  unfold doSynchOffsetsAndMeasure.
  destruct (doSynchOffsets_cases env settings currentValue)
    as [(buf & pb & _ & _ & ->) | [(buf & pb & err & _ & _ & ->) | (_ & [err|] & ->)]];
    eexists _, _, _, _, _, _; (split; [reflexivity|]); (split; [reflexivity|]);
    (split; [by repeat constructor|]); by repeat split.
Qed.

Lemma tarFile_added writer e err writer' :
  tarFile writer e = ((true, err), writer') -> IsDir e = false.
Proof.
  unfold tarFile. destruct (FileInfoHeader e); [|discriminate].
  destruct (writeHeaderErr e); [discriminate|].
  destruct (IsDir e); [discriminate|done].
Qed.

Lemma tarFile_success writer e hasAdded writer' :
  tarFile writer e = ((hasAdded, None), writer') ->
  hasAdded = negb (IsDir e) ∧ ∃ entry, archivedAs e entry ∧ writer' = writer ++ [entry].
Proof.
  unfold tarFile, archivedAs. destruct (FileInfoHeader e) as [header|]; [|discriminate].
  destruct (writeHeaderErr e); [discriminate|].
  destruct (IsDir e).
  { intros [= <- <-]. split; [done|]. eexists. split; [by eexists|done]. }
  destruct (openErr e); [discriminate|]. destruct (copyErr e); [discriminate|].
  destruct (closeErr e); [discriminate|].
  intros [= <- <-]. split; [done|]. eexists. split; [by eexists|done].
Qed.

Lemma regularFiles_cons e rest :
  regularFiles (e :: rest)
  = if IsDir e then regularFiles rest
    else (ToSlash (walkPath e), fileContent e) :: regularFiles rest.
Proof. unfold regularFiles. cbn. by destruct (IsDir e). Qed.

(** The count never exceeds the number of regular files. *)
Lemma walkAndTar_bound entries :
  ∀ writer n n' err writer',
    walkAndTar entries writer n = ((n', err), writer') ->
    (n ≤ n' ≤ n + Z.of_nat (length (regularFiles entries)))%Z.
Proof.
  induction entries as [|e rest IH]; intros writer n n' err writer' Hwalk;
    cbn [walkAndTar] in Hwalk.
  - injection Hwalk as <- _ _. cbn. lia.
  - rewrite regularFiles_cons.
    assert (Hmore : (0 ≤ Z.of_nat (length (if IsDir e then regularFiles rest
                     else (ToSlash (walkPath e), fileContent e) :: regularFiles rest)))%Z)
      by lia.
    destruct (walkErr e); [injection Hwalk as <- _ _; lia|].
    destruct (tarFile writer e) as [[hasAdded [err'|]] writer1] eqn:Htar;
      [injection Hwalk as <- _ _; lia|].
    apply IH in Hwalk. destruct (tarFile_success _ _ _ _ Htar) as [-> _].
    destruct (IsDir e); cbn [negb length] in *; lia.
Qed.

Lemma walkAndTar_success entries :
  ∀ writer n n' writer',
    walkAndTar entries writer n = ((n', None), writer') ->
    n' = n + Z.of_nat (length (regularFiles entries))
    ∧ ∃ added, writer' = writer ++ added ∧ Forall2 archivedAs entries added.
Proof.
  induction entries as [|e rest IH]; intros writer n n' writer' Hwalk;
    cbn [walkAndTar] in Hwalk.
  - injection Hwalk as <- <-. split; [cbn; lia|]. exists []. by rewrite app_nil_r.
  - destruct (walkErr e); [discriminate|].
    destruct (tarFile writer e) as [[hasAdded [err'|]] writer1] eqn:Htar; [discriminate|].
    destruct (tarFile_success _ _ _ _ Htar) as [-> (entry & Hentry & ->)].
    apply IH in Hwalk as [-> (added & -> & Hadded)]. rewrite regularFiles_cons. split.
    + destruct (IsDir e); cbn [negb length]; lia.
    + exists (entry :: added). split; [by rewrite <- app_assoc|by constructor].
Qed.

(** X22.  [tarFolder] counts the regular files that it has archived in
    full: the count is never above the number of regular files that the
    walk meets, and when there is no error it is that number, and the
    archive holds one entry for every call of the walk function, in the
    order of the walk: the header under the path of the entry, followed by
    the bytes of the file, or by nothing for a directory. *)
Theorem tarFolder_counts_regular_files
    (env : SynchEnv) (path : string) (tarredFiles : Z) (err : option error)
    (buf : list (Header * string))
    (Htar : tarFolder env path = ((tarredFiles, err), buf)) :
  (0 ≤ tarredFiles ≤ Z.of_nat (length (regularFiles (Walk env path))))%Z
  ∧ (err = None ->
       tarredFiles = Z.of_nat (length (regularFiles (Walk env path)))
       ∧ Forall2 archivedAs (Walk env path) buf).
Proof.
  revert Htar. unfold tarFolder.
  destruct (walkAndTar (Walk env path) [] 0) as [[n walked] writer] eqn:Hwalk.
  pose proof (walkAndTar_bound _ _ _ _ _ _ Hwalk) as Hbound.
  destruct walked as [err'|].
  { intros [= <- <- <-]. split; [lia|discriminate]. }
  destruct (walkAndTar_success _ _ _ _ _ Hwalk) as [Hn (added & -> & Hadded)].
  cbn in Hn. assert (Hok : n = Z.of_nat (length (regularFiles (Walk env path)))
                           ∧ Forall2 archivedAs (Walk env path) ([] ++ added))
    by (split; [lia|exact Hadded]).
  destruct (twCloseErr env); [intros [= <- <- <-]; split; [lia|discriminate]|].
  destruct (gwCloseErr env); intros [= <- <- <-]; (split; [lia|]); [discriminate|done].
Qed.

Lemma tarFolder_counts_regular_files_witness :
  (0 ≤ 1 ≤ Z.of_nat (length (regularFiles (Walk exampleSynchEnv "/offsets"))))%Z
  ∧ (@None error = None ->
       1 = Z.of_nat (length (regularFiles (Walk exampleSynchEnv "/offsets")))
       ∧ Forall2 archivedAs (Walk exampleSynchEnv "/offsets")
           [ (mkHeader tar_TypeDir "/offsets" 0 493 0, EmptyString);
             (mkHeader tar_TypeReg "/offsets/receiver_filelog_" 7 420 0, "offset1") ]).
Proof.
  apply (tarFolder_counts_regular_files exampleSynchEnv "/offsets" 1 None). reflexivity.
Defined.

(** X23.  A directory without regular files is never stored: when every
    entry that the walk meets is a directory, [doSynchOffsets] sends no
    patch and keeps the value it remembers, so what the config map holds
    for the node is not overwritten by an empty archive. *)
Theorem doSynchOffsets_without_files
    (env : SynchEnv) (settings : Settings) (currentValue : string)
    (Hdirs : Forall (λ e, IsDir e = true) (Walk env (FileLogOffsetDirectoryPath settings))) :
  ∃ err, doSynchOffsets env settings currentValue = ((false, -1, err), currentValue, []).
Proof.
  assert (Hnone : regularFiles (Walk env (FileLogOffsetDirectoryPath settings)) = []).
  { induction Hdirs as [|e rest He _ IH]; [done|]. by rewrite regularFiles_cons, He. }
  unfold doSynchOffsets.
  destruct (tarFolder env (FileLogOffsetDirectoryPath settings))
    as [[tarredFiles err] buf] eqn:Htar.
  unfold tarFolder in Htar.
  destruct (walkAndTar (Walk env (FileLogOffsetDirectoryPath settings)) [] 0)
    as [[n walked] writer] eqn:Hwalk.
  pose proof (walkAndTar_bound _ _ _ _ _ _ Hwalk) as Hbound. rewrite Hnone in Hbound.
  cbn in Hbound. assert (n = 0) as -> by lia.
  destruct walked; [injection Htar as <- <- <-; by eexists|].
  destruct (twCloseErr env); [injection Htar as <- <- <-; by eexists|].
  destruct (gwCloseErr env); injection Htar as <- <- <-; by eexists.
Qed.

Lemma doSynchOffsets_without_files_witness :
  ∃ err,
    doSynchOffsets
      (mkSynchEnv (λ _, take 1 exampleWalk) None None (bufBytes exampleSynchEnv)
         (EncodeToString exampleSynchEnv) (jsonMarshal exampleSynchEnv) None 0)
      exampleSettings "stored"
    = ((false, -1, err), "stored", []).
Proof.
  apply (doSynchOffsets_without_files
           (mkSynchEnv (λ _, take 1 exampleWalk) None None (bufBytes exampleSynchEnv)
              (EncodeToString exampleSynchEnv) (jsonMarshal exampleSynchEnv) None 0)
           exampleSettings "stored").
  cbn. constructor; [reflexivity|constructor].
Defined.

Lemma doSynchOffsetsAndMeasure_events env settings currentValue :
  ∃ err currentValue' events,
    doSynchOffsetsAndMeasure env settings currentValue = (err, currentValue', events)
    ∧ Forall (λ e, isMetric e = false) events
    ∧ length (filter (λ e, isSpanStart e = true) events) = 1%nat.
Proof.
  unfold doSynchOffsetsAndMeasure.
  destruct (doSynchOffsets_cases env settings currentValue)
    as [(buf & pb & _ & _ & ->) | [(buf & pb & err & _ & _ & ->) | (_ & [err|] & ->)]];
    eexists _, _, _; (split; [reflexivity|]); (split; [by repeat constructor|]);
    reflexivity.
Qed.

(** X24.  [synchOffsets] returns only after a [SIGTERM], and then nil,
    whatever the synchronizations returned: an error of a synchronization is
    logged and neither ends the loop nor reaches the caller.  Until the
    function returns, every tick and the first [SIGTERM] start one
    synchronization each, and no metric is recorded. *)
Theorem synchOffsets_returns_after_sigterm
    (signals : list (Signal * SynchEnv)) (settings : Settings) (currentValue : string) :
  ∃ currentValue' events,
    synchOffsets signals settings currentValue
    = (if existsb isSigterm signals then Some None else None, currentValue', events)
    ∧ length (filter (λ e, isSpanStart e = true) events) = length (untilSigterm signals)
    ∧ Forall (λ e, isMetric e = false) events.
Proof.
  revert currentValue. induction signals as [|[signal env] rest IH]; intros currentValue.
  - eexists _, _. split; [reflexivity|]. split; [reflexivity|constructor].
  - destruct (doSynchOffsetsAndMeasure_events env settings currentValue)
      as (err & cv1 & events & Hmeasure & Hmetric & Hspan).
    destruct signal; cbn [synchOffsets existsb isSigterm fst untilSigterm orb];
      rewrite Hmeasure.
    + destruct (IH cv1) as (cv2 & later & -> & Hcount & Hlater).
      eexists _, _. split; [reflexivity|]. split.
      * cbn [length]. rewrite <- Hcount.
        destruct err; rewrite !filter_app, !length_app, Hspan; reflexivity.
      * apply Forall_app. split; [|exact Hlater].
        destruct err; [apply Forall_app; split; [exact Hmetric|by repeat constructor]|].
        exact Hmetric.
    + eexists _, _. split; [reflexivity|]. split.
      * destruct err; rewrite ?filter_app, ?length_app, Hspan; reflexivity.
      * destruct err; [apply Forall_app; split; [exact Hmetric|by repeat constructor]|].
        exact Hmetric.
Qed.

(** The example: a failing tick, then [SIGTERM]; the second tick is not
    served. *)
Example synchOffsets_example :
  (synchOffsets
     [ (Tick, mkSynchEnv (λ _, exampleWalk) None None (bufBytes exampleSynchEnv)
                (EncodeToString exampleSynchEnv) (jsonMarshal exampleSynchEnv)
                (Some (GoError "forbidden")) 0);
       (Sigterm, exampleSynchEnv);
       (Tick, exampleSynchEnv) ]
     exampleSettings EmptyString).1
  = (Some None, "b64:/offsets=;/offsets/receiver_filelog_=offset1").
Proof. reflexivity. Qed.

Lemma writtenFiles_app events later :
  writtenFiles (events ++ later) = writtenFiles events ++ writtenFiles later.
Proof. apply omap_app. Qed.

Lemma regularSteps_app done rest :
  regularSteps (done ++ rest) = regularSteps done ++ regularSteps rest.
Proof. apply omap_app. Qed.

(** One call of [restoreFile] before the end of the archive.  Without a
    header the archive is reported as fully read and nothing is done; with
    a header a directory or a regular file is restored and anything else
    is an error. *)
Lemma restoreFile_step step :
  ∃ archiveFullyRead hasRestoredFile err events,
    restoreFile (Some step) = ((archiveFullyRead, hasRestoredFile, err), events)
    ∧ (archiveFullyRead = true ->
       nextHeader step = None ∧ hasRestoredFile = false ∧ err = None ∧ events = [])
    ∧ (archiveFullyRead = false -> nextHeader step ≠ None)
    ∧ (archiveFullyRead = false -> err = None ->
       hasRestoredFile = bool_decide (regularSteps [step] ≠ [])
       ∧ writtenFiles events = regularSteps [step]).
Proof.
  unfold restoreFile, regularSteps. cbn [omap list_omap].
  destruct (nextHeader step) as [header|]; [|by eexists _, _, _, _].
  destruct (nextErr step); [by eexists _, _, _, _|].
  destruct (Z.eqb_spec (Typeflag header) tar_TypeDir) as [Hdir|Hnodir].
  { rewrite Hdir. cbn.
    destruct (statErr step); [destruct (mkdirErr step)|]; by eexists _, _, _, _. }
  destruct (Z.eqb_spec (Typeflag header) tar_TypeReg) as [Hreg|Hnoreg];
    [|by eexists _, _, _, _].
  destruct (openFileErr step); [by eexists _, _, _, _|].
  destruct (copyFileErr step); [by eexists _, _, _, _|].
  destruct (closeFileErr step); by eexists _, _, _, _.
Qed.

Lemma regularSteps_one step :
  Z.of_nat (length (regularSteps [step]))
  = if bool_decide (regularSteps [step] ≠ []) then 1 else 0.
Proof.
  unfold regularSteps. cbn. destruct (nextHeader step) as [header|]; [|done].
  by destruct (Typeflag header =? tar_TypeReg)%Z.
Qed.

Lemma restoreFiles_outcome tr :
  ∀ n n' err events,
    restoreFiles tr n = ((n', err), events) ->
    ∃ done rest,
      tr = done ++ rest
      ∧ n' = n + Z.of_nat (length (regularSteps done))
      ∧ regularSteps done `prefix_of` writtenFiles events
      ∧ (err = None ->
           writtenFiles events = regularSteps done
           ∧ (rest = [] ∨ ∃ step rest', rest = step :: rest' ∧ nextHeader step = None))
      ∧ (err ≠ None -> ∃ step rest', rest = step :: rest' ∧ nextHeader step ≠ None).
Proof.
  induction tr as [|step tr IH]; intros n n' err events Hrestore; cbn [restoreFiles] in Hrestore.
  - cbn in Hrestore. injection Hrestore as <- <- <-. exists [], [].
    split; [done|]. split; [cbn; lia|]. split; [done|]. split; [intros _; by split; [|left]|].
    intros H. done.
  - destruct (restoreFile_step step)
      as (over & restored & err1 & evs & Hstep & Hover & Hheader & Hok).
    rewrite Hstep in Hrestore. destruct over.
    { destruct (Hover eq_refl) as (Hnone & -> & -> & ->).
      injection Hrestore as <- <- <-. exists [], (step :: tr).
      split; [done|]. split; [cbn; lia|]. split; [done|].
      split; [intros _; split; [done|]; right; by eexists _, _|]. intros H. done. }
    specialize (Hheader eq_refl). specialize (Hok eq_refl). clear Hover.
    destruct err1 as [err1|].
    + injection Hrestore as <- <- <-. exists [], (step :: tr).
      split; [done|]. split; [cbn; lia|]. split; [apply prefix_nil|].
      split; [discriminate|]. intros _. by eexists _, _.
    + destruct (Hok eq_refl) as [-> Hwritten]. clear Hok.
      destruct (restoreFiles tr _) as [[n1 err1] later] eqn:Hrest.
      injection Hrestore as <- <- <-.
      destruct (IH _ _ _ _ Hrest) as (done & rest & -> & -> & Hprefix & Hnone & Hsome).
      exists (step :: done), rest. split; [done|].
      change (step :: done) with ([step] ++ done).
      rewrite !regularSteps_app, writtenFiles_app, Hwritten. split; [|split; [|split]].
      * rewrite length_app, Nat2Z.inj_add, regularSteps_one.
        destruct (bool_decide _); lia.
      * by apply prefix_app.
      * intros Herr. destruct (Hnone Herr) as [Hlater Hrest']. split; [|exact Hrest'].
        by rewrite Hlater.
      * exact Hsome.
Qed.

(** X25.  [initOffsets] restores the entries of the archive in their
    order, up to the point where it stops.  The count it returns is the
    number of regular files among the entries before that point, and those
    files were written, in that order.  It stops with an error at an entry
    that has a header and cannot be restored.  It stops without an error at
    the end of the archive, and also at an entry for which [tr.Next()]
    returns no header: the error that came with it is dropped, the entries
    behind it are not restored, and what was written are the regular files
    before it and nothing else. *)
Theorem initOffsets_restores
    (env : InitEnv) (settings : Settings) (binaryData : gmap string string)
    (offsetBytes : string) (tr : list RestoreStep) (restoredFiles : Z) (err : option error)
    (events : list OffsetEvent)
    (Hget : getConfigMap env = inl binaryData)
    (Hset : binaryData !! NodeName settings = Some offsetBytes)
    (Hgzip : gzipNewReader env offsetBytes = inl tr)
    (Hinit : initOffsets env settings = ((restoredFiles, err), events)) :
  ∃ done rest,
    tr = done ++ rest
    ∧ restoredFiles = Z.of_nat (length (regularSteps done))
    ∧ regularSteps done `prefix_of` writtenFiles events
    ∧ (err = None ->
         writtenFiles events = regularSteps done
         ∧ (rest = [] ∨ ∃ step rest', rest = step :: rest' ∧ nextHeader step = None))
    ∧ (err ≠ None -> ∃ step rest', rest = step :: rest' ∧ nextHeader step ≠ None).
Proof.
  unfold initOffsets in Hinit. rewrite Hget, Hset, Hgzip in Hinit.
  destruct (restoreFiles_outcome _ _ _ _ _ Hinit) as (done & rest & H1 & H2 & H3).
  exists done, rest. split; [exact H1|]. split; [lia|exact H3].
Qed.

(** The witness is the damaged archive: the restore ends without error at
    the damaged entry and the file behind it is not restored. *)
Lemma initOffsets_restores_witness :
  initOffsets (mkInitEnv (inl {[ "node-1" := "bytes" ]}) (λ _, inl exampleDamagedReader))
    exampleSettings
  = ((0, None),
     [EvMkdir "/offsets" 493; EvPrintf ("Restored directory '/offsets'" +:+ newline)])
  ∧ ∃ done rest,
      exampleDamagedReader = done ++ rest
      ∧ 0 = Z.of_nat (length (regularSteps done))
      ∧ regularSteps done
        `prefix_of` writtenFiles
           [EvMkdir "/offsets" 493; EvPrintf ("Restored directory '/offsets'" +:+ newline)]
      ∧ (@None error = None ->
           writtenFiles
             [EvMkdir "/offsets" 493; EvPrintf ("Restored directory '/offsets'" +:+ newline)]
           = regularSteps done
           ∧ (rest = [] ∨ ∃ step rest', rest = step :: rest' ∧ nextHeader step = None))
      ∧ (@None error ≠ None -> ∃ step rest', rest = step :: rest' ∧ nextHeader step ≠ None).
Proof.
  split; [reflexivity|].
  apply (initOffsets_restores
           (mkInitEnv (inl {[ "node-1" := "bytes" ]}) (λ _, inl exampleDamagedReader))
           exampleSettings {[ "node-1" := "bytes" ]} "bytes" exampleDamagedReader 0 None);
    reflexivity.
Defined.

Lemma restore_of_archived entries :
  ∀ buf tr n,
    Forall2 archivedAs entries buf ->
    Forall2 readsBack buf tr ->
    Forall (λ e, ∀ header, FileInfoHeader e = inl header ->
                 Typeflag header = if IsDir e then tar_TypeDir else tar_TypeReg) entries ->
    ∃ events,
      restoreFiles tr n = ((n + Z.of_nat (length (regularFiles entries)), None), events)
      ∧ writtenFiles events = regularFiles entries.
Proof.
  induction entries as [|e entries IH]; intros buf tr n Harchived Hreads Hflags.
  - apply Forall2_nil_inv_l in Harchived as ->. apply Forall2_nil_inv_l in Hreads as ->.
    exists []. cbn. split; [repeat f_equal; lia|done].
  - apply Forall2_cons_inv_l in Harchived as (entry & buf' & Hentry & Harchived & ->).
    apply Forall2_cons_inv_l in Hreads as (step & tr' & Hstep & Hreads & ->).
    apply Forall_cons in Hflags as [Hflag Hflags].
    destruct Hentry as (header & Hheader & ->).
    destruct Hstep as (Hnext & Hnexterr & Hcontent & Hmkdir & Hopen & Hcopy & Hclose).
    cbn in Hnext, Hcontent.
    specialize (Hflag header Hheader). rewrite regularFiles_cons.
    cbn [restoreFiles]. unfold restoreFile. rewrite Hnext, Hnexterr.
    cbn [Typeflag setName Name Mode Size].
    rewrite Hflag. destruct (IsDir e).
    + cbn. rewrite Hmkdir.
      destruct (IH buf' tr' n Harchived Hreads Hflags) as (later & Hlater & Hwritten).
      destruct (statErr step); cbn; rewrite Hlater; eexists; (split; [reflexivity|]);
        rewrite ?writtenFiles_app; exact Hwritten.
    + cbn. rewrite Hopen, Hcopy, Hclose. cbn.
      destruct (IH buf' tr' (n + 1) Harchived Hreads Hflags) as (later & Hlater & Hwritten).
      rewrite Hlater. eexists. split; [do 2 f_equal; lia|].
      unfold writtenFiles in *. cbn. by rewrite Hwritten, Hcontent.
Qed.

(** X26.  What [tarFolder] archives, [initOffsets] restores: when a
    directory that holds directories and regular files only was archived
    without error, and the archive is read back in surroundings in which
    creating directories and files does not fail, [initOffsets] returns
    without error, the number of files it reports is the number that
    [tarFolder] counted, and the files it writes are the regular files of
    the directory, under their paths, with their bytes and in the order of
    the walk. *)
Theorem offsets_round_trip
    (synchEnv : SynchEnv) (initEnv : InitEnv) (settings : Settings) (tarredFiles : Z)
    (buf : list (Header * string)) (binaryData : gmap string string) (offsetBytes : string)
    (tr : list RestoreStep)
    (Htar : tarFolder synchEnv (FileLogOffsetDirectoryPath settings)
            = ((tarredFiles, None), buf))
    (Hflags : Forall (λ e, ∀ header, FileInfoHeader e = inl header ->
                           Typeflag header = if IsDir e then tar_TypeDir else tar_TypeReg)
                (Walk synchEnv (FileLogOffsetDirectoryPath settings)))
    (Hget : getConfigMap initEnv = inl binaryData)
    (Hset : binaryData !! NodeName settings = Some offsetBytes)
    (Hgzip : gzipNewReader initEnv offsetBytes = inl tr)
    (Hreads : Forall2 readsBack buf tr) :
  ∃ events,
    initOffsets initEnv settings = ((tarredFiles, None), events)
    ∧ writtenFiles events = regularFiles (Walk synchEnv (FileLogOffsetDirectoryPath settings)).
Proof.
  unfold tarFolder in Htar.
  destruct (walkAndTar (Walk synchEnv (FileLogOffsetDirectoryPath settings)) [] 0)
    as [[n [err|]] writer] eqn:Hwalk; [discriminate|].
  assert (n = tarredFiles ∧ writer = buf) as [-> ->].
  { destruct (twCloseErr synchEnv); [discriminate|].
    destruct (gwCloseErr synchEnv); [discriminate|]. by injection Htar as <- <-. }
  destruct (walkAndTar_success _ _ _ _ _ Hwalk) as [-> (added & -> & Harchived)].
  unfold initOffsets. rewrite Hget, Hset, Hgzip.
  apply (restore_of_archived _ _ _ 0 Harchived Hreads Hflags).
Qed.

Lemma offsets_round_trip_witness :
  ∃ events,
    initOffsets exampleInitEnv exampleSettings = ((1, None), events)
    ∧ writtenFiles events = regularFiles (Walk exampleSynchEnv "/offsets").
Proof.
  apply (offsets_round_trip exampleSynchEnv exampleInitEnv exampleSettings 1
           [ (mkHeader tar_TypeDir "/offsets" 0 493 0, EmptyString);
             (mkHeader tar_TypeReg "/offsets/receiver_filelog_" 7 420 0, "offset1") ]
           {[ "node-1" := "bytes" ]} "bytes" exampleReader).
  - reflexivity.
  - cbn. constructor; [by intros header [= <-]|].
    constructor; [by intros header [= <-]|constructor].
  - reflexivity.
  - reflexivity.
  - reflexivity.
  - constructor; [by repeat split|]. constructor; [by repeat split|constructor].
Defined.

Lemma doSynchOffsetsAndMeasure_keeps env settings currentValue :
  ∃ err currentValue' events,
    doSynchOffsetsAndMeasure env settings currentValue = (err, currentValue', events)
    ∧ (filter (λ e, isPatch e = true) events = [] -> currentValue' = currentValue).
Proof.
  unfold doSynchOffsetsAndMeasure.
  destruct (doSynchOffsets_cases env settings currentValue)
    as [(buf & pb & _ & _ & ->) | [(buf & pb & err & _ & _ & ->) | (_ & [err|] & ->)]];
    eexists _, _, _; (split; [reflexivity|]); [discriminate|done|done|done].
Qed.

(** X27.  The value that the synchronizer remembers changes only in a
    call that issues a [Patch] call: over a whole run of [synchOffsets] in
    which no [Patch] call was issued, accepted or refused, the remembered
    value is the one the run started with, whatever failed on the way. *)
Theorem synchOffsets_remembers_what_it_stored
    (signals : list (Signal * SynchEnv)) (settings : Settings) (currentValue : string)
    (Hnone : filter (λ e, isPatch e = true)
               (synchOffsets signals settings currentValue).2 = []) :
  (synchOffsets signals settings currentValue).1.2 = currentValue.
Proof.
  revert currentValue Hnone.
  induction signals as [|[signal env] rest IH]; intros currentValue; [done|].
  destruct (doSynchOffsetsAndMeasure_keeps env settings currentValue)
    as (err & cv1 & events & Hmeasure & Hkeeps).
  destruct signal; cbn [synchOffsets]; rewrite Hmeasure.
  - specialize (IH cv1). destruct (synchOffsets rest settings cv1) as [[result cv2] later].
    cbn [fst snd] in *. rewrite filter_app. intros Hnone.
    apply app_eq_nil in Hnone as [Hfirst Hlater].
    rewrite (IH Hlater). apply Hkeeps.
    destruct err; [|exact Hfirst].
    rewrite filter_app in Hfirst. by apply app_eq_nil in Hfirst as [Hfirst _].
  - cbn [fst snd]. intros Hnone. apply Hkeeps.
    destruct err; [|exact Hnone].
    rewrite filter_app in Hnone. by apply app_eq_nil in Hnone as [Hnone _].
Qed.

Lemma synchOffsets_remembers_what_it_stored_witness :
  (synchOffsets
     [ (Tick, mkSynchEnv (λ _, exampleWalk) (Some (GoError "no space left on device")) None
                (bufBytes exampleSynchEnv) (EncodeToString exampleSynchEnv)
                (jsonMarshal exampleSynchEnv) None 0);
       (Sigterm, mkSynchEnv (λ _, take 1 exampleWalk) None None (bufBytes exampleSynchEnv)
                   (EncodeToString exampleSynchEnv) (jsonMarshal exampleSynchEnv) None 0) ]
     exampleSettings "stored").1.2
  = "stored".
Proof.
  apply (synchOffsets_remembers_what_it_stored
           [ (Tick, mkSynchEnv (λ _, exampleWalk) (Some (GoError "no space left on device"))
                      None (bufBytes exampleSynchEnv) (EncodeToString exampleSynchEnv)
                      (jsonMarshal exampleSynchEnv) None 0);
             (Sigterm, mkSynchEnv (λ _, take 1 exampleWalk) None None
                         (bufBytes exampleSynchEnv) (EncodeToString exampleSynchEnv)
                         (jsonMarshal exampleSynchEnv) None 0) ]
           exampleSettings "stored").
  reflexivity.
Defined.
